(** * PyMIC crop transforms: [pymic/transform/crop.py]

    A shallow embedding of the two cropping transforms
    [CropWithBoundingBox] and [RandomCrop], of their
    [inverse_transform_for_prediction] methods, and the properties of the
    crop geometry they record on the sample.

    Python values are modelled as follows.
    - ints are [Z]; [int(x/2)] (true division followed by truncation) is
      [Z.quot x 2];
    - a numpy array is a shape together with an indexing function;
    - the sample dictionary is a [gmap string pyobj] that the methods update
      in place: every method is a computation in a state-and-exception monad
      whose final state is the dictionary as the caller sees it afterwards,
      also when an exception was raised;
    - the process-wide random source is a list of raw draws that
      [random.randint] and [random.random] consume. *)

From Stdlib Require Import ZArith QArith Lia Ascii DecimalString DecimalZ DecimalPos.
From stdpp Require Import base option list list_numbers strings gmap fin_maps.

Local Open Scope Z_scope.

(** ** Exceptions and the two monads *)

Inductive exn :=
| AssertionError | TypeError | ValueError | IndexError | KeyError | AttributeError.

Inductive outcome (A : Type) :=
| Ret (a : A)
| Raise (e : exn).
Arguments Ret {A} a.
Arguments Raise {A} e.

#[global] Instance outcome_ret : MRet outcome := @Ret.
#[global] Instance outcome_bind : MBind outcome := fun A B f m =>
  match m with
  | Ret a => f a
  | Raise e => Raise e
  end.

(** [assert(b)] *)
Definition py_assert (b : bool) : outcome unit :=
  if b then Ret tt else Raise AssertionError.

(** [[f(x) for x in l]]: the elements are evaluated left to right and the
    first exception ends the comprehension. *)
Fixpoint comprehension {A B} (f : A -> outcome B) (l : list A) : outcome (list B) :=
  match l with
  | [] => Ret []
  | x :: r => y ← f x; ys ← comprehension f r; Ret (y :: ys)
  end.

(** [range(n)] *)
Definition range (n : Z) : list Z := seqZ 0 n.

(** [l[i]] on a Python list or tuple of ints: a negative index counts from
    the end, an index out of range raises IndexError. *)
Definition getitem (l : list Z) (i : Z) : outcome Z :=
  let j := if i <? 0 then i + Z.of_nat (length l) else i in
  if j <? 0 then Raise IndexError
  else match l !! Z.to_nat j with
       | Some x => Ret x
       | None => Raise IndexError
       end.

(** [l[0] = v] on a list *)
Definition setitem0 (l : list Z) (v : Z) : outcome (list Z) :=
  match l with
  | [] => Raise IndexError
  | _ :: _ => Ret (<[0%nat := v]> l)
  end.

(** [int(x / 2)] under [from __future__ import division]: the quotient is a
    float and [int] truncates it toward zero. *)
Definition int_half (x : Z) : Z := Z.quot x 2.

(** ** Configuration values

    [start], [output_size] and [mask_label] come from the configuration
    dictionary: [None], a list or a tuple of ints, or (for a mis-written
    configuration) a bare int. *)

Inductive param :=
| PNone
| PInt (z : Z)
| PList (l : list Z)
| PTuple (l : list Z).

#[global] Instance param_eq_dec : EqDecision param.
Proof. solve_decision. Defined.

Definition is_none (p : param) : bool :=
  match p with PNone => true | _ => false end.

(** [isinstance(p, (list, tuple))] *)
Definition is_list_or_tuple (p : param) : bool :=
  match p with PList _ | PTuple _ => true | _ => false end.

(** the elements of a list or tuple; [len], indexing and iteration raise
    TypeError on [None] and on an int *)
Definition items (p : param) : outcome (list Z) :=
  match p with
  | PList l | PTuple l => Ret l
  | PNone | PInt _ => Raise TypeError
  end.

Definition py_len (p : param) : outcome Z :=
  l ← items p; Ret (Z.of_nat (length l)).

Definition py_getitem (p : param) (i : Z) : outcome Z :=
  l ← items p; getitem l i.

(** [[0] + p] resp. [l + p]: list concatenation accepts only a list on the
    right. *)
Definition list_add (l : list Z) (p : param) : outcome (list Z) :=
  match p with
  | PList r => Ret (l ++ r)
  | _ => Raise TypeError
  end.

(** ** numpy arrays *)

Record ndarray := NdArray {
  shape : list nat;
  data : list nat -> Z
}.

(** [idx] addresses an element of an array of shape [shp] *)
Fixpoint in_shape (idx shp : list nat) : bool :=
  match idx, shp with
  | [], [] => true
  | i :: idx', n :: shp' => (i <? n)%nat && in_shape idx' shp'
  | _, _ => false
  end.

(** all the indices of an array of shape [shp], in row-major order *)
Fixpoint indices (shp : list nat) : list (list nat) :=
  match shp with
  | [] => [[]]
  | n :: shp' => i ← seq 0 n; (cons i) <$> indices shp'
  end.

(** [a.shape] as the tuple of Python ints *)
Definition shapeZ (a : ndarray) : list Z := Z.of_nat <$> shape a.

(** [np.zeros(shp)] *)
Definition np_zeros (shp : list Z) : outcome ndarray :=
  if forallb (Z.leb 0) shp
  then Ret {| shape := Z.to_nat <$> shp; data := fun _ => 0 |}
  else Raise ValueError.

(** [a.sum()] *)
Definition np_sum (a : ndarray) : Z :=
  foldr Z.add 0 (data a <$> indices (shape a)).

(** the mask built by
    [mask = np.zeros_like(label); for v in mask_label: mask = np.maximum(mask, label == v)] *)
Definition label_mask (label : ndarray) (mask_label : list Z) : ndarray :=
  {| shape := shape label;
     data := fun idx =>
       fold_left (fun m v => Z.max m (if data label idx =? v then 1 else 0))
                 mask_label 0 |}.

(** The half-open interval [lo, hi) on an axis of length [n]: a bound is
    taken where it lies on the axis, a bound beyond an end at that end.  For
    bounds on the axis this is the basic slice [lo:hi].  The spec gives no
    rule for a bound outside the axis: taking it at the end is a choice of
    this model, which has no part for a box inside the array
    ([box_inside], [slice_bound_inside]). *)
Definition slice_bound (n : nat) (x : Z) : nat :=
  Z.to_nat (Z.max 0 (Z.min x (Z.of_nat n))).

Definition slice_start (n : nat) (lo : Z) : nat := slice_bound n lo.
Definition slice_len (n : nat) (lo hi : Z) : nat :=
  (slice_bound n hi - slice_bound n lo)%nat.

(** [idx] lies in the part of the box [lo, hi) that an array of shape [shp]
    has *)
Fixpoint in_region (shp : list nat) (lo hi : list Z) (idx : list nat) : bool :=
  match shp, lo, hi, idx with
  | [], [], [], [] => true
  | n :: shp', l :: lo', h :: hi', i :: idx' =>
      (slice_start n l <=? i)%nat && (i <? slice_start n l + slice_len n l h)%nat
      && in_region shp' lo' hi' idx'
  | _, _, _, _ => false
  end.

Fixpoint region_shape (shp : list nat) (lo hi : list Z) : list nat :=
  match shp, lo, hi with
  | n :: shp', l :: lo', h :: hi' => slice_len n l h :: region_shape shp' lo' hi'
  | _, _, _ => []
  end.

Fixpoint region_starts (shp : list nat) (lo : list Z) : list nat :=
  match shp, lo with
  | n :: shp', l :: lo' => slice_start n l :: region_starts shp' lo'
  | _, _ => []
  end.

Definition same_rank (shp : list nat) (lo hi : list Z) : bool :=
  (length lo =? length shp)%nat && (length hi =? length shp)%nat.

(** Modelled from the spec: [crop_ND_volume_with_bounding_box] of
    [pymic.util.image_process] is not among the sources.  By the spec the
    bounds are "coordinate vectors ... defining a half-open box
    [crop_min, crop_max) used to slice or to re-embed" and the transforms
    "slice image to [crop_min, crop_max)": the result holds the elements of
    [volume] whose index lies in the box, one pair of bounds per axis.
    Bounds that do not give one pair per axis are rejected. *)
Definition crop_ND_volume_with_bounding_box
    (volume : ndarray) (bb_min bb_max : list Z) : outcome ndarray :=
  if same_rank (shape volume) bb_min bb_max
  then Ret {| shape := region_shape (shape volume) bb_min bb_max;
              data := fun idx =>
                data volume (zip_with Nat.add (region_starts (shape volume) bb_min) idx) |}
  else Raise IndexError.

(** Modelled from the spec: [set_ND_volume_roi_with_bounding_box_range] of
    [pymic.util.image_process] is not among the sources.  By the spec the
    inverse "writes the prediction into that sub-region in place": the
    elements of [volume] whose index lies in the box [bb_min, bb_max) are
    overwritten by those of [sub_volume], which must have the shape of that
    sub-region. *)
Definition set_ND_volume_roi_with_bounding_box_range
    (volume : ndarray) (bb_min bb_max : list Z) (sub_volume : ndarray) : outcome ndarray :=
  if same_rank (shape volume) bb_min bb_max
  then if decide (shape sub_volume = region_shape (shape volume) bb_min bb_max)
       then Ret {| shape := shape volume;
                   data := fun idx =>
                     if in_region (shape volume) bb_min bb_max idx
                     then data sub_volume
                            (zip_with Nat.sub idx (region_starts (shape volume) bb_min))
                     else data volume idx |}
       else Raise ValueError
  else Raise IndexError.

(** the smallest and the largest coordinate along axis [k] among the
    indices [nz] *)
Definition axis_min (nz : list (list nat)) (k : nat) : nat :=
  match (fun idx => nth k idx 0%nat) <$> nz with
  | [] => 0%nat
  | x :: r => foldr Nat.min x r
  end.
Definition axis_max (nz : list (list nat)) (k : nat) : nat :=
  foldr Nat.max 0%nat ((fun idx => nth k idx 0%nat) <$> nz).

(** the indices of the non-zero elements, [np.nonzero] *)
Definition nonzero (volume : ndarray) : list (list nat) :=
  filter (fun idx => data volume idx ≠ 0) (indices (shape volume)).

(** Modelled from the spec: [get_ND_bounding_box] of
    [pymic.util.image_process] is not among the sources.  By the spec's
    glossary it gives "the minimal axis-aligned box containing all non-zero
    voxels", one (min, max) pair per axis, and the transforms use the pair
    directly as the half-open crop bounds: [bb_min[k]] is the smallest
    coordinate of a non-zero element and [bb_max[k]] one more than the
    largest.  There is no such box for an array without a non-zero element
    (the source tests [mask.sum() == 0] before it calls the function); the
    call then raises. *)
Definition get_ND_bounding_box (volume : ndarray) : outcome (list Z * list Z) :=
  let nz := nonzero volume in
  match nz with
  | [] => Raise ValueError
  | _ :: _ =>
      let axes := seq 0 (length (shape volume)) in
      Ret ((fun k => Z.of_nat (axis_min nz k)) <$> axes,
           (fun k => Z.of_nat (axis_max nz k) + 1) <$> axes)
  end.

(** ** The [json] module

    The transforms store the crop geometry as the text that [json.dumps]
    gives for a tuple of three int sequences and read it back with
    [json.loads].  The fragment of JSON that occurs is modelled concretely:
    documents are ints and arrays, printed with the separators of
    [json.dumps] ([", "] between elements) and read by a lexer and a
    shift-reduce parser for that fragment.  The reader is exact on every
    text that [dumps] prints (see [JsonFacts.loads_dumps]), and these are
    the texts that the transforms store.  On other texts it is an
    approximation of [json.loads]: blanks are the only white space, floats,
    strings, objects and literals are not read, and a run of digits with
    leading zeros is read as the int it spells, where [json.loads]
    raises. *)

Module Json.

#[warnings="-register-all"]
Inductive json := JInt (z : Z) | JArr (l : list json).
Inductive token := TOpen | TClose | TComma | TNum (z : Z).

(** decimal text of an int and back *)
Definition text_of_Z (z : Z) : list ascii :=
  String.list_ascii_of_string (NilZero.string_of_int (Z.to_int z)).
Definition Z_of_text (s : list ascii) : option Z :=
  Z.of_int <$> NilZero.int_of_string (String.string_of_list_ascii s).

(** the tokens of a document; [sep_by] puts a comma between the elements *)
Fixpoint sep_by (l : list (list token)) : list token :=
  match l with
  | [] => []
  | x :: r => x ++ match r with [] => [] | _ :: _ => TComma :: sep_by r end
  end.

Fixpoint toks (j : json) : list token :=
  match j with
  | JInt z => [TNum z]
  | JArr l => TOpen :: sep_by (toks <$> l) ++ [TClose]
  end.

Definition text (t : token) : list ascii :=
  match t with
  | TOpen => ["["%char]
  | TClose => ["]"%char]
  | TComma => [","%char; " "%char]
  | TNum z => text_of_Z z
  end.

Definition render (ts : list token) : list ascii := ts ≫= text.

Definition dumps (j : json) : string := String.string_of_list_ascii (render (toks j)).

(** lexer: [cur] holds the characters of the number being read *)
Definition is_num_char (c : ascii) : bool :=
  Ascii.eqb c "-" || ((48 <=? nat_of_ascii c)%nat && (nat_of_ascii c <=? 57)%nat).

Definition flush (cur : list ascii) (ts : list token) : option (list token) :=
  match cur with
  | [] => Some ts
  | _ :: _ => z ← Z_of_text cur; Some (TNum z :: ts)
  end.

Definition punct (c : ascii) : option (list token) :=
  if Ascii.eqb c "[" then Some [TOpen]
  else if Ascii.eqb c "]" then Some [TClose]
  else if Ascii.eqb c "," then Some [TComma]
  else if Ascii.eqb c " " then Some []
  else None.

Fixpoint lex (cur : list ascii) (s : list ascii) : option (list token) :=
  match s with
  | [] => flush cur []
  | c :: s' =>
      if is_num_char c then lex (cur ++ [c]) s'
      else ts ← lex [] s'; t ← punct c; flush cur (t ++ ts)
  end.

(** parser: a stack with one frame per open array, holding the elements
    read so far (last first) and what may come next *)
Inductive expect := Start | AfterValue | AfterComma.

Definition accepts_value (e : expect) : bool :=
  match e with AfterValue => false | _ => true end.
Definition accepts_close (e : expect) : bool :=
  match e with AfterComma => false | _ => true end.

Fixpoint run (stack : list (list json * expect)) (ts : list token) : option json :=
  match ts with
  | [] => None
  | t :: ts' =>
      match stack with
      | [] => None
      | (es, e) :: stk =>
          match t with
          | TNum z =>
              if accepts_value e then run ((JInt z :: es, AfterValue) :: stk) ts' else None
          | TOpen =>
              if accepts_value e then run (([], Start) :: (es, e) :: stk) ts' else None
          | TComma =>
              match e with AfterValue => run ((es, AfterComma) :: stk) ts' | _ => None end
          | TClose =>
              if accepts_close e then
                match stk with
                | [] => match ts' with [] => Some (JArr (reverse es)) | _ => None end
                | (es', _) :: stk' => run ((JArr (reverse es) :: es', AfterValue) :: stk') ts'
                end
              else None
          end
      end
  end.

Definition parse (ts : list token) : option json :=
  match ts with
  | [TNum z] => Some (JInt z)
  | TOpen :: ts' => run [([], Start)] ts'
  | _ => None
  end.

Definition loads (s : string) : option json :=
  ts ← lex [] (String.list_ascii_of_string s); parse ts.

(** no two numbers follow each other without a separator ([prev] tells
    whether the token before was a number) *)
Fixpoint spaced (prev : bool) (ts : list token) : bool :=
  match ts with
  | [] => true
  | TNum _ :: r => negb prev && spaced true r
  | _ :: r => spaced false r
  end.

Definition not_num_first (ts : list token) : Prop :=
  match ts with TNum _ :: _ => False | _ => True end.

End Json.

Import Json.

(** [json.loads] raises JSONDecodeError, a ValueError, on a text that is
    not a document. *)
Definition json_loads_text (s : string) : outcome json :=
  match Json.loads s with
  | Some j => Ret j
  | None => Raise ValueError
  end.

(** [j[i]] on a loaded document *)
Definition json_getitem (j : json) (i : nat) : outcome json :=
  match j with
  | JArr l => match l !! i with Some x => Ret x | None => Raise IndexError end
  | JInt _ => Raise TypeError
  end.

(** [j[1:]] on a loaded document *)
Definition json_from1 (j : json) : outcome (list json) :=
  match j with
  | JArr l => Ret (drop 1 l)
  | JInt _ => Raise TypeError
  end.

(** a list handed to numpy as a shape or as slice bounds must hold ints *)
Definition as_ints (l : list json) : outcome (list Z) :=
  comprehension (fun j => match j with JInt z => Ret z | JArr _ => Raise TypeError end) l.

(** ** The sample dictionary and the state monad *)

#[warnings="-register-all"]
Inductive pyobj :=
| OArr (a : ndarray)
| OStr (s : string)
| OList (l : list pyobj)
| OTuple (l : list pyobj).

Record state := State {
  sample : gmap string pyobj;
  rng : list nat
}.

Definition M (A : Type) : Type := state -> state * outcome A.

#[global] Instance M_ret : MRet M := fun A a s => (s, Ret a).
#[global] Instance M_bind : MBind M := fun A B f m s =>
  match m s with
  | (s', Ret a) => f a s'
  | (s', Raise e) => (s', Raise e)
  end.

Definition lift {A} (o : outcome A) : M A := fun s => (s, o).

(** [sample[k]] *)
Definition sample_get (k : string) : M pyobj := fun s =>
  match sample s !! k with
  | Some v => (s, Ret v)
  | None => (s, Raise KeyError)
  end.

(** [k in sample] *)
Definition sample_has (k : string) : M bool := fun s =>
  (s, Ret (bool_decide (is_Some (sample s !! k)))).

(** [sample[k] = v] *)
Definition sample_set (k : string) (v : pyobj) : M unit := fun s =>
  ({| sample := <[k := v]> (sample s); rng := rng s |}, Ret tt).

(** [x.shape], [x.dtype] and the like need an array *)
Definition as_array (o : pyobj) : outcome ndarray :=
  match o with
  | OArr a => Ret a
  | _ => Raise AttributeError
  end.

(** [json.loads(o)] *)
Definition json_loads (o : pyobj) : outcome json :=
  match o with
  | OStr s => json_loads_text s
  | _ => Raise TypeError
  end.

(** [json.dumps((input_shape, crop_min, crop_max))]: tuples and lists are
    both written as arrays. *)
Definition json_dumps_triple (input_shape crop_min crop_max : list Z) : string :=
  Json.dumps (JArr [JArr (JInt <$> input_shape);
                    JArr (JInt <$> crop_min);
                    JArr (JInt <$> crop_max)]).

(** *** The random source

    [random.randint(a, b)] and [random.random()] read the process-wide
    generator.  Its future is a list of raw draws (zeros once the list is
    used up); [randint] maps a draw onto [a..b], both ends included, and
    raises ValueError on an empty range; [random] maps two draws onto a
    rational in [0, 1). *)

Definition next_draw (g : list nat) : nat * list nat :=
  match g with
  | [] => (0%nat, [])
  | x :: r => (x, r)
  end.

Definition randint (a b : Z) : M Z := fun s =>
  if b <? a then (s, Raise ValueError)
  else let '(r, g) := next_draw (rng s) in
       ({| sample := sample s; rng := g |}, Ret (a + Z.of_nat r mod (b - a + 1))).

Definition random : M Q := fun s =>
  let '(n, g) := next_draw (rng s) in
  let '(d, g) := next_draw g in
  ({| sample := sample s; rng := g |},
   Ret (Qmake (Z.of_nat (n mod S d)) (Pos.of_succ_nat d))).

Definition Qltb (x y : Q) : bool := negb (Qle_bool y x).

(** a comprehension whose element expression draws random numbers *)
Fixpoint comprehensionM {A B} (f : A -> M B) (l : list A) : M (list B) :=
  match l with
  | [] => mret []
  | x :: r => y ← f x; ys ← comprehensionM f r; mret (y :: ys)
  end.

(** *** What both transforms do after the bounds are fixed

    [if(k in sample and sample[k].shape[1:] == image.shape[1:])]: the array
    under [k] is cropped with [crop_max[0]] overwritten by its own channel
    count.  [crop_max] is the list object of the caller, so the overwritten
    value is what the caller goes on with. *)
Definition crop_entry (k : string) (image : ndarray) (crop_min crop_max : list Z)
  : M (list Z) :=
  has ← sample_has k;
  if (has : bool) then
    v ← sample_get k;
    arr ← lift (as_array v);
    if decide (drop 1 (shape arr) = drop 1 (shape image)) then
      c ← lift (getitem (shapeZ arr) 0);
      crop_max ← lift (setitem0 crop_max c);
      arr_t ← lift (crop_ND_volume_with_bounding_box arr crop_min crop_max);
      _ ← sample_set k (OArr arr_t);
      mret crop_max
    else mret crop_max
  else mret crop_max.

(** Lines 53-69 and 158-174, the same statements in both classes: the
    channel bounds are prepended, the geometry is stored under the key of
    the transform, and the image, the label and the weight are cropped. *)
Definition store_and_crop (key : string) (image : ndarray)
    (crop_min : param) (crop_max : list Z) : M unit :=
  let input_shape := shapeZ image in
  crop_min ← lift (list_add [0] crop_min);
  let crop_max := take 1 input_shape ++ crop_max in
  _ ← sample_set key (OStr (json_dumps_triple input_shape crop_min crop_max));
  image_t ← lift (crop_ND_volume_with_bounding_box image crop_min crop_max);
  _ ← sample_set "image" (OArr image_t);
  crop_max ← crop_entry "label" image crop_min crop_max;
  crop_max ← crop_entry "weight" image crop_min crop_max;
  mret tt.

(** What [inverse_transform_for_prediction] does with one prediction array
    (the same statements occur three times in the source: in the loop and in
    the single-array branch of [CropWithBoundingBox], and in [RandomCrop]).
    [origin_shape], [crop_min] and [crop_max] are reassigned, so the new
    values are returned along with the reconstructed array. *)
Definition reinsert (origin_shape crop_min crop_max : json) (predict : pyobj)
  : outcome (json * json * json * ndarray) :=
  p ← as_array predict;
  let lead := JInt <$> take 2 (shapeZ p) in
  t ← json_from1 origin_shape;
  let origin_shape := JArr (lead ++ t) in
  shp ← as_ints (lead ++ t);
  output_predict ← np_zeros shp;
  t ← json_from1 crop_min;
  let crop_min := JArr ([JInt 0; JInt 0] ++ t) in
  bb_min ← as_ints ([JInt 0; JInt 0] ++ t);
  t ← json_from1 crop_max;
  let crop_max := JArr (lead ++ t) in
  bb_max ← as_ints (lead ++ t);
  output_predict ←
    set_ND_volume_roi_with_bounding_box_range output_predict bb_min bb_max p;
  Ret (origin_shape, crop_min, crop_max, output_predict).

(** The first lines of both inverse methods: the stored parameter is a
    text, or a list or tuple of texts of which the first is read. *)
Definition load_param (v : pyobj) : outcome (json * json * json) :=
  params ← match v with
           | OList l | OTuple l =>
               match l with
               | [] => Raise IndexError
               | first :: _ => json_loads first
               end
           | _ => json_loads v
           end;
  origin_shape ← json_getitem params 0;
  crop_min ← json_getitem params 1;
  crop_max ← json_getitem params 2;
  Ret (origin_shape, crop_min, crop_max).

(** ** [class CropWithBoundingBox] *)

Module CropWithBoundingBox.

Record t := Build {
  start : param;
  output_size : param;
  inverse : bool
}.

(** the entries of the configuration dictionary that [__init__] reads *)
Record params := Params {
  cropwithboundingbox_start : param;
  cropwithboundingbox_output_size : param;
  cropwithboundingbox_inverse : bool
}.

(** [__init__]: the three entries are stored as they are, nothing is
    checked *)
Definition init (p : params) : t :=
  {| start := cropwithboundingbox_start p;
     output_size := cropwithboundingbox_output_size p;
     inverse := cropwithboundingbox_inverse p |}.

Definition Param : string := "CropWithBoundingBox_Param".

(** lines 35-52: the spatial bounds, by the four cases of [start] and
    [output_size] *)
Definition bounds (self : t) (input_dim : Z) (bb_min bb_max : list Z)
  : outcome (param * list Z) :=
  if is_none (start self) then
    if is_none (output_size self) then Ret (PList bb_min, bb_max)
    else
      n ← py_len (output_size self);
      _ ← py_assert (n =? input_dim);
      crop_min ← comprehension (fun i =>
          a ← getitem bb_min i; b ← getitem bb_max i;
          o ← py_getitem (output_size self) i;
          Ret (int_half (a + b + 1) - int_half o)) (range input_dim);
      crop_min ← comprehension (fun i =>
          c ← getitem crop_min i; Ret (Z.max 0 c)) (range input_dim);
      crop_max ← comprehension (fun i =>
          c ← getitem crop_min i; o ← py_getitem (output_size self) i;
          Ret (c + o)) (range input_dim);
      Ret (PList crop_min, crop_max)
  else
    n ← py_len (start self);
    _ ← py_assert (n =? input_dim);
    let crop_min := start self in
    if is_none (output_size self) then
      n ← py_len (output_size self);
      _ ← py_assert (n =? input_dim);
      crop_max ← comprehension (fun i =>
          c ← py_getitem crop_min i; b ← getitem bb_max i; a ← getitem bb_min i;
          Ret (c + b - a)) (range input_dim);
      Ret (crop_min, crop_max)
    else
      crop_max ← comprehension (fun i =>
          c ← py_getitem crop_min i; o ← py_getitem (output_size self) i;
          Ret (c + o)) (range input_dim);
      Ret (crop_min, crop_max).

(** [__call__] *)
Definition call (self : t) : M unit :=
  v ← sample_get "image";
  image ← lift (as_array v);
  let input_shape := shapeZ image in
  let input_dim := Z.of_nat (length input_shape) - 1 in
  bb ← lift (get_ND_bounding_box image);
  let bb_min := drop 1 bb.1 in
  let bb_max := drop 1 bb.2 in
  cc ← lift (bounds self input_dim bb_min bb_max);
  store_and_crop Param image cc.1 cc.2.

(** the loop over a list or tuple of predictions (lines 88-96) *)
Fixpoint reinsert_all (origin_shape crop_min crop_max : json) (predict : list pyobj)
  : outcome (list pyobj) :=
  match predict with
  | [] => Ret []
  | predict_i :: rest =>
      r ← reinsert origin_shape crop_min crop_max predict_i;
      let '(origin_shape, crop_min, crop_max, output_predict_i) := r in
      outs ← reinsert_all origin_shape crop_min crop_max rest;
      Ret (OArr output_predict_i :: outs)
  end.

Definition inverse_transform_for_prediction (self : t) : M unit :=
  pv ← sample_get Param;
  ps ← lift (load_param pv);
  let '(origin_shape, crop_min, crop_max) := ps in
  predict ← sample_get "predict";
  output_predict ← lift (
    match predict with
    | OTuple l | OList l =>
        outs ← reinsert_all origin_shape crop_min crop_max l; Ret (OList outs)
    | _ =>
        r ← reinsert origin_shape crop_min crop_max predict; Ret (OArr r.2)
    end);
  _ ← sample_set "predict" output_predict;
  mret tt.

End CropWithBoundingBox.

(** ** [class RandomCrop] *)

Module RandomCrop.

(** the entries of the configuration dictionary that [__init__] reads *)
Record params := Params {
  randomcrop_output_size : param;
  randomcrop_foreground_focus : bool;
  randomcrop_foreground_ratio : Q;
  randomcrop_mask_label : param;
  randomcrop_inverse : bool
}.

Record t := Build {
  output_size : param;
  fg_focus : bool;
  fg_ratio : Q;
  mask_label : param;
  inverse : bool
}.

Definition Param : string := "RandomCrop_Param".

(** [__init__] *)
Definition init (p : params) : outcome t :=
  let self := {| output_size := randomcrop_output_size p;
                 fg_focus := randomcrop_foreground_focus p;
                 fg_ratio := randomcrop_foreground_ratio p;
                 mask_label := randomcrop_mask_label p;
                 inverse := randomcrop_inverse p |} in
  _ ← py_assert (is_list_or_tuple (output_size self));
  _ ← (if negb (is_none (mask_label self))
       then py_assert (is_list_or_tuple (mask_label self))
       else Ret tt);
  Ret self.

(** lines 140-154: the offset of the foreground-focused crop *)
Definition fg_crop_min (self : t) (input_shape : list Z) (input_dim : Z) : M (list Z) :=
  lv ← sample_get "label";
  label ← lift (as_array lv);
  labs ← lift (items (mask_label self));
  let mask := label_mask label labs in
  bb ← lift (if np_sum mask =? 0
             then Ret (replicate (Z.to_nat (input_dim + 1)) 0, shapeZ mask)
             else get_ND_bounding_box mask);
  let bb_min := drop 1 bb.1 in
  let bb_max := drop 1 bb.2 in
  crop_min ← comprehensionM (fun i =>
      a ← lift (getitem bb_min i); b ← lift (getitem bb_max i);
      r ← randint a b;
      o ← lift (py_getitem (output_size self) i);
      mret (r - int_half o)) (range input_dim);
  let crop_min := Z.max 0 <$> crop_min in
  lift (comprehension (fun i =>
      c ← getitem crop_min i; s ← getitem input_shape (i + 1);
      o ← py_getitem (output_size self) i;
      Ret (Z.min c (s - o))) (range input_dim)).

(** [__call__] *)
Definition call (self : t) : M unit :=
  v ← sample_get "image";
  image ← lift (as_array v);
  let input_shape := shapeZ image in
  let input_dim := Z.of_nat (length input_shape) - 1 in
  n ← lift (py_len (output_size self));
  _ ← lift (py_assert (input_dim =? n));
  crop_margin ← lift (comprehension (fun i =>
      s ← getitem input_shape (i + 1); o ← py_getitem (output_size self) i;
      Ret (s - o)) (range input_dim));
  crop_min ← comprehensionM (fun item => randint 0 item) crop_margin;
  focus ← (if fg_focus self
           then u ← random; mret (Qltb u (fg_ratio self))
           else mret false);
  crop_min ← (if (focus : bool)
              then fg_crop_min self input_shape input_dim
              else mret crop_min);
  crop_max ← lift (comprehension (fun i =>
      c ← getitem crop_min i; o ← py_getitem (output_size self) i;
      Ret (c + o)) (range input_dim));
  store_and_crop Param image (PList crop_min) crop_max.

Definition inverse_transform_for_prediction (self : t) : M unit :=
  pv ← sample_get Param;
  ps ← lift (load_param pv);
  let '(origin_shape, crop_min, crop_max) := ps in
  predict ← sample_get "predict";
  r ← lift (reinsert origin_shape crop_min crop_max predict);
  _ ← sample_set "predict" (OArr r.2);
  mret tt.

End RandomCrop.

(** ** The two transforms behind one interface

    The pipeline calls [__call__] and [inverse_transform_for_prediction] on
    whichever transform it holds. *)

Inductive transform :=
| TCrop (self : CropWithBoundingBox.t)
| TRandom (self : RandomCrop.t).

Definition forward (tr : transform) : M unit :=
  match tr with
  | TCrop self => CropWithBoundingBox.call self
  | TRandom self => RandomCrop.call self
  end.

Definition backward (tr : transform) : M unit :=
  match tr with
  | TCrop self => CropWithBoundingBox.inverse_transform_for_prediction self
  | TRandom self => RandomCrop.inverse_transform_for_prediction self
  end.

Definition param_key (tr : transform) : string :=
  match tr with
  | TCrop _ => CropWithBoundingBox.Param
  | TRandom _ => RandomCrop.Param
  end.

Definition output_size_of (tr : transform) : param :=
  match tr with
  | TCrop self => CropWithBoundingBox.output_size self
  | TRandom self => RandomCrop.output_size self
  end.

(** What deserializing the parameter stored under [key] yields: the three
    int lists [(original_shape, crop_min, crop_max)]. *)
Definition json_ints (j : json) : outcome (list Z) :=
  match j with
  | JArr l => as_ints l
  | JInt _ => Raise TypeError
  end.

Definition recorded (key : string) (s : state) : outcome (list Z * list Z * list Z) :=
  match sample s !! key with
  | None => Raise KeyError
  | Some v =>
      ps ← load_param v;
      a ← json_ints ps.1.1; b ← json_ints ps.1.2; c ← json_ints ps.2;
      Ret (a, b, c)
  end.

(** [x[np.newaxis]]: the array with a batch axis of length 1 in front *)
Definition with_batch_axis (a : ndarray) : ndarray :=
  {| shape := 1%nat :: shape a; data := fun idx => data a (drop 1 idx) |}.

(** [idx] lies in the box [lo, hi) *)
Fixpoint in_box (lo hi : list Z) (idx : list nat) : bool :=
  match lo, hi, idx with
  | [], [], [] => true
  | l :: lo', h :: hi', i :: idx' =>
      (l <=? Z.of_nat i) && (Z.of_nat i <? h) && in_box lo' hi' idx'
  | _, _, _ => false
  end.

(** ** Predicates used in the statements *)

(** what [crop_entry k] has done to the entry [k] of the sample, in terms of
    the bounds [crop_min], [crop_max] of the image *)
Definition entry_cropped (k : string) (image : ndarray) (crop_min crop_max : list Z)
    (before after : gmap string pyobj) : Prop :=
  match before !! k with
  | None => after !! k = None
  | Some v =>
      exists arr, v = OArr arr /\
        if decide (drop 1 (shape arr) = drop 1 (shape image))
        then exists c arr_t, shape arr !! 0%nat = Some c /\
               crop_ND_volume_with_bounding_box arr crop_min
                 (<[0%nat := Z.of_nat c]> crop_max) = Ret arr_t /\
               after !! k = Some (OArr arr_t)
        else after !! k = Some (OArr arr)
  end.

(** the part of the geometry that the transform decides *)
Definition spatial_bounds (tr : transform) (image : ndarray)
    (cmin cmax : list Z) : Prop :=
  match tr with
  | TCrop self =>
      exists bb, get_ND_bounding_box image = Ret bb /\
        CropWithBoundingBox.bounds self (Z.of_nat (length (shape image)) - 1)
          (drop 1 bb.1) (drop 1 bb.2) = Ret (PList cmin, cmax)
  | TRandom self =>
      exists outs, items (RandomCrop.output_size self) = Ret outs /\
        S (length outs) = length (shape image) /\
        forall (i : nat) o, outs !! i = Some o ->
          exists c n, cmin !! i = Some c /\ shape image !! S i = Some n /\
            0 <= c <= Z.of_nat n - o /\ cmax !! i = Some (c + o)
  end.

(** ** Concrete samples *)

(** an array that is [v] at index [p] and zero elsewhere *)
Definition point_array (shp p : list nat) (v : Z) : ndarray :=
  {| shape := shp; data := fun idx => if decide (idx = p) then v else 0 |}.

(** an array that is [v] everywhere *)
Definition full_array (shp : list nat) (v : Z) : ndarray :=
  {| shape := shp; data := fun _ => v |}.

(** a one-channel 3x10 image whose only non-zero pixel is the last one of
    the middle row, with a two-channel label of the same spatial shape and a
    weight map of another shape *)
Definition corner_image : ndarray := point_array [1; 3; 10]%nat [0; 1; 9]%nat 5.

Definition corner_sample : gmap string pyobj :=
  {[ "image" := OArr corner_image;
     "label" := OArr (full_array [2; 3; 10]%nat 1);
     "weight" := OArr (full_array [1; 2; 2]%nat 1) ]}.

Definition corner_state : state := {| sample := corner_sample; rng := [4; 7; 1]%nat |}.

Definition crop_with (start output_size : param) : CropWithBoundingBox.t :=
  {| CropWithBoundingBox.start := start;
     CropWithBoundingBox.output_size := output_size;
     CropWithBoundingBox.inverse := true |}.

Definition random_with (output_size : param) (fg_focus : bool) (mask_label : param)
  : RandomCrop.t :=
  {| RandomCrop.output_size := output_size;
     RandomCrop.fg_focus := fg_focus;
     RandomCrop.fg_ratio := 1%Q;
     RandomCrop.mask_label := mask_label;
     RandomCrop.inverse := true |}.

(** the configurations used below *)
Definition centered_crop : CropWithBoundingBox.t := crop_with PNone (PList [1; 4]).
Definition uniform_crop : RandomCrop.t := random_with (PList [2; 4]) false PNone.
Definition focused_crop (output_size : list Z) : RandomCrop.t :=
  random_with (PList output_size) true (PList [1]).

(** a sample whose label marks the one voxel [p] *)
Definition marked_state (shp p : list nat) (draws : list nat) : state :=
  {| sample := {[ "image" := OArr (full_array shp 3);
                  "label" := OArr (point_array shp p 1) ]};
     rng := draws |}.

Definition marked_3x10 : state :=
  marked_state [1; 3; 10]%nat [0; 1; 9]%nat [0; 5; 0; 0; 1; 1]%nat.
Definition marked_1x3 : state :=
  marked_state [1; 1; 3]%nat [0; 0; 0]%nat [0; 0; 0; 0; 0; 1]%nat.

(** ** Predicates on runs that may raise *)

(** the dictionaries [m] and [m'] agree on every key outside [keys] *)
Definition same_outside (keys : list string) (m m' : gmap string pyobj) : Prop :=
  forall k, k ∉ keys -> m' !! k = m !! k.

(** whatever its outcome, the computation [c] leaves the entries of the
    sample outside [keys] as they were *)
Definition touches_only (keys : list string) {A} (c : M A) : Prop :=
  forall s, same_outside keys (sample s) (sample (c s).1).

(** the computation [c] neither reads nor advances the random source *)
Definition no_random {A} (c : M A) : Prop :=
  forall smp, exists smp' o, forall g,
    c {| sample := smp; rng := g |} = ({| sample := smp'; rng := g |}, o).

(** an entry that is absent, or an array with at least one axis: what the
    two [if('label' in sample and ...)] blocks can handle *)
Definition croppable (k : string) (smp : gmap string pyobj) : Prop :=
  smp !! k = None \/ exists arr, smp !! k = Some (OArr arr) /\ shape arr <> [].


(** the box [lo, hi) lies inside an array of shape [shp]:
    [0 <= lo[i] <= hi[i]] and [hi[i] <= shp[i]] on every axis *)
Definition box_inside (shp : list nat) (lo hi : list Z) : Prop :=
  Forall3 (fun n l h => 0 <= l <= h /\ h <= Z.of_nat n) shp lo hi.
(** * Facts *)

(** ** The [json] round trip *)

Module JsonFacts.

Lemma json_nested_ind (P : json -> Prop) :
  (forall z, P (JInt z)) ->
  (forall l, Forall P l -> P (JArr l)) ->
  forall j, P j.
Proof.
  intros Hint Harr. fix IH 1. intros [z|l].
  - apply Hint.
  - apply Harr. induction l as [|x r IHr]; constructor; [apply IH | apply IHr].
Qed.

Lemma all_num_uint d :
  forallb is_num_char (String.list_ascii_of_string (NilEmpty.string_of_uint d)) = true.
Proof. induction d; simpl; auto. Qed.

Lemma all_num_text_of_Z z : forallb is_num_char (text_of_Z z) = true.
Proof.
  unfold text_of_Z, NilZero.string_of_int, NilZero.string_of_uint.
  destruct (Z.to_int z) as [d|d]; destruct d; simpl; auto using all_num_uint.
Qed.

Lemma text_of_Z_nonempty z : text_of_Z z <> [].
Proof.
  unfold text_of_Z, NilZero.string_of_int, NilZero.string_of_uint.
  destruct (Z.to_int z) as [d|d]; destruct d; simpl; discriminate.
Qed.

Lemma Z_of_text_of_Z z : Z_of_text (text_of_Z z) = Some z.
Proof.
  unfold Z_of_text, text_of_Z.
  rewrite String.string_of_list_ascii_of_string, NilZero.isi.
  - simpl. f_equal. apply DecimalZ.of_to.
  - destruct z; simpl; try discriminate.
    intros [= H]. by apply Unsigned.to_uint_nonnil in H.
  - destruct z; simpl; try discriminate.
    intros [= H]. by apply Unsigned.to_uint_nonnil in H.
Qed.

Lemma flush_text_of_Z z ts : flush (text_of_Z z) ts = Some (TNum z :: ts).
Proof.
  unfold flush. pose proof (text_of_Z_nonempty z) as Hne.
  pose proof (Z_of_text_of_Z z) as Hz.
  destruct (text_of_Z z); [done|]. by rewrite Hz.
Qed.

Lemma lex_digits ds : forall cur rest,
  forallb is_num_char ds = true ->
  lex cur (ds ++ rest) = lex (cur ++ ds) rest.
Proof.
  induction ds as [|c ds IH]; intros cur rest Hds; simpl in *.
  - by rewrite app_nil_r.
  - apply andb_prop in Hds as [Hc Hds]. rewrite Hc, IH by done.
    by rewrite <-app_assoc.
Qed.

Lemma lex_punct cur c s :
  is_num_char c = false ->
  lex cur (c :: s) = ts ← lex [] (c :: s); flush cur ts.
Proof.
  intros Hc. simpl. rewrite Hc.
  destruct (lex [] s) as [ts|]; simpl; [|done].
  destruct (punct c) as [t|]; simpl; done.
Qed.

Lemma lex_render ts :
  spaced false ts = true -> lex [] (render ts) = Some ts.
Proof.
  induction ts as [|t r IH]; intros Hsp; [done|].
  destruct t; simpl in Hsp |- *; try (fold (render r); by rewrite IH).
  fold (render r). rewrite lex_digits by apply all_num_text_of_Z. simpl.
  destruct r as [|t' r'].
  - simpl. apply flush_text_of_Z.
  - assert (Hr : spaced false (t' :: r') = true) by (by destruct t').
    specialize (IH Hr).
    assert (exists c s, render (t' :: r') = c :: s /\ is_num_char c = false)
      as (c & s & Heq & Hc) by (destruct t'; simpl in *; try done; eauto).
    rewrite Heq in IH |- *. rewrite lex_punct, IH by done. simpl.
    apply flush_text_of_Z.
Qed.

Lemma spaced_toks j : forall rest,
  not_num_first rest -> spaced false (toks j ++ rest) = spaced false rest.
Proof.
  induction j as [z|l IHl] using json_nested_ind; intros rest Hrest; simpl.
  - by destruct rest as [|[] ?].
  - rewrite <-app_assoc. simpl.
    transitivity (spaced false (TClose :: rest)); [|done].
    generalize (TClose :: rest) (I : not_num_first (TClose :: rest)).
    induction IHl as [|x r Hx _ IHr]; intros rest' Hrest'; [done|].
    simpl. rewrite <-app_assoc. destruct r as [|y r'].
    + simpl. by apply Hx.
    + rewrite Hx by done. simpl. by apply IHr.
Qed.

Lemma run_elements l :
  Forall (fun j => forall es e stk rest, accepts_value e = true ->
            run ((es, e) :: stk) (toks j ++ rest)
            = run ((j :: es, AfterValue) :: stk) rest) l ->
  l <> [] ->
  forall acc e stk rest, accepts_value e = true ->
    run ((acc, e) :: stk) (sep_by (toks <$> l) ++ rest)
    = run ((reverse l ++ acc, AfterValue) :: stk) rest.
Proof.
  induction 1 as [|x r Hx _ IHr]; intros Hne acc e stk rest He; [done|].
  simpl. rewrite <-app_assoc, Hx by done. destruct r as [|y r']; [done|].
  simpl app. cbn [run]. rewrite IHr by done.
  by rewrite (reverse_cons (y :: r') x), <-app_assoc.
Qed.

Lemma run_toks j : forall es e stk rest,
  accepts_value e = true ->
  run ((es, e) :: stk) (toks j ++ rest) = run ((j :: es, AfterValue) :: stk) rest.
Proof.
  induction j as [z|l IHl] using json_nested_ind; intros es e stk rest He; simpl.
  - by rewrite He.
  - rewrite He, <-app_assoc. destruct (decide (l = [])) as [->|Hne]; [done|].
    rewrite run_elements by done.
    simpl. by rewrite app_nil_r, reverse_involutive.
Qed.

Lemma parse_toks j : parse (toks j) = Some j.
Proof.
  destruct j as [z|l]; [done|]. simpl.
  destruct (decide (l = [])) as [->|Hne]; [done|].
  rewrite run_elements; [|apply Forall_true, run_toks|done..].
  simpl. by rewrite app_nil_r, reverse_involutive.
Qed.

Lemma loads_dumps j : loads (dumps j) = Some j.
Proof.
  unfold loads, dumps. rewrite String.list_ascii_of_string_of_list_ascii, lex_render.
  - apply parse_toks.
  - rewrite <-(app_nil_r (toks j)). by rewrite spaced_toks.
Qed.

End JsonFacts.

(** ** Inversion of successful runs *)

Lemma outcome_bind_inv {A B} (m : outcome A) (f : A -> outcome B) b :
  m ≫= f = Ret b -> exists a, m = Ret a /\ f a = Ret b.
Proof. destruct m as [a|e]; [eauto | discriminate]. Qed.

Lemma M_bind_inv {A B} (m : M A) (f : A -> M B) s s' b :
  (m ≫= f) s = (s', Ret b) ->
  exists a s1, m s = (s1, Ret a) /\ f a s1 = (s', Ret b).
Proof.
  unfold mbind, M_bind. destruct (m s) as [s1 [a|e]]; [eauto | discriminate].
Qed.

Lemma lift_inv {A} (o : outcome A) s s' a :
  lift o s = (s', Ret a) -> o = Ret a /\ s' = s.
Proof. unfold lift. by intros [= -> ->]. Qed.

Lemma M_ret_inv {A} (a b : A) s s' :
  mret (M := M) a s = (s', Ret b) -> a = b /\ s' = s.
Proof. unfold mret, M_ret. by intros [= -> ->]. Qed.

Lemma py_assert_inv b u : py_assert b = Ret u -> b = true.
Proof. by destruct b. Qed.

Lemma sample_get_inv k s s' v :
  sample_get k s = (s', Ret v) -> sample s !! k = Some v /\ s' = s.
Proof.
  unfold sample_get. destruct (sample s !! k); [|discriminate].
  by intros [= -> ->].
Qed.

Lemma as_array_inv v a : as_array v = Ret a -> v = OArr a.
Proof. destruct v; simpl; congruence. Qed.

Lemma bind_lift_inv {A B} (o : outcome A) (f : A -> M B) s s' b :
  (lift o ≫= f) s = (s', Ret b) -> exists a, o = Ret a /\ f a s = (s', Ret b).
Proof.
  intros H. apply M_bind_inv in H as (a & s1 & [-> ->]%lift_inv & H'). eauto.
Qed.

Lemma bind_get_inv {B} k (f : pyobj -> M B) s s' b :
  (sample_get k ≫= f) s = (s', Ret b) ->
  exists v, sample s !! k = Some v /\ f v s = (s', Ret b).
Proof.
  intros H. apply M_bind_inv in H as (a & s1 & [? ->]%sample_get_inv & H'). eauto.
Qed.

Lemma bind_set_inv {B} k v (f : unit -> M B) s s' b :
  (sample_set k v ≫= f) s = (s', Ret b) ->
  f tt {| sample := <[k := v]> (sample s); rng := rng s |} = (s', Ret b).
Proof.
  intros H. apply M_bind_inv in H as (a & s1 & Hset & H'). unfold sample_set in Hset.
  injection Hset as <-. by destruct a.
Qed.

(** one statement of a successful run: the value it binds and why *)
Tactic Notation "step" hyp(H) "as" simple_intropattern(a) simple_intropattern(Ha) :=
  first [ apply bind_lift_inv in H as (a & Ha & H)
        | apply bind_get_inv in H as (a & Ha & H)
        | apply outcome_bind_inv in H as (a & Ha & H) ].

(** ** Ranges, indexing and comprehensions *)

Lemma range_lookup n (i : nat) :
  Z.of_nat i < n -> range n !! i = Some (Z.of_nat i).
Proof. intros. unfold range. by rewrite lookup_seqZ_lt. Qed.

Lemma range_length n : length (range n) = Z.to_nat n.
Proof. apply length_seqZ. Qed.

Lemma getitem_nat l (i : nat) : getitem l (Z.of_nat i) =
  match l !! i with Some x => Ret x | None => Raise IndexError end.
Proof.
  unfold getitem. cbv zeta.
  assert ((Z.of_nat i <? 0) = false) as -> by (apply Z.ltb_ge; lia).
  assert ((Z.of_nat i <? 0) = false) as -> by (apply Z.ltb_ge; lia).
  by rewrite Nat2Z.id.
Qed.

Lemma getitem_nat_inv l (i : nat) x :
  getitem l (Z.of_nat i) = Ret x -> l !! i = Some x.
Proof. rewrite getitem_nat. destruct (l !! i); congruence. Qed.

Lemma getitem_succ_nat_inv l (i : nat) x :
  getitem l (Z.of_nat i + 1) = Ret x -> l !! S i = Some x.
Proof.
  replace (Z.of_nat i + 1) with (Z.of_nat (S i)) by lia. apply getitem_nat_inv.
Qed.

Lemma comprehension_inv {A B} (f : A -> outcome B) l ys :
  comprehension f l = Ret ys -> Forall2 (fun x y => f x = Ret y) l ys.
Proof.
  revert ys. induction l as [|x r IH]; simpl; intros ys H.
  - injection H as <-. constructor.
  - step H as y Hy. step H as ys' Hys. injection H as <-. constructor; auto.
Qed.

(** a comprehension over [range n] that succeeded has [n] elements, the
    [i]-th being the value of the element expression at [i] *)
Lemma comprehension_range {B} (f : Z -> outcome B) n ys :
  comprehension f (range n) = Ret ys ->
  length ys = Z.to_nat n /\
  forall i : nat, Z.of_nat i < n -> exists y, ys !! i = Some y /\ f (Z.of_nat i) = Ret y.
Proof.
  intros H%comprehension_inv. split.
  - rewrite <-(Forall2_length _ _ _ H). apply range_length.
  - intros i Hi. pose proof (range_lookup n i Hi) as Hl.
    destruct (Forall2_lookup_l _ _ _ _ _ H Hl) as (y & Hy & Hf). eauto.
Qed.

(** ** The stored parameter *)

Lemma as_ints_JInt l : as_ints (JInt <$> l) = Ret l.
Proof.
  unfold as_ints. induction l as [|x r IH]; [done|].
  simpl. fold (@fmap list _ Z json JInt). by rewrite IH.
Qed.

Lemma load_param_dumps shp cmin cmax :
  load_param (OStr (json_dumps_triple shp cmin cmax))
  = Ret (JArr (JInt <$> shp), JArr (JInt <$> cmin), JArr (JInt <$> cmax)).
Proof.
  unfold load_param, json_dumps_triple. simpl. unfold json_loads_text.
  by rewrite JsonFacts.loads_dumps.
Qed.

Lemma recorded_dumps key s shp cmin cmax :
  sample s !! key = Some (OStr (json_dumps_triple shp cmin cmax)) ->
  recorded key s = Ret (shp, cmin, cmax).
Proof.
  intros H. unfold recorded. rewrite H, load_param_dumps. simpl.
  by rewrite !as_ints_JInt.
Qed.

(** ** Cropping the label and the weight *)

Lemma setitem0_inv l v l' : setitem0 l v = Ret l' -> l' = <[0%nat := v]> l.
Proof. destruct l; simpl; congruence. Qed.

Lemma crop_entry_inv k image cmin cmax s s' cmax' :
  crop_entry k image cmin cmax s = (s', Ret cmax') ->
  rng s' = rng s /\
  (forall k', k' <> k -> sample s' !! k' = sample s !! k') /\
  (cmax' = cmax \/ exists c, cmax' = <[0%nat := c]> cmax) /\
  entry_cropped k image cmin cmax (sample s) (sample s').
Proof.
  unfold crop_entry, entry_cropped. intros H.
  apply M_bind_inv in H as (has & s1 & Hhas & H).
  unfold sample_has in Hhas. injection Hhas as <- <-.
  case_bool_decide as Hk.
  - destruct Hk as [v Hv]. rewrite Hv.
    step H as v' Hv'. rewrite Hv in Hv'. injection Hv' as <-.
    step H as arr ->%as_array_inv.
    destruct (decide (drop 1 (shape arr) = drop 1 (shape image))) as [Heq|Hne].
    + step H as c Hc. step H as cmax2 ->%setitem0_inv. step H as arr_t Hcrop.
      apply bind_set_inv, M_ret_inv in H as [<- ->].
      unfold shapeZ in Hc. change 0 with (Z.of_nat 0) in Hc.
      apply getitem_nat_inv in Hc. rewrite list_lookup_fmap in Hc.
      destruct (shape arr !! 0%nat) as [c0|] eqn:Hc0; [|done]. injection Hc as <-.
      simpl. split_and!; [done| |eauto|].
      * intros k' Hk'. by rewrite lookup_insert_ne.
      * exists arr. split; [done|]. rewrite decide_True by done.
        exists c0, arr_t. by rewrite lookup_insert_eq.
    + apply M_ret_inv in H as [<- ->]. split_and!; auto.
      exists arr. split; [done|]. by rewrite decide_False.
  - apply M_ret_inv in H as [<- ->]. split_and!; auto.
    destruct (sample s !! k) eqn:E; [|done]. destruct Hk. eauto.
Qed.

Lemma store_and_crop_inv key image pmin cmaxs s s' :
  key <> "image" -> key <> "label" -> key <> "weight" ->
  store_and_crop key image pmin cmaxs s = (s', Ret tt) ->
  exists cmin0 image_t,
    pmin = PList cmin0 /\
    let cmin := 0 :: cmin0 in
    let cmax := take 1 (shapeZ image) ++ cmaxs in
    crop_ND_volume_with_bounding_box image cmin cmax = Ret image_t /\
    sample s' !! key = Some (OStr (json_dumps_triple (shapeZ image) cmin cmax)) /\
    sample s' !! "image" = Some (OArr image_t) /\
    entry_cropped "label" image cmin cmax (sample s) (sample s') /\
    entry_cropped "weight" image cmin cmax (sample s) (sample s') /\
    rng s' = rng s.
Proof.
  intros Hk1 Hk2 Hk3 H. unfold store_and_crop in H.
  step H as cmin Hcmin.
  destruct pmin as [| |cmin0|]; try discriminate. injection Hcmin as <-.
  apply bind_set_inv in H. step H as image_t Hcrop. apply bind_set_inv in H.
  apply M_bind_inv in H as (cmax1 & s1 & (Hg1 & Hf1 & Hm1 & He1)%crop_entry_inv & H1).
  apply M_bind_inv in H1 as (cmax2 & s2 & (Hg2 & Hf2 & Hm2 & He2)%crop_entry_inv & H2).
  apply M_ret_inv in H2 as [_ ->].
  simpl in *.
  exists cmin0, image_t. split_and!; try done.
  - rewrite Hf2, Hf1 by done. rewrite lookup_insert_ne by done.
    by rewrite lookup_insert_eq.
  - rewrite Hf2, Hf1 by done. by rewrite lookup_insert_eq.
  - unfold entry_cropped in *.
    rewrite !lookup_insert_ne in He1 by done.
    rewrite Hf2 by done. done.
  - unfold entry_cropped in *.
    rewrite Hf1 in He2 by done. rewrite !lookup_insert_ne in He2 by done.
    destruct (sample s !! "weight") as [v|]; [|done].
    destruct He2 as (arr & -> & He2). exists arr. split; [done|].
    destruct (decide _); [|done].
    destruct He2 as (c & arr_t & Hc & Hcrop' & Hl). exists c, arr_t.
    split_and!; try done.
    destruct Hm1 as [->|[c' ->]]; [done|].
    by rewrite list_insert_insert_eq in Hcrop'.
  - congruence.
Qed.

(** ** The random source *)

Lemma randint_inv a b s s' r :
  randint a b s = (s', Ret r) -> a <= r <= b /\ sample s' = sample s.
Proof.
  unfold randint. destruct (b <? a) eqn:Hab; [discriminate|].
  apply Z.ltb_ge in Hab. destruct (next_draw (rng s)) as [n g].
  intros [= <- <-]. split; [|done].
  pose proof (Z.mod_pos_bound (Z.of_nat n) (b - a + 1) ltac:(lia)). lia.
Qed.

(** every value of the range is the result of some draw *)
Lemma randint_complete a b r smp g :
  a <= r <= b ->
  (randint a b {| sample := smp; rng := Z.to_nat (r - a) :: g |}).2 = Ret r.
Proof.
  intros Hr. unfold randint. simpl.
  destruct (b <? a) eqn:Hab; [apply Z.ltb_lt in Hab; lia|]. simpl.
  rewrite Z2Nat.id by lia. rewrite Z.mod_small by lia. f_equal. lia.
Qed.

Lemma random_inv s s' u :
  random s = (s', Ret u) -> (0 <= u)%Q /\ (u < 1)%Q /\ sample s' = sample s.
Proof.
  unfold random. destruct (next_draw (rng s)) as [n g].
  destruct (next_draw g) as [d g']. intros [= <- <-].
  pose proof (Nat.mod_upper_bound n (S d) ltac:(lia)) as Hlt.
  unfold Qle, Qlt. simpl. split_and!; [lia | | done].
  rewrite Z.mul_1_r, Z.mul_1_l.
  rewrite Zpos_P_of_succ_nat. lia.
Qed.

Lemma comprehensionM_inv {A B} (f : A -> M B) (P : A -> B -> Prop) :
  (forall x s s' y, f x s = (s', Ret y) -> sample s' = sample s /\ P x y) ->
  forall l s s' ys, comprehensionM f l s = (s', Ret ys) ->
    sample s' = sample s /\ Forall2 P l ys.
Proof.
  intros Hf. induction l as [|x r IH]; simpl; intros s s' ys H.
  - apply M_ret_inv in H as [<- ->]. split; [done | constructor].
  - apply M_bind_inv in H as (y & s1 & [Hs1 Hy]%Hf & H1).
    apply M_bind_inv in H1 as (ys' & s2 & [Hs2 Hys]%IH & H2).
    apply M_ret_inv in H2 as [<- ->]. split; [congruence | by constructor].
Qed.

(** ** [CropWithBoundingBox.__call__] *)

Lemma items_py_len p n : py_len p = Ret n ->
  exists l, items p = Ret l /\ n = Z.of_nat (length l).
Proof. unfold py_len. intros H. step H as l Hl. injection H as <-. eauto. Qed.

Lemma py_getitem_nat_inv p l (i : nat) x :
  items p = Ret l -> py_getitem p (Z.of_nat i) = Ret x -> l !! i = Some x.
Proof.
  unfold py_getitem. intros -> H. simpl in H. by apply getitem_nat_inv.
Qed.

Lemma crop_call_inv self s s' :
  CropWithBoundingBox.call self s = (s', Ret tt) ->
  exists image bb cc,
    sample s !! "image" = Some (OArr image) /\
    get_ND_bounding_box image = Ret bb /\
    CropWithBoundingBox.bounds self (Z.of_nat (length (shape image)) - 1)
      (drop 1 bb.1) (drop 1 bb.2) = Ret cc /\
    store_and_crop CropWithBoundingBox.Param image cc.1 cc.2 s = (s', Ret tt).
Proof.
  unfold CropWithBoundingBox.call. intros H.
  step H as v Hv. step H as image ->%as_array_inv.
  step H as bb Hbb. step H as cc Hcc.
  unfold shapeZ in Hcc. rewrite length_fmap in Hcc.
  exists image, bb, cc. done.
Qed.

(** the centered case: [start] is None and [output_size] is given *)
Lemma bounds_centered self dim bb_min bb_max pmin cmax :
  CropWithBoundingBox.start self = PNone ->
  CropWithBoundingBox.output_size self <> PNone ->
  CropWithBoundingBox.bounds self dim bb_min bb_max = Ret (pmin, cmax) ->
  exists outs cmin,
    items (CropWithBoundingBox.output_size self) = Ret outs /\
    Z.of_nat (length outs) = dim /\ pmin = PList cmin /\
    length cmin = Z.to_nat dim /\ length cmax = Z.to_nat dim /\
    forall i : nat, Z.of_nat i < dim ->
      exists a b o, bb_min !! i = Some a /\ bb_max !! i = Some b /\
        outs !! i = Some o /\
        cmin !! i = Some (Z.max 0 (int_half (a + b + 1) - int_half o)) /\
        cmax !! i = Some (Z.max 0 (int_half (a + b + 1) - int_half o) + o).
Proof.
  intros Hs Ho H. unfold CropWithBoundingBox.bounds in H. rewrite Hs in H. simpl in H.
  destruct (is_none (CropWithBoundingBox.output_size self)) eqn:Hn.
  { by destruct (CropWithBoundingBox.output_size self). }
  step H as n Hn'. apply items_py_len in Hn' as (outs & Houts & ->).
  step H as u Hu. apply py_assert_inv, Z.eqb_eq in Hu.
  step H as c1 [Hl1 H1]%comprehension_range.
  step H as c2 [Hl2 H2]%comprehension_range.
  step H as c3 [Hl3 H3]%comprehension_range.
  injection H as <- <-. exists outs, c2. split_and!; try done.
  intros i Hi.
  destruct (H1 i Hi) as (y1 & Hy1 & E1). step E1 as a Ha. step E1 as b Hb.
  step E1 as o Hoi. injection E1 as <-.
  destruct (H2 i Hi) as (y2 & Hy2 & E2). step E2 as c Hc. injection E2 as <-.
  destruct (H3 i Hi) as (y3 & Hy3 & E3). step E3 as c' Hc'. step E3 as o' Ho'.
  injection E3 as <-.
  apply getitem_nat_inv in Ha, Hb, Hc, Hc'.
  apply (py_getitem_nat_inv _ _ _ _ Houts) in Hoi, Ho'.
  exists a, b, o. simplify_eq. done.
Qed.

(** an explicit [start] and an explicit [output_size] *)
Lemma bounds_explicit self dim bb_min bb_max pmin cmax :
  CropWithBoundingBox.start self <> PNone ->
  CropWithBoundingBox.output_size self <> PNone ->
  CropWithBoundingBox.bounds self dim bb_min bb_max = Ret (pmin, cmax) ->
  exists starts,
    items (CropWithBoundingBox.start self) = Ret starts /\
    Z.of_nat (length starts) = dim /\ pmin = CropWithBoundingBox.start self /\
    length cmax = Z.to_nat dim /\
    forall i : nat, Z.of_nat i < dim ->
      exists outs c o,
        items (CropWithBoundingBox.output_size self) = Ret outs /\
        starts !! i = Some c /\ outs !! i = Some o /\
        cmax !! i = Some (c + o).
Proof.
  intros Hs Ho H. unfold CropWithBoundingBox.bounds in H.
  destruct (is_none (CropWithBoundingBox.start self)) eqn:Hn.
  { by destruct (CropWithBoundingBox.start self). }
  destruct (is_none (CropWithBoundingBox.output_size self)) eqn:Hn2.
  { by destruct (CropWithBoundingBox.output_size self). }
  step H as n Hn'. apply items_py_len in Hn' as (starts & Hstarts & ->).
  step H as u Hu. apply py_assert_inv, Z.eqb_eq in Hu.
  step H as c3 [Hl3 H3]%comprehension_range.
  injection H as <- <-.
  exists starts. split_and!; try done.
  intros i Hi. destruct (H3 i Hi) as (y3 & Hy3 & E3).
  step E3 as c Hc. step E3 as o Ho'. injection E3 as <-.
  unfold py_getitem in Ho'. step Ho' as outs Houts.
  apply getitem_nat_inv in Ho'.
  apply (py_getitem_nat_inv _ _ _ _ Hstarts) in Hc. eauto 10.
Qed.

(** an explicit [start] without [output_size]: line 48 takes [len] of None *)
Lemma bounds_start_only self dim bb_min bb_max :
  CropWithBoundingBox.start self <> PNone ->
  CropWithBoundingBox.output_size self = PNone ->
  exists e, CropWithBoundingBox.bounds self dim bb_min bb_max = Raise e /\
    (e = TypeError \/ e = AssertionError).
Proof.
  intros Hs Ho. unfold CropWithBoundingBox.bounds. rewrite Ho.
  destruct (CropWithBoundingBox.start self) as [|z|l|l]; try done; simpl; eauto.
  - unfold py_assert. destruct (_ =? _); simpl; eauto.
  - unfold py_assert. destruct (_ =? _); simpl; eauto.
Qed.

Lemma bounds_box self dim bb_min bb_max :
  CropWithBoundingBox.start self = PNone ->
  CropWithBoundingBox.output_size self = PNone ->
  CropWithBoundingBox.bounds self dim bb_min bb_max = Ret (PList bb_min, bb_max).
Proof. intros Hs Ho. unfold CropWithBoundingBox.bounds. by rewrite Hs, Ho. Qed.

(** ** [RandomCrop.__call__] *)

(** the foreground-focused offsets are clamped into the image *)
Lemma fg_crop_min_inv self input_shape dim s s' cmin :
  RandomCrop.fg_crop_min self input_shape dim s = (s', Ret cmin) ->
  sample s' = sample s /\ length cmin = Z.to_nat dim /\
  forall i : nat, Z.of_nat i < dim ->
    exists c n outs o, cmin !! i = Some c /\ input_shape !! S i = Some n /\
      items (RandomCrop.output_size self) = Ret outs /\ outs !! i = Some o /\
      (0 <= n - o -> 0 <= c <= n - o).
Proof.
  unfold RandomCrop.fg_crop_min. intros H.
  step H as lv Hlv. step H as label ->%as_array_inv. step H as labs Hlabs.
  step H as bb Hbb.
  apply M_bind_inv in H as (c1 & s1 & Hc1 & H).
  apply (comprehensionM_inv _ (fun _ _ => True)) in Hc1 as [Hs1 _].
  2:{ clear. intros i s s' y H. step H as a Ha. step H as b Hb.
      apply M_bind_inv in H as (r & s1 & [_ Hs]%randint_inv & H).
      step H as o Ho. apply M_ret_inv in H as [_ ->]. done. }
  apply lift_inv in H as [[Hl Hc]%comprehension_range ->].
  split_and!; [done..|].
  intros i Hi. destruct (Hc i Hi) as (c & Hci & E).
  step E as c' Hc'. step E as n Hn. step E as o Ho. injection E as <-.
  apply getitem_nat_inv in Hc'. apply getitem_succ_nat_inv in Hn.
  unfold py_getitem in Ho. step Ho as outs Houts. apply getitem_nat_inv in Ho.
  exists (Z.min c' (n - o)), n, outs, o. split_and!; try done.
  rewrite list_lookup_fmap in Hc'.
  destruct (c1 !! i) as [c0|]; [|done]. injection Hc' as <-. lia.
Qed.

(** the statements of a successful [__call__], in order *)
Lemma random_call_steps self s s' :
  RandomCrop.call self s = (s', Ret tt) ->
  exists image outs margin cmin0 focus cmin cmax s1 s2 s3,
    sample s !! "image" = Some (OArr image) /\
    items (RandomCrop.output_size self) = Ret outs /\
    S (length outs) = length (shape image) /\
    comprehension (fun i =>
        n ← getitem (shapeZ image) (i + 1);
        o ← py_getitem (RandomCrop.output_size self) i;
        Ret (n - o)) (range (Z.of_nat (length outs))) = Ret margin /\
    comprehensionM (fun item => randint 0 item) margin s = (s1, Ret cmin0) /\
    (if RandomCrop.fg_focus self
     then u ← random; mret (Qltb u (RandomCrop.fg_ratio self))
     else mret false) s1 = (s2, Ret focus) /\
    (if focus
     then RandomCrop.fg_crop_min self (shapeZ image) (Z.of_nat (length outs))
     else mret cmin0) s2 = (s3, Ret cmin) /\
    comprehension (fun i =>
        c ← getitem cmin i;
        o ← py_getitem (RandomCrop.output_size self) i;
        Ret (c + o)) (range (Z.of_nat (length outs))) = Ret cmax /\
    store_and_crop RandomCrop.Param image (PList cmin) cmax s3 = (s', Ret tt).
Proof.
  unfold RandomCrop.call. intros H.
  step H as v Hv. step H as image ->%as_array_inv.
  step H as n Hn. apply items_py_len in Hn as (outs & Houts & ->).
  step H as u Hu. apply py_assert_inv, Z.eqb_eq in Hu.
  assert (Z.of_nat (length (shapeZ image)) - 1 = Z.of_nat (length outs)) as Hdim
    by done.
  rewrite Hdim in H. unfold shapeZ in Hu. rewrite length_fmap in Hu.
  step H as margin Hm.
  apply M_bind_inv in H as (cmin0 & s1 & Hc0 & H).
  apply M_bind_inv in H as (focus & s2 & Hfocus & H).
  apply M_bind_inv in H as (cmin & s3 & Hcmin & H).
  step H as cmax Hx.
  exists image, outs, margin, cmin0, focus, cmin, cmax, s1, s2, s3.
  split_and!; try done. lia.
Qed.

(** the margins that [randint] accepted are not negative *)
Lemma margins_nonneg self image outs margin s s1 cmin0 :
  items (RandomCrop.output_size self) = Ret outs ->
  comprehension (fun i =>
      n ← getitem (shapeZ image) (i + 1);
      o ← py_getitem (RandomCrop.output_size self) i;
      Ret (n - o)) (range (Z.of_nat (length outs))) = Ret margin ->
  comprehensionM (fun item => randint 0 item) margin s = (s1, Ret cmin0) ->
  sample s1 = sample s /\ length cmin0 = length outs /\
  forall i : nat, (i < length outs)%nat ->
    exists c n o, cmin0 !! i = Some c /\ shape image !! S i = Some n /\
      outs !! i = Some o /\ 0 <= c <= Z.of_nat n - o.
Proof.
  intros Houts [Hlm Hm]%comprehension_range Hc0.
  apply (comprehensionM_inv _ (fun m c => 0 <= c <= m)) in Hc0 as [Hs1 Hc0].
  2:{ intros m s0 s0' c [? ?]%randint_inv. done. }
  pose proof (Forall2_length _ _ _ Hc0) as Hl. rewrite Nat2Z.id in Hlm.
  split_and!; [done|lia|].
  intros i Hi. destruct (Hm i ltac:(lia)) as (m & Hmi & E).
  step E as n' Hn'. step E as o Ho. injection E as <-.
  apply getitem_succ_nat_inv in Hn'.
  apply (py_getitem_nat_inv _ _ _ _ Houts) in Ho.
  unfold shapeZ in Hn'. rewrite list_lookup_fmap in Hn'.
  destruct (shape image !! S i) as [n|]; [|done]. injection Hn' as <-.
  destruct (Forall2_lookup_l _ _ _ _ _ Hc0 Hmi) as (c0 & Hc0i & Hb).
  eauto 10.
Qed.

Lemma focus_decision_inv self s s' focus :
  (if RandomCrop.fg_focus self
   then u ← random; mret (Qltb u (RandomCrop.fg_ratio self))
   else mret false) s = (s', Ret focus) ->
  sample s' = sample s /\
  (RandomCrop.fg_focus self = true -> (1 <= RandomCrop.fg_ratio self)%Q ->
   focus = true).
Proof.
  intros H. destruct (RandomCrop.fg_focus self).
  - apply M_bind_inv in H as (u & s3 & (_ & Hu & Hs3)%random_inv & Hf).
    apply M_ret_inv in Hf as [<- ->]. split; [done|]. intros _ Hr.
    unfold Qltb. destruct (Qle_bool _ _) eqn:E; [|done].
    apply Qle_bool_iff in E.
    exfalso. apply (Qlt_irrefl u).
    eapply Qlt_le_trans; [exact Hu|]. by eapply Qle_trans.
  - apply M_ret_inv in H as [<- ->]. done.
Qed.

Lemma random_call_inv self s s' :
  RandomCrop.call self s = (s', Ret tt) ->
  exists image outs cmin cmax s1,
    sample s !! "image" = Some (OArr image) /\
    items (RandomCrop.output_size self) = Ret outs /\
    S (length outs) = length (shape image) /\
    sample s1 = sample s /\
    store_and_crop RandomCrop.Param image (PList cmin) cmax s1 = (s', Ret tt) /\
    length cmin = length outs /\ length cmax = length outs /\
    forall (i : nat) o, outs !! i = Some o ->
      exists c n, cmin !! i = Some c /\ shape image !! S i = Some n /\
        0 <= c <= Z.of_nat n - o /\ cmax !! i = Some (c + o).
Proof.
  intros (image & outs & margin & cmin0 & focus & cmin & cmax & s1 & s2 & s3
          & Himg & Houts & Hlen & Hm & Hc0 & Hfocus & Hcmin & Hx & Hstore)%random_call_steps.
  destruct (margins_nonneg _ _ _ _ _ _ _ Houts Hm Hc0) as (Hs1 & Hl0 & Hmargin).
  apply focus_decision_inv in Hfocus as [Hs2 _].
  apply comprehension_range in Hx as [Hlx Hx]. rewrite Nat2Z.id in Hlx.
  exists image, outs, cmin, cmax, s3.
  assert (sample s3 = sample s2 /\ length cmin = length outs /\
    forall i : nat, (i < length outs)%nat ->
      exists c n o, cmin !! i = Some c /\ shape image !! S i = Some n /\
        outs !! i = Some o /\ 0 <= c <= Z.of_nat n - o) as (Hs3 & Hlc & Hc).
  { destruct focus.
    - apply fg_crop_min_inv in Hcmin as (Hs3 & Hlc & Hc).
      rewrite Nat2Z.id in Hlc. split_and!; [done..|].
      intros i Hi.
      destruct (Hc i ltac:(lia)) as (c & n' & outs' & o & Hci & Hn' & Houts' & Ho & Hb).
      destruct (Hmargin i Hi) as (c0 & n & o' & _ & Hn & Ho' & Hr).
      rewrite Houts in Houts'. injection Houts' as <-.
      unfold shapeZ in Hn'. rewrite list_lookup_fmap, Hn in Hn'. injection Hn' as <-.
      rewrite Ho in Ho'. injection Ho' as <-.
      exists c, n, o. split_and!; try done; apply Hb; lia.
    - apply M_ret_inv in Hcmin as [<- ->]. done. }
  split_and!; try done; try congruence.
  intros i o Ho. pose proof (lookup_lt_Some _ _ _ Ho) as Hi.
  destruct (Hc i Hi) as (c & n & o' & Hci & Hn & Ho' & Hb).
  rewrite Ho in Ho'. injection Ho' as <-.
  destruct (Hx i ltac:(lia)) as (y & Hy & E).
  step E as c' Hc'. step E as o' Ho'. injection E as <-.
  apply getitem_nat_inv in Hc'. apply (py_getitem_nat_inv _ _ _ _ Houts) in Ho'.
  simplify_eq. eauto 10.
Qed.

(** ** What a successful forward pass leaves behind *)

Lemma crop_inv volume lo hi out :
  crop_ND_volume_with_bounding_box volume lo hi = Ret out ->
  length lo = length (shape volume) /\ length hi = length (shape volume) /\
  shape out = region_shape (shape volume) lo hi.
Proof.
  unfold crop_ND_volume_with_bounding_box, same_rank.
  destruct (_ && _) eqn:E; [|discriminate]. intros [= <-].
  apply andb_prop in E as [?%Nat.eqb_eq ?%Nat.eqb_eq]. done.
Qed.

Lemma forward_inv tr s s' :
  forward tr s = (s', Ret tt) ->
  exists image c cmin cmax image_t,
    sample s !! "image" = Some (OArr image) /\
    shape image !! 0%nat = Some c /\
    length cmin = length (shape image) /\ length cmax = length (shape image) /\
    cmin !! 0%nat = Some 0 /\ cmax !! 0%nat = Some (Z.of_nat c) /\
    sample s' !! param_key tr
      = Some (OStr (json_dumps_triple (shapeZ image) cmin cmax)) /\
    crop_ND_volume_with_bounding_box image cmin cmax = Ret image_t /\
    sample s' !! "image" = Some (OArr image_t) /\
    entry_cropped "label" image cmin cmax (sample s) (sample s') /\
    entry_cropped "weight" image cmin cmax (sample s) (sample s') /\
    spatial_bounds tr image (drop 1 cmin) (drop 1 cmax).
Proof.
  intros H.
  assert (exists image pmin cmaxs s1,
    sample s !! "image" = Some (OArr image) /\ sample s1 = sample s /\
    store_and_crop (param_key tr) image pmin cmaxs s1 = (s', Ret tt) /\
    forall cmin0, pmin = PList cmin0 -> spatial_bounds tr image cmin0 cmaxs)
    as (image & pmin & cmaxs & s1 & Himg & Hs1 & Hstore & Hsp).
  { destruct tr as [self|self]; simpl in H.
    - apply crop_call_inv in H as (image & bb & [pmin cmaxs] & Himg & Hbb & Hb & Hst).
      exists image, pmin, cmaxs, s. split_and!; try done.
      intros cmin0 ->. simpl. eauto.
    - apply random_call_inv in H
        as (image & outs & cmin & cmax & s1 & Himg & Ho & Hl & Hs1 & Hst & _ & _ & Hb).
      exists image, (PList cmin), cmax, s1. split_and!; try done.
      intros cmin0 [= <-]. simpl. eauto. }
  apply store_and_crop_inv in Hstore
    as (cmin0 & image_t & -> & Hcrop & Hkey & Himg' & Hlab & Hw & _);
    [|by destruct tr..].
  rewrite Hs1 in Hlab, Hw.
  destruct (crop_inv _ _ _ _ Hcrop) as (Hl1 & Hl2 & _).
  unfold shapeZ in *. destruct (shape image) as [|c shp] eqn:Hshape; [done|].
  simpl in *. exists image, c, (0 :: cmin0), (Z.of_nat c :: cmaxs), image_t.
  rewrite Hshape. split_and!; try done. simpl. auto.
Qed.

Lemma get_ND_bounding_box_nonneg volume bb :
  get_ND_bounding_box volume = Ret bb ->
  Forall (Z.le 0) bb.1 /\ Forall (Z.le 0) bb.2.
Proof.
  unfold get_ND_bounding_box. destruct (nonzero volume); [discriminate|].
  intros [= <-]. simpl. split; apply Forall_fmap, Forall_true; intros k; simpl; lia.
Qed.

(** ** Indices, masks and the bounding box of a single element *)

Lemma indices_in_shape shp q : q ∈ indices shp <-> in_shape q shp = true.
Proof.
  revert q. induction shp as [|n shp IH]; intros q; simpl.
  - rewrite list_elem_of_singleton. destruct q; simpl; naive_solver.
  - rewrite list_elem_of_bind. split.
    + intros (i & (q' & -> & Hq')%list_elem_of_fmap & Hi%elem_of_seq).
      apply andb_true_intro. split; [apply Nat.ltb_lt; lia | by apply IH].
    + destruct q as [|i q']; [done|]. intros [Hi%Nat.ltb_lt Hq']%andb_prop.
      exists i. split; [|apply elem_of_seq; lia].
      apply list_elem_of_fmap. exists q'. split; [done | by apply IH].
Qed.

Lemma in_shape_length q shp : in_shape q shp = true -> length q = length shp.
Proof.
  revert shp. induction q as [|i q IH]; intros [|n shp]; simpl; try done.
  intros [_ H]%andb_prop. f_equal. by apply IH.
Qed.

Lemma in_shape_lookup q shp (k : nat) x n :
  in_shape q shp = true -> q !! k = Some x -> shp !! k = Some n -> (x < n)%nat.
Proof.
  revert shp k. induction q as [|i q IH]; intros [|m shp] k; simpl; try done.
  intros [Hi%Nat.ltb_lt H]%andb_prop. destruct k as [|k]; simpl.
  - intros [= ->] [= ->]. done.
  - by apply IH.
Qed.

Lemma label_mask_data label labs q :
  data (label_mask label labs) q = if decide (data label q ∈ labs) then 1 else 0.
Proof.
  simpl. set (v := data label q).
  assert (forall m, (m = 0 \/ m = 1) ->
    fold_left (fun m v0 => Z.max m (if v =? v0 then 1 else 0)) labs m
    = if decide (m = 1 \/ v ∈ labs) then 1 else 0) as Hgen.
  { induction labs as [|l labs IH]; intros m Hm; simpl.
    - destruct (decide _) as [[->|H]|H]; [done|by apply elem_of_nil in H|].
      destruct Hm as [->| ->]; [done|]. destruct H. by left.
    - rewrite IH.
      2:{ destruct (v =? l); lia. }
      destruct (Z.eqb_spec v l) as [->|Hne].
      + rewrite decide_True by (left; lia).
        rewrite decide_True; [done|]. right. apply elem_of_cons. by left.
      + destruct (decide (Z.max m 0 = 1 \/ v ∈ labs)) as [H|H].
        * rewrite decide_True; [done|].
          destruct H as [H|H]; [left; lia | right; apply elem_of_cons; by right].
        * rewrite decide_False; [done|].
          intros [H'|H']; apply H; [left; lia|].
          apply elem_of_cons in H' as [?|?]; [done | by right]. }
  rewrite Hgen by (by left).
  destruct (decide (0 = 1 \/ v ∈ labs)) as [[?|?]|?]; destruct (decide (v ∈ labs));
    try done. destruct n. by right.
Qed.

Lemma np_sum_pos a p :
  (forall q, 0 <= data a q) -> in_shape p (shape a) = true -> 0 < data a p ->
  0 < np_sum a.
Proof.
  intros Hnn Hp%indices_in_shape Hpos. unfold np_sum.
  induction (indices (shape a)) as [|q l IH]; [by apply elem_of_nil in Hp|].
  assert (0 <= foldr Z.add 0 (data a <$> l)) as Hrest.
  { clear -Hnn. induction l as [|q' l' IH']; [done|].
    rewrite fmap_cons. cbn [foldr]. specialize (Hnn q'). lia. }
  rewrite fmap_cons. cbn [foldr]. apply elem_of_cons in Hp as [<-|Hp].
  - lia.
  - specialize (IH Hp). specialize (Hnn q). lia.
Qed.

Lemma axis_min_all_equal nz p k :
  nz <> [] -> Forall (eq p) nz -> axis_min nz k = nth k p 0%nat.
Proof.
  unfold axis_min. destruct nz as [|q nz]; [done|]. intros _ H.
  apply Forall_cons in H as [<- H]. simpl.
  induction H as [|q nz <- _ IH]; simpl; [done|]. rewrite IH. lia.
Qed.

Lemma axis_max_all_equal nz p k :
  nz <> [] -> Forall (eq p) nz -> axis_max nz k = nth k p 0%nat.
Proof.
  unfold axis_max. destruct nz as [|q nz]; [done|]. intros _ H.
  apply Forall_cons in H as [<- H]. simpl.
  induction H as [|q nz <- _ IH]; simpl; [lia|]. rewrite IH. lia.
Qed.

(** the bounding box of an array with exactly one non-zero element [p] *)
Lemma bounding_box_single volume p :
  in_shape p (shape volume) = true -> data volume p <> 0 ->
  (forall q, in_shape q (shape volume) = true -> data volume q <> 0 -> q = p) ->
  exists bb, get_ND_bounding_box volume = Ret bb /\
    length bb.1 = length (shape volume) /\
    forall (k : nat) x, p !! k = Some x ->
      bb.1 !! k = Some (Z.of_nat x) /\ bb.2 !! k = Some (Z.of_nat x + 1).
Proof.
  intros Hp Hnz Huniq. unfold get_ND_bounding_box.
  assert (p ∈ nonzero volume) as Hin.
  { unfold nonzero. apply list_elem_of_filter. split; [done|by apply indices_in_shape]. }
  assert (Forall (eq p) (nonzero volume)) as Hall.
  { apply Forall_forall. intros q [Hq1 Hq2%indices_in_shape]%list_elem_of_filter.
    symmetry. by apply Huniq. }
  destruct (nonzero volume) as [|q0 nz] eqn:Hnzl; [by apply elem_of_nil in Hin|].
  eexists. split; [reflexivity|]. simpl.
  split; [by rewrite length_fmap, length_seq|]. intros k x Hk.
  pose proof (lookup_lt_Some _ _ _ Hk) as Hlt.
  rewrite (in_shape_length _ _ Hp) in Hlt.
  rewrite !list_lookup_fmap, lookup_seq_lt by done. simpl.
  rewrite (axis_min_all_equal _ p), (axis_max_all_equal _ p) by done.
  by rewrite (nth_lookup_Some _ _ _ _ Hk).
Qed.

(** ** The foreground-focused crop around a single labelled voxel *)

Lemma fg_crop_min_single self input_shape dim s s' cmin label labs p :
  RandomCrop.fg_crop_min self input_shape dim s = (s', Ret cmin) ->
  sample s !! "label" = Some (OArr label) ->
  items (RandomCrop.mask_label self) = Ret labs ->
  in_shape p (shape label) = true -> data label p ∈ labs ->
  (forall q, in_shape q (shape label) = true -> data label q ∈ labs -> q = p) ->
  forall i : nat, Z.of_nat i < dim ->
    exists x r n o outs,
      p !! S i = Some x /\ Z.of_nat x <= r <= Z.of_nat x + 1 /\
      input_shape !! S i = Some n /\
      items (RandomCrop.output_size self) = Ret outs /\ outs !! i = Some o /\
      cmin !! i = Some (Z.min (Z.max 0 (r - int_half o)) (n - o)).
Proof.
  unfold RandomCrop.fg_crop_min. intros H Hlab Hlabs Hp Hpin Huniq.
  step H as lv Hlv. rewrite Hlab in Hlv. injection Hlv as <-.
  step H as label' [= <-]%as_array_inv. step H as labs' Hlabs'.
  rewrite Hlabs in Hlabs'. injection Hlabs' as <-.
  set (mask := label_mask label labs) in *.
  assert (forall q, data mask q = if decide (data label q ∈ labs) then 1 else 0)
    as Hmask by apply label_mask_data.
  assert (0 < np_sum mask) as Hsum.
  { apply (np_sum_pos _ p); [|done|].
    - intros q. rewrite Hmask. by destruct (decide _).
    - rewrite Hmask. by rewrite decide_True. }
  destruct (bounding_box_single mask p) as (bb' & Hbb' & Hlen & Hbox).
  { done. }
  { rewrite Hmask. by rewrite decide_True. }
  { intros q Hq Hnz. apply Huniq; [done|]. rewrite Hmask in Hnz.
    by destruct (decide (data label q ∈ labs)). }
  step H as bb Hbb.
  rewrite (proj2 (Z.eqb_neq _ _)) in Hbb by lia.
  rewrite Hbb' in Hbb. injection Hbb as <-.
  apply M_bind_inv in H as (c1 & s1 & Hc1 & H).
  apply (comprehensionM_inv _ (fun (i : Z) y => forall k : nat, i = Z.of_nat k ->
      exists x r o outs, p !! S k = Some x /\ Z.of_nat x <= r <= Z.of_nat x + 1 /\
        items (RandomCrop.output_size self) = Ret outs /\ outs !! k = Some o /\
        y = r - int_half o)) in Hc1 as [Hs1 Hc1].
  2:{ clear -Hbox Hlen Hp. intros i s s' y H.
      step H as a Ha. step H as b Hb.
      apply M_bind_inv in H as (r & s1 & [Hr Hs]%randint_inv & H').
      step H' as o Ho. apply M_ret_inv in H' as [<- ->]. split; [done|].
      intros k ->. apply getitem_nat_inv in Ha, Hb. rewrite lookup_drop in Ha, Hb. simpl in *.
      unfold py_getitem in Ho. step Ho as outs Houts. apply getitem_nat_inv in Ho.
      pose proof (lookup_lt_Some _ _ _ Ha) as Hlt.
      rewrite Hlen, <-(in_shape_length _ _ Hp) in Hlt.
      destruct (lookup_lt_is_Some_2 p (S k) Hlt) as [x Hx].
      destruct (Hbox _ _ Hx) as [Ha' Hb'].
      rewrite Ha in Ha'. rewrite Hb in Hb'. injection Ha' as ->. injection Hb' as ->.
      eauto 10. }
  apply lift_inv in H as [[Hl Hc]%comprehension_range ->].
  intros i Hi. destruct (Hc i Hi) as (c & Hci & E).
  step E as c' Hc'. step E as n Hn. step E as o Ho. injection E as <-.
  apply getitem_nat_inv in Hc'. apply getitem_succ_nat_inv in Hn.
  unfold py_getitem in Ho. step Ho as outs Houts. apply getitem_nat_inv in Ho.
  rewrite list_lookup_fmap in Hc'.
  destruct (c1 !! i) as [c0|] eqn:Hc0; [|done]. injection Hc' as <-.
  pose proof (range_lookup dim i Hi) as Hri.
  destruct (Forall2_lookup_l _ _ _ _ _ Hc1 Hri) as (c0' & Hc0' & HP).
  rewrite Hc0 in Hc0'. injection Hc0' as <-.
  destruct (HP i eq_refl) as (x & r & o' & outs' & Hx & Hr & Houts' & Ho' & ->).
  rewrite Houts in Houts'. injection Houts' as <-.
  rewrite Ho in Ho'. injection Ho' as <-.
  exists x, r, n, o, outs. done.
Qed.

(** ** The round trip through the inverse *)

Lemma in_region_in_box shp lo hi idx :
  length lo = length shp -> length hi = length shp ->
  in_shape idx shp = true ->
  in_region shp lo hi idx = in_box lo hi idx.
Proof.
  revert lo hi idx. induction shp as [|n shp IH]; intros [|l lo] [|h hi] [|i idx];
    simpl; try done.
  intros [= Hl] [= Hh] [Hi%Nat.ltb_lt Hidx]%andb_prop.
  rewrite IH by done. f_equal.
  unfold slice_start, slice_len, slice_bound.
  destruct (Z.leb_spec l (Z.of_nat i)), (Z.ltb_spec (Z.of_nat i) h); simpl;
    [apply andb_true_intro; split
    |apply andb_false_intro2|apply andb_false_intro1|apply andb_false_intro1];
    first [apply Nat.leb_le | apply Nat.ltb_lt | apply Nat.leb_gt | apply Nat.ltb_ge];
    lia.
Qed.

Lemma region_restore shp lo hi idx :
  in_region shp lo hi idx = true ->
  zip_with Nat.add (region_starts shp lo) (zip_with Nat.sub idx (region_starts shp lo))
  = idx.
Proof.
  revert lo hi idx. induction shp as [|n shp IH]; intros [|l lo] [|h hi] [|i idx];
    simpl; try done.
  intros [[Hi%Nat.leb_le _]%andb_prop Hidx]%andb_prop.
  f_equal; [lia | by eapply IH].
Qed.

Lemma slice_len_full n : slice_len n 0 (Z.of_nat n) = n.
Proof. unfold slice_len, slice_bound. lia. Qed.

Lemma np_zeros_of_shape shp :
  np_zeros (Z.of_nat <$> shp) = Ret {| shape := shp; data := fun _ => 0 |}.
Proof.
  unfold np_zeros.
  assert (forallb (Z.leb 0) (Z.of_nat <$> shp) = true) as ->.
  { apply forallb_forall. intros x (n & <- & _)%in_map_iff. apply Z.leb_le. lia. }
  do 2 f_equal. induction shp as [|n shp IH]; [done|].
  rewrite !fmap_cons, Nat2Z.id. by f_equal.
Qed.

Lemma as_ints_cons2 a b l :
  as_ints (JInt a :: JInt b :: (JInt <$> l)) = Ret (a :: b :: l).
Proof. exact (as_ints_JInt (a :: b :: l)). Qed.

Lemma outcome_ret_bind {A B} (a : A) (f : A -> outcome B) : Ret a ≫= f = f a.
Proof. done. Qed.

(** [reinsert] on a stored geometry and a prediction with batch and channel
    axes [b0], [c0] *)
Lemma reinsert_arrays shp lo hi p b0 c0 rest :
  shape p = b0 :: c0 :: rest ->
  reinsert (JArr (JInt <$> shp)) (JArr (JInt <$> lo)) (JArr (JInt <$> hi)) (OArr p)
  = output ← np_zeros (Z.of_nat b0 :: Z.of_nat c0 :: drop 1 shp);
    out ← set_ND_volume_roi_with_bounding_box_range output
            (0 :: 0 :: drop 1 lo) (Z.of_nat b0 :: Z.of_nat c0 :: drop 1 hi) p;
    Ret (JArr (JInt <$> Z.of_nat b0 :: Z.of_nat c0 :: drop 1 shp),
         JArr (JInt <$> 0 :: 0 :: drop 1 lo),
         JArr (JInt <$> Z.of_nat b0 :: Z.of_nat c0 :: drop 1 hi), out).
Proof.
  intros Hp. unfold reinsert. cbn [as_array]. rewrite outcome_ret_bind.
  unfold shapeZ. rewrite Hp.
  cbn [json_from1 fmap list_fmap take app].
  rewrite take_0. cbn [fmap list_fmap app].
  rewrite !outcome_ret_bind, <-!fmap_drop.
  rewrite as_ints_cons2, outcome_ret_bind.
  destruct (np_zeros _) as [output|e]; [|done].
  rewrite !outcome_ret_bind, as_ints_cons2, !outcome_ret_bind, as_ints_cons2.
  by rewrite outcome_ret_bind.
Qed.

(** reinserting the cropped image, with a batch axis in front, under the
    geometry that the forward pass has stored *)
Lemma reinsert_cropped image c sp cmin cmax image_t :
  shape image = c :: sp ->
  cmin !! 0%nat = Some 0 -> cmax !! 0%nat = Some (Z.of_nat c) ->
  crop_ND_volume_with_bounding_box image cmin cmax = Ret image_t ->
  exists r, reinsert (JArr (JInt <$> shapeZ image)) (JArr (JInt <$> cmin))
              (JArr (JInt <$> cmax)) (OArr (with_batch_axis image_t)) = Ret r /\
    shape r.2 = 1%nat :: shape image /\
    forall b idx, in_shape (b :: idx) (1%nat :: shape image) = true ->
      data r.2 (b :: idx) = if in_box cmin cmax idx then data image idx else 0.
Proof.
  intros Hshape Hc0 Hc1 Hcrop.
  destruct (crop_inv _ _ _ _ Hcrop) as (Hl1 & Hl2 & Hst).
  unfold crop_ND_volume_with_bounding_box in Hcrop.
  destruct (same_rank _ _ _); [|discriminate]. injection Hcrop as <-.
  destruct cmin as [|x cmin']; [done|]. destruct cmax as [|y cmax']; [done|].
  injection Hc0 as ->. injection Hc1 as ->.
  rewrite Hshape in *. simpl in Hl1, Hl2.
  rewrite (reinsert_arrays _ _ _ _ 1%nat c (region_shape sp cmin' cmax')).
  2:{ simpl. by rewrite slice_len_full. }
  unfold shapeZ. rewrite Hshape.
  change (drop 1 (Z.of_nat <$> c :: sp)) with (Z.of_nat <$> sp).
  change (drop 1 (0 :: cmin')) with cmin'.
  change (drop 1 (Z.of_nat c :: cmax')) with cmax'.
  rewrite (np_zeros_of_shape (1%nat :: c :: sp) : np_zeros (_ :: _ :: (_ <$> sp)) = _).
  rewrite outcome_ret_bind.
  unfold set_ND_volume_roi_with_bounding_box_range, same_rank.
  cbn [shape length region_shape with_batch_axis].
  assert (length cmin' = length sp) as -> by lia.
  assert (length cmax' = length sp) as -> by lia.
  rewrite !Nat.eqb_refl. cbn [andb].
  rewrite (slice_len_full 1), !slice_len_full.
  rewrite decide_True by done.
  eexists. split; [reflexivity|]. cbn [snd shape data]. split; [done|].
  intros b idx Hin. destruct idx as [|ch sidx]; [simpl in Hin; by rewrite andb_false_r in Hin|].
  simpl in Hin. apply andb_prop in Hin as [Hb%Nat.ltb_lt [Hch%Nat.ltb_lt Hs]%andb_prop].
  assert (b = 0%nat) as -> by lia.
  cbn [in_region in_box region_starts zip_with drop].
  rewrite <-(in_region_in_box sp) by (done || lia).
  unfold slice_start, slice_len, slice_bound.
  replace (Z.to_nat (Z.max 0 (Z.min 0 (Z.of_nat 1)))) with 0%nat by lia.
  replace (Z.to_nat (Z.max 0 (Z.min (Z.of_nat 1) (Z.of_nat 1)))) with 1%nat by lia.
  replace (Z.to_nat (Z.max 0 (Z.min 0 (Z.of_nat c)))) with 0%nat by lia.
  replace (Z.to_nat (Z.max 0 (Z.min (Z.of_nat c) (Z.of_nat c)))) with c by lia.
  simpl. rewrite (proj2 (Nat.ltb_lt _ _)) by lia.
  rewrite (proj2 (Z.ltb_lt _ _)) by lia.
  rewrite (proj2 (Z.leb_le 0 (Z.of_nat ch))) by lia. simpl.
  destruct (in_region sp cmin' cmax' sidx) eqn:Hreg; [|done].
  rewrite Nat.sub_0_r. by rewrite (region_restore _ _ _ _ Hreg).
Qed.
(** ** Statements that succeed, and boxes inside the array *)

Lemma bind_ret_eq {A B} (m : M A) (f : A -> M B) s s1 a :
  m s = (s1, Ret a) -> (m ≫= f) s = f a s1.
Proof. intros H. unfold mbind, M_bind. by rewrite H. Qed.

Lemma bind_raise_eq {A B} (m : M A) (f : A -> M B) s s1 e :
  m s = (s1, Raise e) -> (m ≫= f) s = (s1, Raise e).
Proof. intros H. unfold mbind, M_bind. by rewrite H. Qed.

Lemma bind_lift_eq {A B} (o : outcome A) (f : A -> M B) s a :
  o = Ret a -> (lift o ≫= f) s = f a s.
Proof. by intros ->. Qed.

Lemma bind_get_eq {B} k (f : pyobj -> M B) s v :
  sample s !! k = Some v -> (sample_get k ≫= f) s = f v s.
Proof. intros H. unfold mbind, M_bind, sample_get. by rewrite H. Qed.

Lemma as_ints_inv l zs : as_ints l = Ret zs -> l = JInt <$> zs.
Proof.
  intros H%comprehension_inv. induction H as [|j z l zs Hj _ IH]; [done|].
  destruct j; [|done]. injection Hj as ->. rewrite fmap_cons. by f_equal.
Qed.

Lemma json_ints_inv j zs : json_ints j = Ret zs -> j = JArr (JInt <$> zs).
Proof. destruct j; [done|]. simpl. by intros ->%as_ints_inv. Qed.

(** a parameter entry that reads back as three int lists *)
Lemma recorded_inv key s shp lo hi :
  recorded key s = Ret (shp, lo, hi) ->
  exists v, sample s !! key = Some v /\
    load_param v = Ret (JArr (JInt <$> shp), JArr (JInt <$> lo), JArr (JInt <$> hi)).
Proof.
  unfold recorded. destruct (sample s !! key) as [v|]; [|done]. intros H.
  step H as ps Hps. destruct ps as [[ja jb] jc]. simpl in H.
  step H as a ->%json_ints_inv. step H as b ->%json_ints_inv.
  step H as c ->%json_ints_inv. injection H as <- <- <-.
  exists v. done.
Qed.

Lemma region_offsets_in_box sp lo hi idx :
  length lo = length sp -> in_shape idx sp = true -> in_box lo hi idx = true ->
  zip_with Nat.sub idx (region_starts sp lo) = zip_with Nat.sub idx (Z.to_nat <$> lo).
Proof.
  revert lo hi idx. induction sp as [|n sp IH]; intros [|l lo] [|h hi] [|i idx];
    simpl; try done.
  intros [= Hl] [Hi%Nat.ltb_lt Hidx]%andb_prop
    [[Hli%Z.leb_le Hih%Z.ltb_lt]%andb_prop Hbox]%andb_prop.
  f_equal; [|by eapply IH].
  unfold slice_start, slice_bound. lia.
Qed.

(** the inverse on a recorded geometry and a prediction that fits the box *)
Lemma backward_embeds tr s shp lo hi sp p b ch :
  recorded (param_key tr) s = Ret (shp, lo, hi) ->
  drop 1 shp = Z.of_nat <$> sp ->
  length (drop 1 lo) = length sp -> length (drop 1 hi) = length sp ->
  sample s !! "predict" = Some (OArr p) ->
  shape p = b :: ch :: region_shape sp (drop 1 lo) (drop 1 hi) ->
  exists s' out,
    backward tr s = (s', Ret tt) /\
    sample s' !! "predict" = Some (OArr out) /\
    shape out = b :: ch :: sp /\
    forall i j idx, in_shape (i :: j :: idx) (b :: ch :: sp) = true ->
      data out (i :: j :: idx)
      = if in_box (drop 1 lo) (drop 1 hi) idx
        then data p (i :: j :: zip_with Nat.sub idx (Z.to_nat <$> drop 1 lo))
        else 0.
Proof.
  intros (v & Hv & Hload)%recorded_inv Hshp Hllo Hlhi Hp Hshape.
  pose proof (reinsert_arrays shp lo hi p b ch _ Hshape) as Hre.
  rewrite Hshp in Hre.
  rewrite (np_zeros_of_shape (b :: ch :: sp)
             : np_zeros (_ :: _ :: (_ <$> sp)) = _), outcome_ret_bind in Hre.
  unfold set_ND_volume_roi_with_bounding_box_range, same_rank in Hre.
  cbn [shape length region_shape] in Hre.
  rewrite Hllo, Hlhi, !Nat.eqb_refl in Hre. cbn [andb] in Hre.
  rewrite !slice_len_full in Hre.
  destruct (decide (shape p = _)) as [_|Hne] in Hre; [|done].
  rewrite outcome_ret_bind in Hre.
  eexists _, _.
  split; [|split; [|split]].
  - destruct tr as [self|self]; simpl backward; simpl param_key in *;
      unfold CropWithBoundingBox.inverse_transform_for_prediction,
        RandomCrop.inverse_transform_for_prediction;
      rewrite (bind_get_eq _ _ _ _ Hv), Hload;
      (erewrite bind_lift_eq; [|reflexivity]); cbv iota beta;
      rewrite (bind_get_eq _ _ _ _ Hp), Hre; reflexivity.
  - simpl. apply lookup_insert_eq.
  - reflexivity.
  - intros i j idx Hin. cbn [snd data shape].
    simpl in Hin. apply andb_prop in Hin as [Hi%Nat.ltb_lt [Hj%Nat.ltb_lt Hidx]%andb_prop].
    cbn [in_region region_starts zip_with].
    rewrite <-(in_region_in_box sp) by done.
    assert (slice_start b 0 = 0%nat) as -> by (unfold slice_start, slice_bound; lia).
    assert (slice_start ch 0 = 0%nat) as -> by (unfold slice_start, slice_bound; lia).
    rewrite (slice_len_full b), (slice_len_full ch). simpl.
    rewrite (proj2 (Nat.ltb_lt _ _) Hi), (proj2 (Nat.ltb_lt _ _) Hj). simpl.
    destruct (in_region sp (drop 1 lo) (drop 1 hi) idx) eqn:Hreg; [|done].
    rewrite !Nat.sub_0_r.
    rewrite (region_offsets_in_box sp _ (drop 1 hi)); [done..|].
    by rewrite <-(in_region_in_box sp).
Qed.

(** inside the array the bound of a slice is the bound itself *)
Lemma slice_bound_inside n x : 0 <= x <= Z.of_nat n -> slice_bound n x = Z.to_nat x.
Proof. unfold slice_bound. lia. Qed.

Lemma box_inside_length shp lo hi :
  box_inside shp lo hi -> length lo = length shp /\ length hi = length shp.
Proof. induction 1; simpl; [done|]. lia. Qed.

Lemma region_shape_inside sp lo hi :
  box_inside sp lo hi -> region_shape sp lo hi = Z.to_nat <$> zip_with Z.sub hi lo.
Proof.
  induction 1 as [|n l h sp lo hi Hb _ IH]; simpl; [done|].
  rewrite IH. f_equal. unfold slice_len.
  rewrite !slice_bound_inside by lia. lia.
Qed.

Lemma box_inside_lookup shp lo hi :
  length lo = length shp -> length hi = length shp ->
  (forall (i : nat) n, shp !! i = Some n ->
     exists l h, lo !! i = Some l /\ hi !! i = Some h /\ 0 <= l <= h /\ h <= Z.of_nat n) ->
  box_inside shp lo hi.
Proof.
  revert lo hi. induction shp as [|n shp IH]; intros [|l lo] [|h hi]; simpl; try done.
  - constructor.
  - intros [= Hl] [= Hh] H. constructor.
    + destruct (H 0%nat n eq_refl) as (l' & h' & [= <-] & [= <-] & Hb). done.
    + apply IH; [done..|]. intros i m Hi. apply (H (S i) m Hi).
Qed.

(** the box that a successful pass of RandomCrop records lies inside the
    image, when no entry of [output_size] is negative *)
Lemma random_crop_box_inside self s s' outs :
  RandomCrop.call self s = (s', Ret tt) ->
  items (RandomCrop.output_size self) = Ret outs -> Forall (Z.le 0) outs ->
  exists image cmin cmax,
    sample s !! "image" = Some (OArr image) /\
    recorded RandomCrop.Param s' = Ret (shapeZ image, cmin, cmax) /\
    box_inside (shape image) cmin cmax.
Proof.
  intros H Ho Hpos.
  apply (forward_inv (TRandom self)) in H
    as (image & c & cmin & cmax & image_t & Himg & Hc & Hl1 & Hl2 & Hc1 & Hc2
        & Hkey & _ & _ & _ & _ & outs' & Ho' & Hlen & Hb).
  rewrite Ho in Ho'. injection Ho' as <-.
  exists image, cmin, cmax. split_and!; [done|by apply recorded_dumps|].
  apply box_inside_lookup; [done..|].
  intros [|i] n Hn.
  - rewrite Hc in Hn. injection Hn as <-. exists 0, (Z.of_nat c). split_and!; [done..|lia|lia|lia].
  - assert (is_Some (outs !! i)) as [o Hoi].
    { apply lookup_lt_is_Some. apply lookup_lt_Some in Hn. lia. }
    destruct (Hb i o Hoi) as (c0 & n0 & Hlo & Hn0 & Hrange & Hhi).
    rewrite Hn in Hn0. injection Hn0 as <-.
    rewrite Forall_lookup in Hpos. specialize (Hpos i o Hoi).
    exists c0, (c0 + o). rewrite !lookup_drop in Hlo, Hhi. simpl in Hlo, Hhi.
    split_and!; [done..|lia|lia|lia].
Qed.


(** * The claims *)

(** C1. After a successful forward pass (of either transform) on a sample
    whose image has shape [C, *spatial], with a recorded box
    [crop_min, crop_max) that lies inside the image, the inverse applied to
    a prediction that is the cropped image with a batch axis in front
    succeeds and gives an array of the original shape (behind the batch
    axis) that equals the original image inside the recorded box and is
    zero outside.  The box lies inside the image after every pass of
    RandomCrop whose [output_size] has no negative entry
    ([random_crop_box_inside]) and after every pass of CropWithBoundingBox
    that crops to the bounding box ([bounding_box_crop_box_inside]); there
    a slice bound is the bound itself ([slice_bound_inside]). *)
Theorem crop_then_inverse_restores_region tr s s' image cmin cmax :
  forward tr s = (s', Ret tt) ->
  sample s !! "image" = Some (OArr image) ->
  recorded (param_key tr) s' = Ret (shapeZ image, cmin, cmax) ->
  box_inside (shape image) cmin cmax ->
  exists image_t out s2,
    sample s' !! "image" = Some (OArr image_t) /\
    shape image_t = Z.to_nat <$> zip_with Z.sub cmax cmin /\
    backward tr {| sample := <["predict" := OArr (with_batch_axis image_t)]> (sample s');
                   rng := rng s' |} = (s2, Ret tt) /\
    sample s2 !! "predict" = Some (OArr out) /\
    shape out = 1%nat :: shape image /\
    forall b idx, in_shape (b :: idx) (shape out) = true ->
      data out (b :: idx) = if in_box cmin cmax idx then data image idx else 0.
Proof.
  intros (image0 & c & cmin0 & cmax0 & image_t & Himg0 & Hc & Hl1 & Hl2 & Hc1 & Hc2
          & Hkey & Hcrop & Himg' & _)%forward_inv Himg Hrec Hin.
  rewrite Himg0 in Himg. injection Himg as ->.
  rewrite (recorded_dumps _ _ _ _ _ Hkey) in Hrec. injection Hrec as -> ->.
  destruct (shape image) as [|c' sp] eqn:Hshape; [done|]. injection Hc as ->.
  destruct (reinsert_cropped image c sp cmin cmax image_t Hshape Hc1 Hc2 Hcrop)
    as ([[[o1 o2] o3] out] & Hre & Hso & Hdata).
  simpl in Hso, Hdata. rewrite Hshape in Hso, Hdata.
  assert (param_key tr <> "predict") as Hk by (by destruct tr).
  exists image_t, out. eexists.
  split_and!; [done| | | | |].
  - destruct (crop_inv _ _ _ _ Hcrop) as (_ & _ & ->).
    rewrite Hshape. by apply region_shape_inside.
  - destruct tr as [self|self]; simpl in *;
      unfold CropWithBoundingBox.inverse_transform_for_prediction,
        RandomCrop.inverse_transform_for_prediction, mbind, M_bind, sample_get, lift;
      simpl; rewrite lookup_insert_ne, Hkey, load_param_dumps by done; simpl;
      rewrite lookup_insert_eq; simpl; rewrite Hre; simpl; reflexivity.
  - simpl. apply lookup_insert_eq.
  - done.
  - intros b idx Hin'. apply Hdata. by rewrite Hso in Hin'.
Qed.

(** the bounding-box crop of the one-channel 3x10 image records the box
    [[0,1) x [1,2) x [9,10)] around its non-zero pixel; the inverse puts
    the value 5 back at that pixel *)
Lemma crop_then_inverse_restores_region_witness :
  let tr := TCrop (crop_with PNone PNone) in
  let s' := (forward tr corner_state).1 in
  recorded (param_key tr) s' = Ret ([1; 3; 10], [0; 1; 9], [1; 2; 10]) /\
  exists image_t out s2,
    sample s' !! "image" = Some (OArr image_t) /\
    shape image_t = [1; 1; 1]%nat /\
    backward tr {| sample := <["predict" := OArr (with_batch_axis image_t)]> (sample s');
                   rng := rng s' |} = (s2, Ret tt) /\
    sample s2 !! "predict" = Some (OArr out) /\
    shape out = [1; 1; 3; 10]%nat /\
    data out [0; 0; 1; 9]%nat = 5 /\
    data out [0; 0; 1; 8]%nat = 0 /\
    forall b idx, in_shape (b :: idx) (shape out) = true ->
      data out (b :: idx)
      = if in_box [0; 1; 9] [1; 2; 10] idx then data corner_image idx else 0.
Proof.
  intros tr s'. split; [vm_compute; reflexivity|].
  destruct (crop_then_inverse_restores_region tr corner_state s'
              corner_image [0; 1; 9] [1; 2; 10])
    as (image_t & out & s2 & H1 & H2 & H3 & H4 & H5 & H6).
  - vm_compute. reflexivity.
  - reflexivity.
  - vm_compute. reflexivity.
  - unfold box_inside. simpl. repeat constructor; lia.
  - exists image_t, out, s2. split_and!; try done.
    + apply (H6 0%nat [0; 1; 9]%nat). by rewrite H5.
    + apply (H6 0%nat [0; 1; 8]%nat). by rewrite H5.
Defined.

(** C2. After a successful forward pass of RandomCrop, and of
    CropWithBoundingBox when [output_size] is given, the recorded bounds have
    [crop_min[0] = 0], [crop_max[0]] the channel count of the image, and
    [crop_max[i+1] - crop_min[i+1] = output_size[i]] on every spatial axis. *)
Theorem crop_extent_is_output_size tr s s' :
  forward tr s = (s', Ret tt) ->
  (forall self, tr = TCrop self -> CropWithBoundingBox.output_size self <> PNone) ->
  exists image c cmin cmax,
    sample s !! "image" = Some (OArr image) /\
    shape image !! 0%nat = Some c /\
    recorded (param_key tr) s' = Ret (shapeZ image, cmin, cmax) /\
    cmin !! 0%nat = Some 0 /\ cmax !! 0%nat = Some (Z.of_nat c) /\
    forall i : nat, (S i < length (shape image))%nat ->
      exists outs o a b,
        items (output_size_of tr) = Ret outs /\ outs !! i = Some o /\
        cmin !! S i = Some a /\ cmax !! S i = Some b /\ b - a = o.
Proof.
  intros (image & c & cmin & cmax & image_t & Himg & Hc & Hl1 & Hl2 & Hc1 & Hc2
          & Hkey & _ & _ & _ & _ & Hsp)%forward_inv Hout.
  exists image, c, cmin, cmax. split_and!; try done; [by apply recorded_dumps|].
  intros i Hi.
  destruct cmin as [|c0 cmin]; [done|]. destruct cmax as [|c1 cmax]; [done|].
  simpl in *. rewrite !drop_0 in Hsp. destruct tr as [self|self]; simpl in *.
  - destruct Hsp as (bb & Hbb & Hb). specialize (Hout self eq_refl).
    destruct (decide (CropWithBoundingBox.start self = PNone)) as [Hs|Hs].
    + apply bounds_centered in Hb as (outs & cmin' & Ho & Hlo & [= <-] & _ & _ & Hb);
        [|done..].
      destruct (Hb i ltac:(lia)) as (a & b & o & _ & _ & Hoi & Ha & Hb').
      exists outs, o. eexists _, _. split_and!; try done. lia.
    + apply bounds_explicit in Hb as (starts & Hst & Hls & Hp & _ & Hb); [|done..].
      rewrite <-Hp in Hst. injection Hst as <-.
      destruct (Hb i ltac:(lia)) as (outs & a & o & Ho & Ha & Hoi & Hb').
      exists outs, o, a, (a + o). split_and!; try done. lia.
  - destruct Hsp as (outs & Ho & Hlo & Hb).
    destruct (lookup_lt_is_Some_2 outs i ltac:(lia)) as [o Hoi].
    destruct (Hb i o Hoi) as (a & n & Ha & _ & _ & Hb').
    exists outs, o, a, (a + o). split_and!; try done. lia.
Qed.

Lemma crop_extent_is_output_size_witness :
  forward (TCrop centered_crop) corner_state
    = ((forward (TCrop centered_crop) corner_state).1, Ret tt) /\
  CropWithBoundingBox.output_size centered_crop <> PNone /\
  exists image c cmin cmax,
    sample corner_state !! "image" = Some (OArr image) /\
    shape image !! 0%nat = Some c /\
    recorded (param_key (TCrop centered_crop))
      (forward (TCrop centered_crop) corner_state).1 = Ret (shapeZ image, cmin, cmax) /\
    cmin !! 0%nat = Some 0 /\ cmax !! 0%nat = Some (Z.of_nat c) /\
    forall i : nat, (S i < length (shape image))%nat ->
      exists outs o a b,
        items (output_size_of (TCrop centered_crop)) = Ret outs /\ outs !! i = Some o /\
        cmin !! S i = Some a /\ cmax !! S i = Some b /\ b - a = o.
Proof.
  split; [vm_compute; reflexivity|]. split; [discriminate|].
  apply (crop_extent_is_output_size (TCrop centered_crop) corner_state).
  - vm_compute. reflexivity.
  - intros self [= <-]. discriminate.
Defined.

(** C3 (the code departs from the claim).  With [start] given and
    [output_size] None the forward pass never gets to the bounds: line 48
    asserts on [len(self.output_size)], the length of None, which raises
    TypeError, and the sample is left as it was. *)
Theorem start_without_output_size_raises :
  CropWithBoundingBox.call (crop_with (PList [0; 0]) PNone) corner_state
  = (corner_state, Raise TypeError).
Proof. vm_compute. reflexivity. Qed.

(** the same on every sample: this configuration has no successful forward
    pass *)
Lemma start_without_output_size_never_succeeds self s :
  CropWithBoundingBox.start self <> PNone ->
  CropWithBoundingBox.output_size self = PNone ->
  (CropWithBoundingBox.call self s).2 <> Ret tt.
Proof.
  intros Hs Ho H.
  destruct (CropWithBoundingBox.call self s) as [s' o] eqn:E. simpl in H. subst o.
  apply crop_call_inv in E as (image & bb & cc & _ & _ & Hb & _).
  destruct (bounds_start_only self (Z.of_nat (length (shape image)) - 1)
              (drop 1 bb.1) (drop 1 bb.2) Hs Ho) as (e & He & _).
  congruence.
Qed.

(** C4, as amended.  After a successful forward pass of RandomCrop, in the
    uniform and in the foreground-focused branch alike, every spatial axis
    has [0 <= crop_min <= input_shape - output_size] and so
    [crop_max <= input_shape]; after a successful forward pass of
    CropWithBoundingBox without [start], every spatial axis has
    [crop_min >= 0]. *)
Theorem crop_min_clamped tr s s' :
  forward tr s = (s', Ret tt) ->
  exists image cmin cmax,
    sample s !! "image" = Some (OArr image) /\
    recorded (param_key tr) s' = Ret (shapeZ image, cmin, cmax) /\
    match tr with
    | TRandom self =>
        forall i : nat, (S i < length (shape image))%nat ->
          exists outs o n a b,
            items (RandomCrop.output_size self) = Ret outs /\
            outs !! i = Some o /\ shape image !! S i = Some n /\
            cmin !! S i = Some a /\ cmax !! S i = Some b /\
            0 <= a <= Z.of_nat n - o /\ b <= Z.of_nat n
    | TCrop self =>
        CropWithBoundingBox.start self = PNone ->
        forall (i : nat) a, cmin !! S i = Some a -> 0 <= a
    end.
Proof.
  intros (image & c & cmin & cmax & image_t & Himg & Hc & Hl1 & Hl2 & Hc1 & Hc2
          & Hkey & _ & _ & _ & _ & Hsp)%forward_inv.
  exists image, cmin, cmax. split_and!; try done; [by apply recorded_dumps|].
  destruct cmin as [|c0 cmin]; [done|]. destruct cmax as [|c1 cmax]; [done|].
  simpl in *. rewrite !drop_0 in Hsp. destruct tr as [self|self]; simpl in *.
  - intros Hs i a Ha. destruct Hsp as (bb & Hbb & Hb).
    destruct (decide (CropWithBoundingBox.output_size self = PNone)) as [Ho|Ho].
    + rewrite bounds_box in Hb by done. injection Hb as <- <-.
      destruct (get_ND_bounding_box_nonneg _ _ Hbb) as [Hn1 _].
      rewrite lookup_drop in Ha. apply (Forall_lookup_1 _ _ _ _ Hn1 Ha).
    + apply bounds_centered in Hb as (outs & cmin' & _ & Hlo & [= <-] & Hlc & _ & Hb);
        [|done..].
      pose proof (lookup_lt_Some _ _ _ Ha) as Hi.
      destruct (Hb i ltac:(lia)) as (x & y & o & _ & _ & _ & Hmin & _).
      rewrite Ha in Hmin. injection Hmin as ->. lia.
  - intros i Hi. destruct Hsp as (outs & Ho & Hlo & Hb).
    destruct (lookup_lt_is_Some_2 outs i ltac:(lia)) as [o Hoi].
    destruct (Hb i o Hoi) as (a & n & Ha & Hn & Hr & Hb').
    exists outs, o, n, a, (a + o). split_and!; try done; lia.
Qed.

Lemma crop_min_clamped_witness :
  forward (TRandom uniform_crop) corner_state
    = ((forward (TRandom uniform_crop) corner_state).1, Ret tt) /\
  exists image cmin cmax,
    sample corner_state !! "image" = Some (OArr image) /\
    recorded RandomCrop.Param (forward (TRandom uniform_crop) corner_state).1
      = Ret (shapeZ image, cmin, cmax) /\
    forall i : nat, (S i < length (shape image))%nat ->
      exists outs o n a b,
        items (RandomCrop.output_size uniform_crop) = Ret outs /\
        outs !! i = Some o /\ shape image !! S i = Some n /\
        cmin !! S i = Some a /\ cmax !! S i = Some b /\
        0 <= a <= Z.of_nat n - o /\ b <= Z.of_nat n.
Proof.
  split; [vm_compute; reflexivity|].
  apply (crop_min_clamped (TRandom uniform_crop) corner_state).
  vm_compute. reflexivity.
Defined.

(** C4, the claim as it stands fails: the centered box of
    CropWithBoundingBox is clamped at 0 only, so around a pixel in the last
    column it reaches to 12 on an axis of length 10; and an explicit [start]
    is recorded as given, negative entries included. *)
Lemma crop_bounds_not_kept_in_image :
  (recorded CropWithBoundingBox.Param
     (forward (TCrop centered_crop) corner_state).1
   = Ret ([1; 3; 10], [0; 2; 8], [1; 3; 12]) /\
   (forward (TCrop centered_crop) corner_state).2 = Ret tt /\ ~ 12 <= 10) /\
  (recorded CropWithBoundingBox.Param
     (forward (TCrop (crop_with (PList [-1; 0]) (PList [2; 2]))) corner_state).1
   = Ret ([1; 3; 10], [0; -1; 0], [1; 1; 2]) /\
   (forward (TCrop (crop_with (PList [-1; 0]) (PList [2; 2]))) corner_state).2 = Ret tt /\
   ~ 0 <= -1).
Proof.
  split; (split_and!; [vm_compute; reflexivity | vm_compute; reflexivity | lia]).
Qed.

(** C5. When CropWithBoundingBox has no [start] and a given [output_size]
    (whose entries are sizes, so not negative), a successful forward pass
    records, on every spatial axis,
    [crop_min = max(0, floor((bb_min + bb_max + 1)/2) - floor(output_size/2))]
    and [crop_max = crop_min + output_size], with [(bb_min, bb_max)] the
    bounding box of the non-zero part of the image. *)
Theorem centered_crop_bounds self s s' outs :
  CropWithBoundingBox.call self s = (s', Ret tt) ->
  CropWithBoundingBox.start self = PNone ->
  items (CropWithBoundingBox.output_size self) = Ret outs ->
  Forall (Z.le 0) outs ->
  exists image bb cmin cmax,
    sample s !! "image" = Some (OArr image) /\
    get_ND_bounding_box image = Ret bb /\
    recorded CropWithBoundingBox.Param s' = Ret (shapeZ image, cmin, cmax) /\
    S (length outs) = length (shape image) /\
    forall (i : nat) o, outs !! i = Some o ->
      exists a b, bb.1 !! S i = Some a /\ bb.2 !! S i = Some b /\
        cmin !! S i = Some (Z.max 0 ((a + b + 1) / 2 - o / 2)) /\
        cmax !! S i = Some (Z.max 0 ((a + b + 1) / 2 - o / 2) + o).
Proof.
  intros H Hs Ho Hpos. apply (forward_inv (TCrop self)) in H
    as (image & c & cmin & cmax & image_t & Himg & Hc & Hl1 & Hl2 & Hc1 & Hc2
        & Hkey & _ & _ & _ & _ & (bb & Hbb & Hb)).
  simpl in Hkey.
  apply bounds_centered in Hb as (outs' & cmin' & Ho' & Hlo & [= Hcm] & _ & _ & Hb);
    [|done|by destruct (CropWithBoundingBox.output_size self)].
  rewrite Ho in Ho'. injection Ho' as <-.
  exists image, bb, cmin, cmax. split_and!; try done; [by apply recorded_dumps|lia|].
  intros i o Hoi. pose proof (lookup_lt_Some _ _ _ Hoi) as Hi.
  destruct (Hb i ltac:(lia)) as (a & b & o' & Ha & Hb' & Hoi' & Hmin & Hmax).
  rewrite Hoi in Hoi'. injection Hoi' as <-.
  rewrite lookup_drop in Ha, Hb'. simpl in Ha, Hb'.
  destruct (get_ND_bounding_box_nonneg _ _ Hbb) as [Hn1 Hn2].
  pose proof (Forall_lookup_1 _ _ _ _ Hn1 Ha).
  pose proof (Forall_lookup_1 _ _ _ _ Hn2 Hb').
  pose proof (Forall_lookup_1 _ _ _ _ Hpos Hoi).
  unfold int_half in *. rewrite !Z.quot_div_nonneg in Hmin, Hmax by lia.
  exists a, b. rewrite <-Hcm in Hmin.
  destruct cmin as [|c0 cmin]; [done|]. destruct cmax as [|c1 cmax]; [done|].
  simpl in *. rewrite drop_0 in Hmin. done.
Qed.

Lemma centered_crop_bounds_witness :
  CropWithBoundingBox.call centered_crop corner_state
    = ((CropWithBoundingBox.call centered_crop corner_state).1, Ret tt) /\
  Forall (Z.le 0) [1; 4] /\
  exists image bb cmin cmax,
    sample corner_state !! "image" = Some (OArr image) /\
    get_ND_bounding_box image = Ret bb /\
    recorded CropWithBoundingBox.Param
      (CropWithBoundingBox.call centered_crop corner_state).1
      = Ret (shapeZ image, cmin, cmax) /\
    S (length [1; 4]) = length (shape image) /\
    forall (i : nat) o, [1; 4] !! i = Some o ->
      exists a b, bb.1 !! S i = Some a /\ bb.2 !! S i = Some b /\
        cmin !! S i = Some (Z.max 0 ((a + b + 1) / 2 - o / 2)) /\
        cmax !! S i = Some (Z.max 0 ((a + b + 1) / 2 - o / 2) + o).
Proof.
  assert (Forall (Z.le 0) [1; 4]) as Hpos by (repeat constructor; lia).
  split; [vm_compute; reflexivity|]. split; [exact Hpos|].
  apply (centered_crop_bounds centered_crop corner_state _ [1; 4]).
  - vm_compute. reflexivity.
  - reflexivity.
  - reflexivity.
  - exact Hpos.
Defined.

(** C6, as amended.  With foreground focus on and [fg_ratio >= 1], a label
    of the image's spatial shape that has exactly one voxel with a value of
    [mask_label], and an [output_size] of at least 2 on every axis, the
    recorded box of a successful forward pass contains the spatial
    coordinates of that voxel, whatever the random draws. *)
Theorem focused_crop_contains_single_voxel self s s' image label labs outs p :
  RandomCrop.call self s = (s', Ret tt) ->
  RandomCrop.fg_focus self = true ->
  (1 <= RandomCrop.fg_ratio self)%Q ->
  sample s !! "image" = Some (OArr image) ->
  sample s !! "label" = Some (OArr label) ->
  drop 1 (shape label) = drop 1 (shape image) ->
  items (RandomCrop.mask_label self) = Ret labs ->
  in_shape p (shape label) = true ->
  data label p ∈ labs ->
  (forall q, in_shape q (shape label) = true -> data label q ∈ labs -> q = p) ->
  items (RandomCrop.output_size self) = Ret outs ->
  Forall (Z.le 2) outs ->
  exists cmin cmax,
    recorded RandomCrop.Param s' = Ret (shapeZ image, cmin, cmax) /\
    forall i : nat, (S i < length (shape image))%nat ->
      exists a b x, cmin !! S i = Some a /\ cmax !! S i = Some b /\
        p !! S i = Some x /\ a <= Z.of_nat x < b.
Proof.
  intros H Hfg Hratio Himg Hlab Hsp Hlabs Hp Hpin Huniq Houts Hbig.
  apply random_call_steps in H
    as (image' & outs' & margin & cmin0 & focus & cmin & cmax & s1 & s2 & s3
        & Himg' & Houts' & Hlen & Hm & Hc0 & Hfocus & Hcmin & Hx & Hstore).
  rewrite Himg in Himg'. injection Himg' as <-.
  rewrite Houts in Houts'. injection Houts' as <-.
  destruct (margins_nonneg _ _ _ _ _ _ _ Houts Hm Hc0) as (Hs1 & _ & Hmargin).
  apply focus_decision_inv in Hfocus as [Hs2 Hf]. rewrite Hf in Hcmin by done.
  assert (sample s2 !! "label" = Some (OArr label)) as Hlab2 by congruence.
  pose proof (fg_crop_min_single _ _ _ _ _ _ _ _ _ Hcmin Hlab2 Hlabs Hp Hpin Huniq)
    as Hfgc.
  apply comprehension_range in Hx as [Hlx Hx].
  apply store_and_crop_inv in Hstore
    as (cmin1 & image_t & [= <-] & Hcrop & Hkey & _); [|done..].
  eexists _, _. split; [by apply recorded_dumps|].
  intros i Hi. simpl.
  destruct (Hfgc i ltac:(lia)) as (x & r & n & o & outs' & Hpx & Hr & Hn & Houts' & Ho & Hci).
  rewrite Houts in Houts'. injection Houts' as <-.
  destruct (Hmargin i ltac:(lia)) as (c0 & n' & o' & _ & Hn' & Ho' & Hr0).
  rewrite Ho in Ho'. injection Ho' as <-.
  unfold shapeZ in Hn. rewrite list_lookup_fmap, Hn' in Hn. injection Hn as <-.
  destruct (Hx i ltac:(lia)) as (y & Hy & E).
  step E as c' Hc'. step E as o' Ho'. injection E as <-.
  apply getitem_nat_inv in Hc'. apply (py_getitem_nat_inv _ _ _ _ Houts) in Ho'.
  rewrite Hci in Hc'. injection Hc' as <-. rewrite Ho in Ho'. injection Ho' as <-.
  assert (x < n')%nat as Hxn.
  { assert (shape label !! S i = Some n') as Hn''.
    { rewrite <-(lookup_drop _ 1 i) in Hn'. rewrite <-Hsp in Hn'.
      by rewrite lookup_drop in Hn'. }
    eapply in_shape_lookup; eauto. }
  pose proof (Forall_lookup_1 _ _ _ _ Hbig Ho) as Ho2. simpl in Ho2.
  destruct (shape image) as [|ch shp] eqn:Hshape; [simpl in Hi; lia|].
  unfold shapeZ. rewrite Hshape. simpl.
  eexists _, _, x. split_and!; [done..| |].
  - unfold int_half. rewrite Z.quot_div_nonneg by lia.
    pose proof (Z.div_le_lower_bound o 2 1 ltac:(lia) ltac:(lia)). lia.
  - unfold int_half. rewrite Z.quot_div_nonneg by lia.
    pose proof (Z.div_le_upper_bound o 2 (o - 1) ltac:(lia) ltac:(lia)). lia.
Qed.

Lemma point_array_single shp p v (labs : list Z) :
  v ∈ labs -> 0 ∉ labs ->
  forall q, in_shape q shp = true -> data (point_array shp p v) q ∈ labs -> q = p.
Proof.
  intros _ H0 q _ Hq. simpl in Hq. by destruct (decide (q = p)).
Qed.

Lemma focused_crop_contains_single_voxel_witness :
  RandomCrop.call (focused_crop [2; 4]) marked_3x10
    = ((RandomCrop.call (focused_crop [2; 4]) marked_3x10).1, Ret tt) /\
  Forall (Z.le 2) [2; 4] /\
  exists cmin cmax,
    recorded RandomCrop.Param (RandomCrop.call (focused_crop [2; 4]) marked_3x10).1
      = Ret ([1; 3; 10], cmin, cmax) /\
    forall i : nat, (S i < 3)%nat ->
      exists a b x, cmin !! S i = Some a /\ cmax !! S i = Some b /\
        [0; 1; 9]%nat !! S i = Some x /\ a <= Z.of_nat x < b.
Proof.
  assert (Forall (Z.le 2) [2; 4]) as Hbig by (repeat constructor; lia).
  split; [vm_compute; reflexivity|]. split; [exact Hbig|].
  apply (focused_crop_contains_single_voxel (focused_crop [2; 4]) marked_3x10 _
           (full_array [1; 3; 10]%nat 3) (point_array [1; 3; 10]%nat [0; 1; 9]%nat 1)
           [1] [2; 4] [0; 1; 9]%nat).
  - vm_compute. reflexivity.
  - reflexivity.
  - vm_compute. discriminate.
  - reflexivity.
  - reflexivity.
  - reflexivity.
  - reflexivity.
  - reflexivity.
  - vm_compute. by left.
  - apply point_array_single; [by left|]. by intros [H|H%elem_of_nil]%elem_of_cons.
  - reflexivity.
  - exact Hbig.
Defined.

(** C6, the claim as it stands fails: with [output_size] 1 on an axis the
    draw from [bb_min .. bb_max] can land one past the voxel, and the box of
    width 1 that starts there misses it.  Here the voxel is at column 0 and
    the recorded box covers column 1 only. *)
Lemma focused_crop_of_width_one_misses_voxel :
  nonzero (label_mask (point_array [1; 1; 3]%nat [0; 0; 0]%nat 1) [1]) = [[0; 0; 0]%nat] /\
  (RandomCrop.call (focused_crop [1; 1]) marked_1x3).2 = Ret tt /\
  recorded RandomCrop.Param (RandomCrop.call (focused_crop [1; 1]) marked_1x3).1
    = Ret ([1; 1; 3], [0; 0; 1], [1; 1; 2]) /\
  in_box [0; 0; 1] [1; 1; 2] [0; 0; 0]%nat = false.
Proof. vm_compute. split_and!; reflexivity. Qed.

(** C7 (the code departs from the claim).  With [start] given, an
    [output_size] of three entries is accepted for an image with two spatial
    axes: no assertion looks at its length on this path, the forward pass
    succeeds and the sample is modified. *)
Theorem long_output_size_accepted_with_start :
  let run := CropWithBoundingBox.call (crop_with (PList [0; 0]) (PList [1; 1; 1]))
               corner_state in
  run.2 = Ret tt /\
  recorded CropWithBoundingBox.Param run.1 = Ret ([1; 3; 10], [0; 0; 0], [1; 1; 1]) /\
  (exists image_t, sample run.1 !! "image" = Some (OArr image_t) /\
     shape image_t = [1; 1; 1]%nat).
Proof. vm_compute. split_and!; [reflexivity..|]. eexists. split; reflexivity. Qed.

(** where the lengths are checked, the assertion fails before the sample is
    touched *)
Lemma random_crop_length_mismatch self s image outs :
  sample s !! "image" = Some (OArr image) ->
  items (RandomCrop.output_size self) = Ret outs ->
  Z.of_nat (length outs) <> Z.of_nat (length (shape image)) - 1 ->
  RandomCrop.call self s = (s, Raise AssertionError).
Proof.
  intros Himg Ho Hne. unfold RandomCrop.call, mbind, M_bind, sample_get.
  rewrite Himg. simpl. unfold py_len. rewrite Ho. simpl.
  unfold shapeZ. rewrite length_fmap.
  by rewrite (proj2 (Z.eqb_neq _ _)) by lia.
Qed.

Lemma centered_crop_length_mismatch self s image bb outs :
  sample s !! "image" = Some (OArr image) ->
  get_ND_bounding_box image = Ret bb ->
  CropWithBoundingBox.start self = PNone ->
  items (CropWithBoundingBox.output_size self) = Ret outs ->
  Z.of_nat (length outs) <> Z.of_nat (length (shape image)) - 1 ->
  CropWithBoundingBox.call self s = (s, Raise AssertionError).
Proof.
  intros Himg Hbb Hs Ho Hne.
  unfold CropWithBoundingBox.call, mbind, M_bind, sample_get.
  rewrite Himg. simpl. rewrite Hbb. simpl.
  unfold CropWithBoundingBox.bounds. rewrite Hs. simpl.
  destruct (CropWithBoundingBox.output_size self) eqn:E; try done; simpl in *;
    injection Ho as ->; unfold shapeZ; rewrite length_fmap;
    by rewrite (proj2 (Z.eqb_neq _ _)) by lia.
Qed.

Lemma start_length_mismatch self s image bb starts :
  sample s !! "image" = Some (OArr image) ->
  get_ND_bounding_box image = Ret bb ->
  items (CropWithBoundingBox.start self) = Ret starts ->
  Z.of_nat (length starts) <> Z.of_nat (length (shape image)) - 1 ->
  CropWithBoundingBox.call self s = (s, Raise AssertionError).
Proof.
  intros Himg Hbb Hs Hne.
  unfold CropWithBoundingBox.call, mbind, M_bind, sample_get.
  rewrite Himg. simpl. rewrite Hbb. simpl.
  unfold CropWithBoundingBox.bounds.
  destruct (CropWithBoundingBox.start self) eqn:E; try done; simpl in *;
    injection Hs as ->; unfold shapeZ; rewrite length_fmap;
    by rewrite (proj2 (Z.eqb_neq _ _)) by lia.
Qed.

Lemma mask_label_must_be_a_sequence p z :
  RandomCrop.randomcrop_mask_label p = PInt z ->
  RandomCrop.init p = Raise AssertionError.
Proof.
  intros H. unfold RandomCrop.init. simpl. rewrite H. simpl.
  by destruct (is_list_or_tuple (RandomCrop.randomcrop_output_size p)).
Qed.

(** C8. A successful forward pass replaces the array under ["label"] (and
    likewise under ["weight"]) by its crop, taken with the bounds of the
    image and the array's own channel count, when the array's shape without
    the channel axis equals that of the original image; when the shapes
    differ, or when there is no such entry, the entry is as it was. *)
Theorem label_and_weight_cropped_when_shapes_match tr s s' k :
  forward tr s = (s', Ret tt) ->
  k = "label" \/ k = "weight" ->
  exists image cmin cmax,
    sample s !! "image" = Some (OArr image) /\
    recorded (param_key tr) s' = Ret (shapeZ image, cmin, cmax) /\
    (sample s !! k = None -> sample s' !! k = None) /\
    forall v, sample s !! k = Some v ->
      exists arr, v = OArr arr /\
        (drop 1 (shape arr) = drop 1 (shape image) ->
           exists c arr_t, shape arr !! 0%nat = Some c /\
             crop_ND_volume_with_bounding_box arr cmin
               (<[0%nat := Z.of_nat c]> cmax) = Ret arr_t /\
             sample s' !! k = Some (OArr arr_t)) /\
        (drop 1 (shape arr) <> drop 1 (shape image) ->
           sample s' !! k = Some (OArr arr)).
Proof.
  intros (image & c & cmin & cmax & image_t & Himg & Hc & Hl1 & Hl2 & Hc1 & Hc2
          & Hkey & _ & _ & Hlab & Hw & _)%forward_inv Hk.
  exists image, cmin, cmax. split_and!; try done; [by apply recorded_dumps|..].
  - intros Hn. unfold entry_cropped in *.
    destruct Hk as [->| ->]; [by rewrite Hn in Hlab | by rewrite Hn in Hw].
  - intros v Hv.
    assert (entry_cropped k image cmin cmax (sample s) (sample s')) as He
      by (by destruct Hk as [->| ->]).
    unfold entry_cropped in He. rewrite Hv in He.
    destruct He as (arr & -> & He). exists arr. split; [done|].
    destruct (decide _) as [Heq|Hne]; split; intros; done.
Qed.

Lemma label_and_weight_cropped_when_shapes_match_witness :
  forward (TCrop centered_crop) corner_state
    = ((forward (TCrop centered_crop) corner_state).1, Ret tt) /\
  exists image cmin cmax,
    sample corner_state !! "image" = Some (OArr image) /\
    recorded (param_key (TCrop centered_crop))
      (forward (TCrop centered_crop) corner_state).1 = Ret (shapeZ image, cmin, cmax) /\
    (sample corner_state !! "label" = None ->
     sample (forward (TCrop centered_crop) corner_state).1 !! "label" = None) /\
    forall v, sample corner_state !! "label" = Some v ->
      exists arr, v = OArr arr /\
        (drop 1 (shape arr) = drop 1 (shape image) ->
           exists c arr_t, shape arr !! 0%nat = Some c /\
             crop_ND_volume_with_bounding_box arr cmin
               (<[0%nat := Z.of_nat c]> cmax) = Ret arr_t /\
             sample (forward (TCrop centered_crop) corner_state).1 !! "label"
               = Some (OArr arr_t)) /\
        (drop 1 (shape arr) <> drop 1 (shape image) ->
           sample (forward (TCrop centered_crop) corner_state).1 !! "label"
             = Some (OArr arr)).
Proof.
  split; [vm_compute; reflexivity|].
  apply (label_and_weight_cropped_when_shapes_match (TCrop centered_crop) corner_state).
  - vm_compute. reflexivity.
  - by left.
Defined.

(** C9. After a successful forward pass of either transform, deserializing
    the stored parameter gives exactly the image's original shape, a
    [crop_min] whose channel entry is 0 and a [crop_max] whose channel entry
    is the channel count of the image, whatever label and weight arrays the
    sample holds: the text is written before [crop_max[0]] is overwritten
    for the label and the weight. *)
Theorem stored_param_has_image_channels tr s s' :
  forward tr s = (s', Ret tt) ->
  exists image c cmin cmax,
    sample s !! "image" = Some (OArr image) /\
    shape image !! 0%nat = Some c /\
    recorded (param_key tr) s' = Ret (shapeZ image, cmin, cmax) /\
    length cmin = length (shape image) /\ length cmax = length (shape image) /\
    cmin !! 0%nat = Some 0 /\ cmax !! 0%nat = Some (Z.of_nat c).
Proof.
  intros (image & c & cmin & cmax & image_t & Himg & Hc & Hl1 & Hl2 & Hc1 & Hc2
          & Hkey & _)%forward_inv.
  exists image, c, cmin, cmax. split_and!; try done. by apply recorded_dumps.
Qed.

Lemma stored_param_has_image_channels_witness :
  forward (TCrop centered_crop) corner_state
    = ((forward (TCrop centered_crop) corner_state).1, Ret tt) /\
  exists image c cmin cmax,
    sample corner_state !! "image" = Some (OArr image) /\
    shape image !! 0%nat = Some c /\
    recorded (param_key (TCrop centered_crop))
      (forward (TCrop centered_crop) corner_state).1 = Ret (shapeZ image, cmin, cmax) /\
    length cmin = length (shape image) /\ length cmax = length (shape image) /\
    cmin !! 0%nat = Some 0 /\ cmax !! 0%nat = Some (Z.of_nat c).
Proof.
  split; [vm_compute; reflexivity|].
  apply (stored_param_has_image_channels (TCrop centered_crop) corner_state).
  vm_compute. reflexivity.
Defined.

(** a list or tuple of texts is read as its first text: the load, the
    outcome and the reconstructed prediction are those of the first text
    alone, whatever follows it, also when that text cannot be read *)
Lemma list_param_runs_as_first_text tr smp g txt rest :
  let run v := backward tr {| sample := <[param_key tr := v]> smp; rng := g |} in
  load_param (OList (OStr txt :: rest)) = load_param (OStr txt) /\
  load_param (OTuple (OStr txt :: rest)) = load_param (OStr txt) /\
  (run (OList (OStr txt :: rest))).2 = (run (OStr txt)).2 /\
  (run (OTuple (OStr txt :: rest))).2 = (run (OStr txt)).2 /\
  sample (run (OList (OStr txt :: rest))).1 !! "predict"
    = sample (run (OStr txt)).1 !! "predict" /\
  sample (run (OTuple (OStr txt :: rest))).1 !! "predict"
    = sample (run (OStr txt)).1 !! "predict".
Proof.
  assert (forall v, load_param v = load_param (OStr txt) ->
    let run v := backward tr {| sample := <[param_key tr := v]> smp; rng := g |} in
    (run v).2 = (run (OStr txt)).2 /\
    sample (run v).1 !! "predict" = sample (run (OStr txt)).1 !! "predict") as Hrun.
  { intros v Hv.
    assert (param_key tr <> "predict") as Hk by (by destruct tr).
    destruct tr as [self|self]; simpl in *;
      unfold CropWithBoundingBox.inverse_transform_for_prediction,
        RandomCrop.inverse_transform_for_prediction, mbind, M_bind, sample_get, lift;
      simpl; rewrite !lookup_insert_eq, Hv;
      (destruct (load_param (OStr txt)) as [[[o c1] c2]|e]; simpl);
      rewrite ?lookup_insert_ne by done; try done;
      (destruct (smp !! "predict") as [p|]; simpl;
       [|by rewrite ?lookup_insert_ne by done]).
    - destruct (match p with OTuple _ | OList _ => _ | _ => _ end); simpl;
        [by rewrite !lookup_insert_eq | by rewrite !lookup_insert_ne].
    - destruct (reinsert o c1 c2 p); simpl;
        [by rewrite !lookup_insert_eq | by rewrite !lookup_insert_ne]. }
  intros run. split_and!; try done; apply Hrun; done.
Qed.

(** C10. Both inverse methods take the stored parameter as one text or as a
    list or tuple of texts, and of a list or tuple they parse the first
    element only: let the parameter be the text of [(shp, lo, hi)], alone
    or followed in a list or tuple by any further elements [rest], with a
    box that lies inside the recorded spatial shape [sp], and let the
    prediction have the spatial shape of the box.  Then in all three cases
    the inverse succeeds and leaves the same array [out]: its shape is
    [[B, C'] + sp], it holds the prediction inside the box [lo, hi) of the
    first text and zero outside it; [rest] has no part in it. *)
Theorem inverse_reads_first_param_only tr smp g shp lo hi rest sp p b ch :
  let txt := OStr (json_dumps_triple shp lo hi) in
  let run v := backward tr {| sample := <[param_key tr := v]> (<["predict" := OArr p]> smp);
                              rng := g |} in
  drop 1 shp = Z.of_nat <$> sp ->
  box_inside sp (drop 1 lo) (drop 1 hi) ->
  shape p = b :: ch :: (Z.to_nat <$> zip_with Z.sub (drop 1 hi) (drop 1 lo)) ->
  exists out,
    shape out = b :: ch :: sp /\
    (forall i j idx, in_shape (i :: j :: idx) (b :: ch :: sp) = true ->
       data out (i :: j :: idx)
       = if in_box (drop 1 lo) (drop 1 hi) idx
         then data p (i :: j :: zip_with Nat.sub idx (Z.to_nat <$> drop 1 lo))
         else 0) /\
    forall v, v = txt \/ v = OList (txt :: rest) \/ v = OTuple (txt :: rest) ->
      (run v).2 = Ret tt /\ sample (run v).1 !! "predict" = Some (OArr out).
Proof.
  intros txt run Hshp Hin Hp.
  assert (param_key tr <> "predict") as Hk by (by destruct tr).
  destruct (box_inside_length _ _ _ Hin) as [Hllo Hlhi].
  rewrite <- (region_shape_inside _ _ _ Hin) in Hp.
  destruct (backward_embeds tr
              {| sample := <[param_key tr := txt]> (<["predict" := OArr p]> smp);
                 rng := g |} shp lo hi sp p b ch)
    as (s1 & out & Hrun & Hout & Hso & Hdata); try done.
  { apply recorded_dumps. simpl. apply lookup_insert_eq. }
  { simpl. rewrite lookup_insert_ne by done. apply lookup_insert_eq. }
  exists out. split_and!; [done..|].
  pose proof (list_param_runs_as_first_text tr (<["predict" := OArr p]> smp) g
                (json_dumps_triple shp lo hi) rest) as (_ & _ & Hl2 & Ht2 & Hl1 & Ht1).
  fold txt in Hl2, Ht2, Hl1, Ht1, Hrun.
  assert ((run txt).2 = Ret tt /\ sample (run txt).1 !! "predict" = Some (OArr out))
    as [Hr2 Hr1] by (unfold run; by rewrite Hrun).
  intros v [->|[->| ->]]; [done| |].
  - unfold run. by rewrite Hl2, Hl1.
  - unfold run. by rewrite Ht2, Ht1.
Qed.

(** the one-channel 3x10 geometry with the box [[1,3) x [6,10)], stored as
    a list whose second element is not even a text, and a prediction that
    is 7 everywhere: the inverse rebuilds the 3x10 array *)
Lemma inverse_reads_first_param_only_witness :
  let txt := OStr (json_dumps_triple [1; 3; 10] [0; 1; 6] [1; 3; 10]) in
  let p := full_array [1; 1; 2; 4]%nat 7 in
  let run v := backward (TRandom uniform_crop)
                 {| sample := <[RandomCrop.Param := v]> (<["predict" := OArr p]> corner_sample);
                    rng := [] |} in
  exists out,
    shape out = [1; 1; 3; 10]%nat /\
    data out [0; 0; 1; 6]%nat = 7 /\ data out [0; 0; 0; 6]%nat = 0 /\
    (run txt).2 = Ret tt /\ sample (run txt).1 !! "predict" = Some (OArr out) /\
    (run (OList [txt; OArr corner_image])).2 = Ret tt /\
    sample (run (OList [txt; OArr corner_image])).1 !! "predict" = Some (OArr out) /\
    (run (OTuple [txt; OArr corner_image])).2 = Ret tt /\
    sample (run (OTuple [txt; OArr corner_image])).1 !! "predict" = Some (OArr out).
Proof.
  intros txt p run.
  destruct (inverse_reads_first_param_only (TRandom uniform_crop) corner_sample []
              [1; 3; 10] [0; 1; 6] [1; 3; 10] [OArr corner_image] [3; 10]%nat p 1%nat 1%nat)
    as (out & Hs & Hd & Hv).
  - reflexivity.
  - unfold box_inside. simpl. repeat constructor; lia.
  - reflexivity.
  - exists out. split_and!.
    + done.
    + apply (Hd 0%nat 0%nat [1; 6]%nat). reflexivity.
    + apply (Hd 0%nat 0%nat [0; 6]%nat). reflexivity.
    + apply (Hv txt). by left.
    + apply (Hv txt). by left.
    + apply (Hv (OList [txt; OArr corner_image])). right. by left.
    + apply (Hv (OList [txt; OArr corner_image])). right. by left.
    + apply (Hv (OTuple [txt; OArr corner_image])). by right; right.
    + apply (Hv (OTuple [txt; OArr corner_image])). by right; right.
Defined.

(** ** Two runs in full *)

(** The channel entry of the stored [crop_max] stays that of the image while
    the two-channel label is cropped with its own. *)
Example stored_channels_beside_a_two_channel_label :
  let s' := (forward (TCrop centered_crop) corner_state).1 in
  recorded CropWithBoundingBox.Param s' = Ret ([1; 3; 10], [0; 2; 8], [1; 3; 12]) /\
  (exists label_t, sample s' !! "label" = Some (OArr label_t) /\
     shape label_t = [2; 1; 2]%nat) /\
  (exists weight, sample s' !! "weight" = Some (OArr weight) /\
     shape weight = [1; 2; 2]%nat).
Proof.
  vm_compute. split_and!; [reflexivity|..]; eexists; split; reflexivity.
Qed.

(** An image of shape [1, 10, 10, 10] cropped to [4, 4, 4] has shape
    [1, 4, 4, 4], and a prediction of shape [1, 2, 4, 4, 4] is put back into
    an array of shape [1, 2, 10, 10, 10]. *)
Example shapes_of_a_random_crop_and_its_inverse :
  let tr := random_with (PList [4; 4; 4]) false PNone in
  let s0 := {| sample := {[ "image" := OArr (full_array [1; 10; 10; 10]%nat 1) ]};
               rng := [3; 9; 20]%nat |} in
  let s1 := (RandomCrop.call tr s0).1 in
  let s2 := (RandomCrop.inverse_transform_for_prediction tr
               {| sample := <["predict" := OArr (full_array [1; 2; 4; 4; 4]%nat 7)]>
                              (sample s1);
                  rng := rng s1 |}).1 in
  (exists image_t, sample s1 !! "image" = Some (OArr image_t) /\
     shape image_t = [1; 4; 4; 4]%nat) /\
  (exists out, sample s2 !! "predict" = Some (OArr out) /\
     shape out = [1; 2; 10; 10; 10]%nat).
Proof.
  vm_compute. split; eexists; split; reflexivity.
Qed.

(** * Further properties of the transforms *)

(** ** Which entries a run can touch *)

Lemma same_outside_refl keys m : same_outside keys m m.
Proof. by intros k _. Qed.

Lemma same_outside_trans keys m1 m2 m3 :
  same_outside keys m1 m2 -> same_outside keys m2 m3 -> same_outside keys m1 m3.
Proof. intros H1 H2 k Hk. by rewrite H2, H1. Qed.

Lemma same_outside_nil m m' : same_outside [] m m' -> m' = m.
Proof. intros H. apply map_eq. intros k. apply H, not_elem_of_nil. Qed.

Lemma same_outside_insert keys k v m : k ∈ keys -> same_outside keys m (<[k := v]> m).
Proof.
  intros Hk k' Hk'. rewrite lookup_insert_ne; [done|]. by intros ->.
Qed.

Lemma touches_only_ret keys {A} (a : A) : touches_only keys (mret a).
Proof. intros s. apply same_outside_refl. Qed.

Lemma touches_only_lift keys {A} (o : outcome A) : touches_only keys (lift o).
Proof. intros s. apply same_outside_refl. Qed.

Lemma touches_only_get keys k : touches_only keys (sample_get k).
Proof.
  intros s. unfold sample_get. destruct (sample s !! k); apply same_outside_refl.
Qed.

Lemma touches_only_has keys k : touches_only keys (sample_has k).
Proof. intros s. apply same_outside_refl. Qed.

Lemma touches_only_set keys k v : k ∈ keys -> touches_only keys (sample_set k v).
Proof. intros Hk s. by apply same_outside_insert. Qed.

Lemma touches_only_randint keys a b : touches_only keys (randint a b).
Proof.
  intros s. unfold randint. destruct (b <? a); [apply same_outside_refl|].
  destruct (next_draw (rng s)). apply same_outside_refl.
Qed.

Lemma touches_only_random keys : touches_only keys random.
Proof.
  intros s. unfold random. destruct (next_draw (rng s)) as [n g].
  destruct (next_draw g). apply same_outside_refl.
Qed.

Lemma touches_only_bind keys {A B} (m : M A) (f : A -> M B) :
  touches_only keys m -> (forall a, touches_only keys (f a)) ->
  touches_only keys (m ≫= f).
Proof.
  intros Hm Hf s. specialize (Hm s). unfold mbind, M_bind.
  destruct (m s) as [s1 [a|e]]; [|done].
  eapply same_outside_trans; [exact Hm | apply Hf].
Qed.

Lemma touches_only_comprehensionM keys {A B} (f : A -> M B) l :
  (forall x, touches_only keys (f x)) -> touches_only keys (comprehensionM f l).
Proof.
  intros Hf. induction l as [|x r IH]; simpl; [apply touches_only_ret|].
  apply touches_only_bind; [done|]. intros y.
  apply touches_only_bind; [done|]. intros ys. apply touches_only_ret.
Qed.

(** walks through the statements of a run, whatever their outcome *)
Ltac solve_touches :=
  repeat first
    [ apply touches_only_bind; [|intros ?]
    | apply touches_only_ret | apply touches_only_lift | apply touches_only_get
    | apply touches_only_has | apply touches_only_randint | apply touches_only_random
    | apply touches_only_comprehensionM; intros ?
    | apply touches_only_set; set_solver
    | match goal with |- touches_only _ (if ?b then _ else _) => destruct b end
    | match goal with |- touches_only _ (let '(_, _) := ?p in _) => destruct p end ].

Lemma touches_only_forward tr :
  touches_only [param_key tr; "image"; "label"; "weight"] (forward tr).
Proof.
  destruct tr as [self|self]; simpl.
  - unfold CropWithBoundingBox.call. solve_touches.
  - unfold RandomCrop.call. solve_touches.
Qed.

Lemma touches_only_backward tr : touches_only ["predict"] (backward tr).
Proof.
  destruct tr as [self|self]; simpl;
    unfold CropWithBoundingBox.inverse_transform_for_prediction,
      RandomCrop.inverse_transform_for_prediction; solve_touches.
Qed.

(** ** Runs that do not use the random source *)

Lemma no_random_ret {A} (a : A) : no_random (mret a).
Proof. intros smp. by exists smp, (Ret a). Qed.

Lemma no_random_lift {A} (o : outcome A) : no_random (lift o).
Proof. intros smp. by exists smp, o. Qed.

Lemma no_random_get k : no_random (sample_get k).
Proof.
  intros smp. unfold sample_get. simpl.
  destruct (smp !! k) as [v|]; [by exists smp, (Ret v) | by exists smp, (Raise KeyError)].
Qed.

Lemma no_random_has k : no_random (sample_has k).
Proof. intros smp. by exists smp, (Ret (bool_decide (is_Some (smp !! k)))). Qed.

Lemma no_random_set k v : no_random (sample_set k v).
Proof. intros smp. by exists (<[k := v]> smp), (Ret tt). Qed.

Lemma no_random_bind {A B} (m : M A) (f : A -> M B) :
  no_random m -> (forall a, no_random (f a)) -> no_random (m ≫= f).
Proof.
  intros Hm Hf smp. destruct (Hm smp) as (smp1 & [a|e] & H1).
  - destruct (Hf a smp1) as (smp2 & o & H2). exists smp2, o. intros g.
    unfold mbind, M_bind. by rewrite H1, H2.
  - exists smp1, (Raise e). intros g. unfold mbind, M_bind. by rewrite H1.
Qed.

Ltac solve_no_random :=
  repeat first
    [ apply no_random_bind; [|intros ?]
    | apply no_random_ret | apply no_random_lift | apply no_random_get
    | apply no_random_has | apply no_random_set
    | match goal with |- no_random (if ?b then _ else _) => destruct b end
    | match goal with |- no_random (let '(_, _) := ?p in _) => destruct p end ].

Lemma no_random_crop_call self : no_random (CropWithBoundingBox.call self).
Proof. unfold CropWithBoundingBox.call. solve_no_random. Qed.

Lemma no_random_backward tr : no_random (backward tr).
Proof.
  destruct tr as [self|self]; simpl;
    unfold CropWithBoundingBox.inverse_transform_for_prediction,
      RandomCrop.inverse_transform_for_prediction; solve_no_random.
Qed.

(** ** The frame of the two methods *)

(** X1.  Whatever the outcome of a forward pass of either transform -- a
    return or an exception at any statement -- the entries of the sample
    other than the parameter key of the transform, ['image'], ['label'] and
    ['weight'] are what they were before the call. *)
Theorem forward_touches_only_its_keys tr s k :
  k ∉ [param_key tr; "image"; "label"; "weight"] ->
  sample (forward tr s).1 !! k = sample s !! k.
Proof. apply touches_only_forward. Qed.

Lemma forward_touches_only_its_keys_witness :
  let s0 := {| sample := <["names" := OStr "case_01"]> corner_sample; rng := [] |} in
  (forward (TRandom (random_with (PList [2; 40]) false PNone)) s0).2 = Raise ValueError /\
  sample (forward (TRandom (random_with (PList [2; 40]) false PNone)) s0).1 !! "names"
  = Some (OStr "case_01").
Proof.
  split; [vm_compute; reflexivity|].
  rewrite (forward_touches_only_its_keys _ _ "names"); [vm_compute; reflexivity|].
  rewrite !not_elem_of_cons. split_and!; try (simpl; discriminate).
  apply not_elem_of_nil.
Defined.

(** X2.  [inverse_transform_for_prediction] writes the sample once, in its
    last statement: when it raises, at whatever statement, the sample and
    the random source are exactly as before the call. *)
Theorem backward_failure_changes_nothing tr s e :
  (backward tr s).2 = Raise e -> (backward tr s).1 = s.
Proof.
  destruct s as [smp g]. destruct tr as [self|self]; simpl;
    unfold CropWithBoundingBox.inverse_transform_for_prediction,
      RandomCrop.inverse_transform_for_prediction;
    unfold mbind, M_bind, sample_get, lift, sample_set, mret, M_ret; simpl;
    repeat (case_match; simpl; try done); intros; by simplify_eq.
Qed.

Lemma backward_failure_changes_nothing_witness :
  (backward (TCrop centered_crop) corner_state).2 = Raise KeyError /\
  (backward (TCrop centered_crop) corner_state).1 = corner_state.
Proof.
  split; [vm_compute; reflexivity|].
  apply (backward_failure_changes_nothing _ _ KeyError). vm_compute. reflexivity.
Defined.

(** X3.  [inverse_transform_for_prediction] of either transform changes no
    entry of the sample but ['predict'], whatever its outcome, and it never
    draws from the random source. *)
Theorem backward_changes_predict_only tr s :
  rng (backward tr s).1 = rng s /\
  forall k, k <> "predict" -> sample (backward tr s).1 !! k = sample s !! k.
Proof.
  split.
  - destruct s as [smp g]. destruct (no_random_backward tr smp) as (smp' & o & H).
    by rewrite H.
  - intros k Hk. apply touches_only_backward. by intros ->%list_elem_of_singleton.
Qed.

(** X4.  [CropWithBoundingBox.__call__] never reads the random source: run
    on the same sample with two different futures of the generator it gives
    the same sample and the same outcome, and it leaves the generator where
    it was. *)
Theorem bounding_box_crop_ignores_random_source self smp g g' :
  let r := CropWithBoundingBox.call self {| sample := smp; rng := g |} in
  let r' := CropWithBoundingBox.call self {| sample := smp; rng := g' |} in
  sample r.1 = sample r'.1 /\ r.2 = r'.2 /\ rng r.1 = g.
Proof.
  destruct (no_random_crop_call self smp) as (smp' & o & H). simpl.
  by rewrite !H.
Qed.

(** ** Following a run through its statements, whatever their outcome *)

Lemma touches_nothing {A} (c : M A) s : touches_only [] c -> sample (c s).1 = sample s.
Proof. intros H. apply (same_outside_nil _ _ (H s)). Qed.

(** a statement that leaves the sample alone, then the rest *)
Lemma bind_silent_elim {A B} (m : M A) (f : A -> M B) s (Q : state * outcome B -> Prop) :
  touches_only [] m ->
  (forall s1 e, sample s1 = sample s -> m s = (s1, Raise e) -> Q (s1, Raise e)) ->
  (forall s1 a, sample s1 = sample s -> m s = (s1, Ret a) -> Q (f a s1)) ->
  Q ((m ≫= f) s).
Proof.
  intros Hm He Ha. pose proof (touches_nothing m s Hm) as Hs.
  unfold mbind, M_bind. destruct (m s) as [s1 [a|e]] eqn:E; simpl in Hs; auto.
Qed.

Lemma bind_lift_elim {A B} (o : outcome A) (f : A -> M B) s (Q : state * outcome B -> Prop) :
  (forall e, o = Raise e -> Q (s, Raise e)) ->
  (forall a, o = Ret a -> Q (f a s)) ->
  Q ((lift o ≫= f) s).
Proof. intros He Ha. unfold mbind, M_bind, lift. destruct o; auto. Qed.

Lemma bind_get_elim {B} k (f : pyobj -> M B) s (Q : state * outcome B -> Prop) :
  (sample s !! k = None -> Q (s, Raise KeyError)) ->
  (forall v, sample s !! k = Some v -> Q (f v s)) ->
  Q ((sample_get k ≫= f) s).
Proof.
  intros He Ha. unfold mbind, M_bind, sample_get. destruct (sample s !! k); auto.
Qed.

Lemma bind_set_eq {B} k v (f : unit -> M B) s :
  (sample_set k v ≫= f) s = f tt {| sample := <[k := v]> (sample s); rng := rng s |}.
Proof. done. Qed.

Lemma touches_only_after_store image cmin cmax :
  touches_only ["image"; "label"; "weight"]
    (image_t ← lift (crop_ND_volume_with_bounding_box image cmin cmax);
     _ ← sample_set "image" (OArr image_t);
     crop_max ← crop_entry "label" image cmin cmax;
     crop_max ← crop_entry "weight" image cmin crop_max;
     mret tt).
Proof. solve_touches. Qed.

(** [store_and_crop] writes the parameter before anything else, and nothing
    after that touches it *)
Lemma store_and_crop_any key image pmin cmaxs s :
  key ∉ ["image"; "label"; "weight"] ->
  sample (store_and_crop key image pmin cmaxs s).1 = sample s \/
  exists cmin0, pmin = PList cmin0 /\
    sample (store_and_crop key image pmin cmaxs s).1 !! key
    = Some (OStr (json_dumps_triple (shapeZ image) (0 :: cmin0)
                    (take 1 (shapeZ image) ++ cmaxs))).
Proof.
  intros Hkey. unfold store_and_crop.
  destruct pmin as [| |cmin0|]; try (by left).
  right. exists cmin0. split; [done|].
  cbn [list_add]. apply bind_lift_elim; [done|]. intros cmin [= <-].
  rewrite bind_set_eq.
  rewrite (touches_only_after_store image ([0] ++ cmin0) _ _ key Hkey).
  simpl. apply lookup_insert_eq.
Qed.

Lemma store_and_crop_records tr image pmin cmaxs s s0 :
  sample s0 !! "image" = Some (OArr image) -> sample s = sample s0 ->
  let r := store_and_crop (param_key tr) image pmin cmaxs s in
  sample r.1 = sample s0 \/
  exists cmin cmax, recorded (param_key tr) r.1 = Ret (shapeZ image, cmin, cmax).
Proof.
  intros Himg Hs r.
  destruct (store_and_crop_any (param_key tr) image pmin cmaxs s) as [H|(c & _ & H)].
  - destruct tr; simpl; rewrite !not_elem_of_cons; split_and!; try discriminate;
      apply not_elem_of_nil.
  - left. subst r. congruence.
  - right. eexists _, _. by apply recorded_dumps.
Qed.

(** X5.  The geometry is the first thing a forward pass writes: whenever a
    call of either transform has changed the sample at all -- also a call
    that raised while it cropped the image, the label or the weight -- the
    parameter entry is there and reads back as the shape of the original
    image with the crop bounds. *)
Theorem forward_records_geometry_first tr s :
  sample (forward tr s).1 = sample s \/
  exists image cmin cmax,
    sample s !! "image" = Some (OArr image) /\
    recorded (param_key tr) (forward tr s).1 = Ret (shapeZ image, cmin, cmax).
Proof.
  set (Q := fun r : state * outcome unit =>
    sample r.1 = sample s \/
    exists image cmin cmax, sample s !! "image" = Some (OArr image) /\
      recorded (param_key tr) r.1 = Ret (shapeZ image, cmin, cmax)).
  change (Q (forward tr s)).
  assert (forall image pmin cmaxs s1,
    sample s !! "image" = Some (OArr image) -> sample s1 = sample s ->
    Q (store_and_crop (param_key tr) image pmin cmaxs s1)) as Hstore.
  { intros image pmin cmaxs s1 Himg Hs1.
    destruct (store_and_crop_records tr image pmin cmaxs s1 s Himg Hs1) as [H|(a & b & H)];
      [by left | right; eauto]. }
  destruct tr as [self|self]; simpl forward.
  - unfold CropWithBoundingBox.call.
    apply bind_get_elim; [by left|]. intros v Hv.
    apply bind_lift_elim; [by left|]. intros image ->%as_array_inv.
    apply bind_lift_elim; [by left|]. intros bb _.
    apply bind_lift_elim; [by left|]. intros cc _.
    by apply (Hstore image).
  - unfold RandomCrop.call.
    apply bind_get_elim; [by left|]. intros v Hv.
    apply bind_lift_elim; [by left|]. intros image ->%as_array_inv.
    apply bind_lift_elim; [by left|]. intros n _.
    apply bind_lift_elim; [by left|]. intros u _.
    apply bind_lift_elim; [by left|]. intros margin _.
    apply bind_silent_elim; [solve_touches | by left |]. intros s1 cmin0 Hs1 _.
    apply bind_silent_elim; [solve_touches | left; simpl; congruence |]. intros s2 focus Hs2 _.
    apply bind_silent_elim; [solve_touches | left; simpl; congruence |]. intros s3 cmin Hs3 _.
    apply bind_lift_elim; [left; simpl; congruence|]. intros cmax _.
    apply (Hstore image); congruence.
Qed.

(** ** The geometry that [CropWithBoundingBox] records, case by case *)

(** what a successful [CropWithBoundingBox.__call__] has computed and
    stored *)
Lemma crop_call_recorded self s s' :
  CropWithBoundingBox.call self s = (s', Ret tt) ->
  exists image bb cmin0 cmaxs image_t,
    sample s !! "image" = Some (OArr image) /\
    get_ND_bounding_box image = Ret bb /\
    CropWithBoundingBox.bounds self (Z.of_nat (length (shape image)) - 1)
      (drop 1 bb.1) (drop 1 bb.2) = Ret (PList cmin0, cmaxs) /\
    recorded CropWithBoundingBox.Param s'
      = Ret (shapeZ image, 0 :: cmin0, take 1 (shapeZ image) ++ cmaxs) /\
    crop_ND_volume_with_bounding_box image (0 :: cmin0) (take 1 (shapeZ image) ++ cmaxs)
      = Ret image_t /\
    sample s' !! "image" = Some (OArr image_t).
Proof.
  intros (image & bb & [pmin cmaxs] & Himg & Hbb & Hb & Hst)%crop_call_inv.
  apply store_and_crop_inv in Hst
    as (cmin0 & image_t & Hp & Hcrop & Hkey & Himg' & _); [|done..].
  simpl in Hp. subst pmin.
  exists image, bb, cmin0, cmaxs, image_t. split_and!; try done.
  by apply recorded_dumps.
Qed.

(** X6.  With neither [start] nor [output_size] (lines 36-37) a successful
    [CropWithBoundingBox.__call__] records the bounding box of the image as
    it is, only with the channel entries replaced by 0 and the channel
    count, and the image entry becomes the crop of the image with exactly
    the recorded bounds. *)
Theorem box_crop_records_bounding_box self s s' :
  CropWithBoundingBox.start self = PNone ->
  CropWithBoundingBox.output_size self = PNone ->
  CropWithBoundingBox.call self s = (s', Ret tt) ->
  exists image bb image_t,
    sample s !! "image" = Some (OArr image) /\
    get_ND_bounding_box image = Ret bb /\
    let cmin := 0 :: drop 1 bb.1 in
    let cmax := take 1 (shapeZ image) ++ drop 1 bb.2 in
    recorded CropWithBoundingBox.Param s' = Ret (shapeZ image, cmin, cmax) /\
    crop_ND_volume_with_bounding_box image cmin cmax = Ret image_t /\
    sample s' !! "image" = Some (OArr image_t).
Proof.
  intros Hs Ho (image & bb & cmin0 & cmaxs & image_t & Himg & Hbb & Hb & Hrec & Hcrop & Hi)
    %crop_call_recorded.
  rewrite (bounds_box _ _ _ _ Hs Ho) in Hb. injection Hb as <- <-.
  exists image, bb, image_t. done.
Qed.

Lemma box_crop_records_bounding_box_witness :
  let self := crop_with PNone PNone in
  let s' := (CropWithBoundingBox.call self corner_state).1 in
  recorded CropWithBoundingBox.Param s' = Ret ([1; 3; 10], [0; 1; 9], [1; 2; 10]) /\
  exists image bb image_t,
    sample corner_state !! "image" = Some (OArr image) /\
    get_ND_bounding_box image = Ret bb /\
    let cmin := 0 :: drop 1 bb.1 in
    let cmax := take 1 (shapeZ image) ++ drop 1 bb.2 in
    recorded CropWithBoundingBox.Param s' = Ret (shapeZ image, cmin, cmax) /\
    crop_ND_volume_with_bounding_box image cmin cmax = Ret image_t /\
    sample s' !! "image" = Some (OArr image_t).
Proof.
  split; [vm_compute; reflexivity|].
  apply (box_crop_records_bounding_box (crop_with PNone PNone) corner_state).
  - reflexivity.
  - reflexivity.
  - vm_compute. reflexivity.
Defined.

(** X7.  With [start] a list and [output_size] a list or tuple (lines 46
    and 52) a successful [CropWithBoundingBox.__call__] records
    [crop_min = [0] + start] and [crop_max = [C] + [start[i] + output_size[i]]],
    whatever the image holds: [start] is taken as given, negative entries
    included, it has one entry per spatial axis, and entries of
    [output_size] beyond the spatial axes are ignored. *)
Theorem explicit_crop_records_start_and_size self s s' starts outs :
  CropWithBoundingBox.start self = PList starts ->
  items (CropWithBoundingBox.output_size self) = Ret outs ->
  CropWithBoundingBox.call self s = (s', Ret tt) ->
  exists image,
    sample s !! "image" = Some (OArr image) /\
    S (length starts) = length (shape image) /\
    (length starts <= length outs)%nat /\
    recorded CropWithBoundingBox.Param s'
    = Ret (shapeZ image, 0 :: starts,
           take 1 (shapeZ image) ++ zip_with Z.add starts outs).
Proof.
  intros Hs Ho (image & bb & cmin0 & cmaxs & image_t & Himg & Hbb & Hb & Hrec & Hcrop & Hi)
    %crop_call_recorded.
  apply crop_inv in Hcrop as (Hl1 & _).
  apply bounds_explicit in Hb as (starts' & Hst & Hlen & Hp & Hlc & Hax).
  2:{ by rewrite Hs. }
  2:{ intros E. by rewrite E in Ho. }
  rewrite Hs in Hst, Hp. injection Hst as <-. injection Hp as ->.
  simpl in Hl1.
  assert (forall i : nat, (i < length starts)%nat ->
    exists c o, starts !! i = Some c /\ outs !! i = Some o /\ cmaxs !! i = Some (c + o))
    as Hax'.
  { intros i Hi'. destruct (Hax i ltac:(lia)) as (outs' & c & o & Ho' & Hc & Hoi & Hm).
    rewrite Ho in Ho'. injection Ho' as <-. eauto. }
  assert (length starts <= length outs)%nat as Hle.
  { destruct (decide (length starts = 0)%nat) as [->|Hne]; [lia|].
    destruct (Hax' (length starts - 1)%nat ltac:(lia)) as (c & o & _ & Hoi & _).
    apply lookup_lt_Some in Hoi. lia. }
  exists image. split_and!; [done|lia|done|].
  rewrite Hrec. do 3 f_equal. apply list_eq. intros i.
  rewrite lookup_zip_with.
  destruct (decide (i < length starts)%nat) as [Hi'|Hi'].
  - destruct (Hax' i Hi') as (c & o & -> & -> & ->). done.
  - rewrite (lookup_ge_None_2 starts) by lia. simpl.
    apply lookup_ge_None_2. lia.
Qed.

Lemma explicit_crop_records_start_and_size_witness :
  let self := crop_with (PList [-1; 8]) (PTuple [2; 5; 7]) in
  exists image,
    sample corner_state !! "image" = Some (OArr image) /\
    S (length [-1; 8]%Z) = length (shape image) /\
    (length [-1; 8]%Z <= length [2; 5; 7]%Z)%nat /\
    recorded CropWithBoundingBox.Param (CropWithBoundingBox.call self corner_state).1
    = Ret (shapeZ image, 0 :: [-1; 8],
           take 1 (shapeZ image) ++ zip_with Z.add [-1; 8] [2; 5; 7]).
Proof.
  apply (explicit_crop_records_start_and_size
           (crop_with (PList [-1; 8]) (PTuple [2; 5; 7])) corner_state).
  - reflexivity.
  - reflexivity.
  - vm_compute. reflexivity.
Defined.

(** the bounds are computed alike for a [start] written as a list and as a
    tuple; only the object that becomes [crop_min] differs *)
Lemma bounds_of_tuple_start starts os inv dim bb_min bb_max :
  CropWithBoundingBox.bounds
    (CropWithBoundingBox.init (CropWithBoundingBox.Params (PTuple starts) os inv))
    dim bb_min bb_max
  = cc ← CropWithBoundingBox.bounds
           (CropWithBoundingBox.init (CropWithBoundingBox.Params (PList starts) os inv))
           dim bb_min bb_max;
    Ret (PTuple starts, cc.2).
Proof.
  unfold CropWithBoundingBox.bounds, CropWithBoundingBox.init. simpl.
  destruct (py_assert _); simpl; [|done].
  destruct (is_none os); simpl.
  - destruct (py_len os); simpl; [|done]. destruct (py_assert _); simpl; [|done].
    by destruct (comprehension _ _).
  - by destruct (comprehension _ _).
Qed.

(** X8.  A [start] given as a tuple, which the docstring of [__init__]
    allows and [__init__] accepts, never works: [[0] + crop_min] at line 53
    concatenates a list with a tuple.  Every call raises and leaves the
    sample as it was; on a sample on which the same [start] written as a
    list succeeds, the exception is the TypeError of line 53. *)
Theorem tuple_start_always_raises starts os inv s :
  let as_tuple :=
    CropWithBoundingBox.init (CropWithBoundingBox.Params (PTuple starts) os inv) in
  let as_list :=
    CropWithBoundingBox.init (CropWithBoundingBox.Params (PList starts) os inv) in
  (exists e, CropWithBoundingBox.call as_tuple s = (s, Raise e)) /\
  (forall s', CropWithBoundingBox.call as_list s = (s', Ret tt) ->
     CropWithBoundingBox.call as_tuple s = (s, Raise TypeError)).
Proof.
  intros as_tuple as_list.
  assert (forall (Q : state * outcome unit -> Prop),
    (forall e, Q (s, Raise e)) -> Q (CropWithBoundingBox.call as_tuple s)) as Hall.
  { intros Q HQ. unfold CropWithBoundingBox.call.
    apply bind_get_elim; [done|]. intros v Hv.
    apply bind_lift_elim; [done|]. intros image _.
    apply bind_lift_elim; [done|]. intros bb _.
    apply bind_lift_elim; [done|]. intros cc Hcc.
    unfold as_tuple in Hcc. rewrite bounds_of_tuple_start in Hcc.
    destruct (CropWithBoundingBox.bounds _ _ _ _) as [cc'|]; [|done].
    injection Hcc as <-. apply HQ. }
  split.
  - apply (Hall (fun r => exists e, r = (s, Raise e))). eauto.
  - intros s' (image & bb & [pmin cmaxs] & Himg & Hbb & Hb & _)%crop_call_inv.
    unfold CropWithBoundingBox.call.
    apply bind_get_elim; [by rewrite Himg|]. intros v Hv.
    rewrite Himg in Hv. injection Hv as <-. simpl as_array.
    apply bind_lift_elim; [done|]. intros ? [= <-].
    rewrite Hbb. apply bind_lift_elim; [done|]. intros ? [= <-].
    unfold as_tuple. rewrite bounds_of_tuple_start.
    unfold shapeZ. rewrite length_fmap. fold as_list. rewrite Hb. done.
Qed.

Lemma tuple_start_always_raises_witness :
  CropWithBoundingBox.call
    (CropWithBoundingBox.init (CropWithBoundingBox.Params (PList [0; 1]) (PList [2; 2]) true))
    corner_state
  = ((CropWithBoundingBox.call
        (CropWithBoundingBox.init
           (CropWithBoundingBox.Params (PList [0; 1]) (PList [2; 2]) true))
        corner_state).1, Ret tt) /\
  CropWithBoundingBox.call
    (CropWithBoundingBox.init (CropWithBoundingBox.Params (PTuple [0; 1]) (PList [2; 2]) true))
    corner_state
  = (corner_state, Raise TypeError).
Proof.
  split; [vm_compute; reflexivity|].
  eapply (proj2 (tuple_start_always_raises [0; 1] (PList [2; 2]) true corner_state)).
  vm_compute. reflexivity.
Defined.

Lemma axis_min_le_max nz k : (axis_min nz k <= axis_max nz k)%nat.
Proof.
  unfold axis_min, axis_max. destruct nz as [|q nz]; [done|]. simpl.
  induction nz as [|q' nz IH]; simpl; lia.
Qed.

Lemma get_ND_bounding_box_ordered volume bb (k : nat) a b :
  get_ND_bounding_box volume = Ret bb ->
  bb.1 !! k = Some a -> bb.2 !! k = Some b -> 0 <= a < b.
Proof.
  unfold get_ND_bounding_box. destruct (nonzero volume) as [|q nz]; [discriminate|].
  intros [= <-]. cbn [fst snd]. rewrite !list_lookup_fmap.
  destruct (seq 0 (length (shape volume)) !! k) as [k'|]; [|done].
  cbn [fmap option_fmap option_map]. intros [= <-] [= <-].
  pose proof (axis_min_le_max (q :: nz) k'). lia.
Qed.

(** the centered mode, axis by axis, on the sample *)
Lemma centered_call_axes self s s' outs :
  CropWithBoundingBox.start self = PNone ->
  items (CropWithBoundingBox.output_size self) = Ret outs ->
  CropWithBoundingBox.call self s = (s', Ret tt) ->
  exists image bb cmin cmax,
    sample s !! "image" = Some (OArr image) /\
    get_ND_bounding_box image = Ret bb /\
    recorded CropWithBoundingBox.Param s' = Ret (shapeZ image, cmin, cmax) /\
    forall (i : nat) o, outs !! i = Some o ->
      exists a b,
        bb.1 !! S i = Some a /\ bb.2 !! S i = Some b /\ 0 <= a < b /\
        cmin !! S i = Some (Z.max 0 (Z.quot (a + b + 1) 2 - Z.quot o 2)) /\
        cmax !! S i = Some (Z.max 0 (Z.quot (a + b + 1) 2 - Z.quot o 2) + o).
Proof.
  intros Hs Ho (image & bb & cmin0 & cmaxs & image_t & Himg & Hbb & Hb & Hrec & Hcrop & Hi)
    %crop_call_recorded.
  apply crop_inv in Hcrop as (Hl1 & Hl2 & _).
  apply bounds_centered in Hb as (outs' & cmin' & Ho' & Hlo & [= <-] & _ & _ & Hb);
    [|done|by destruct (CropWithBoundingBox.output_size self)].
  rewrite Ho in Ho'. injection Ho' as <-.
  exists image, bb, (0 :: cmin0), (take 1 (shapeZ image) ++ cmaxs).
  split_and!; try done.
  intros i o Hoi. pose proof (lookup_lt_Some _ _ _ Hoi) as Hlt.
  destruct (Hb i ltac:(lia)) as (a & b & o' & Ha & Hb' & Hoi' & Hmin & Hmax).
  rewrite Hoi in Hoi'. injection Hoi' as <-.
  rewrite lookup_drop in Ha, Hb'. simpl in Ha, Hb'.
  exists a, b. split_and!; try done.
  - by eapply get_ND_bounding_box_ordered.
  - by eapply get_ND_bounding_box_ordered.
  - unfold shapeZ in *. by destruct (shape image) as [|c sp].
Qed.

(** X9.  The centered crop (no [start], [output_size] given) keeps the
    bounding box inside on every spatial axis on which [output_size] is
    larger than the extent [bb_max - bb_min] of the box: the recorded
    [crop_min] is at most [bb_min] and the recorded [crop_max] at least
    [bb_max]. *)
Theorem centered_crop_contains_bounding_box self s s' outs :
  CropWithBoundingBox.start self = PNone ->
  items (CropWithBoundingBox.output_size self) = Ret outs ->
  CropWithBoundingBox.call self s = (s', Ret tt) ->
  exists image bb cmin cmax,
    sample s !! "image" = Some (OArr image) /\
    get_ND_bounding_box image = Ret bb /\
    recorded CropWithBoundingBox.Param s' = Ret (shapeZ image, cmin, cmax) /\
    forall (i : nat) o, outs !! i = Some o ->
      exists a b lo hi,
        bb.1 !! S i = Some a /\ bb.2 !! S i = Some b /\
        cmin !! S i = Some lo /\ cmax !! S i = Some hi /\
        (b - a < o -> lo <= a /\ b <= hi).
Proof.
  intros Hs Ho (image & bb & cmin & cmax & Himg & Hbb & Hrec & Hax)%(centered_call_axes _ _ _ outs);
    [|done..].
  exists image, bb, cmin, cmax. split_and!; try done.
  intros i o Hoi. destruct (Hax i o Hoi) as (a & b & Ha & Hb & Hab & Hlo & Hhi).
  eexists a, b, _, _. split_and!; try done.
  intros Hext. Z.to_euclidean_division_equations. lia.
Qed.

Lemma centered_crop_contains_bounding_box_witness :
  let self := crop_with PNone (PList [2; 4]) in
  exists image bb cmin cmax,
    sample corner_state !! "image" = Some (OArr image) /\
    get_ND_bounding_box image = Ret bb /\
    recorded CropWithBoundingBox.Param (CropWithBoundingBox.call self corner_state).1
      = Ret (shapeZ image, cmin, cmax) /\
    forall (i : nat) o, [2; 4] !! i = Some o ->
      exists a b lo hi,
        bb.1 !! S i = Some a /\ bb.2 !! S i = Some b /\
        cmin !! S i = Some lo /\ cmax !! S i = Some hi /\
        (b - a < o -> lo <= a /\ b <= hi).
Proof.
  apply (centered_crop_contains_bounding_box (crop_with PNone (PList [2; 4])) corner_state).
  - reflexivity.
  - reflexivity.
  - vm_compute. reflexivity.
Defined.

(** X10.  The centered crop is not centered for odd sizes.  Asked for
    exactly the size of the bounding box ([output_size = bb_max - bb_min] on
    an axis), it records the bounding box itself when that size is even, but
    the box shifted by one when it is odd: the [+ 1] in
    [int((bb_min + bb_max + 1)/2)] of line 40 is not matched in
    [int(output_size/2)], so the first voxel of the bounding box is cut off
    and one voxel behind it is taken in. *)
Theorem centered_crop_of_box_size_is_shifted_for_odd_sizes self s s' outs :
  CropWithBoundingBox.start self = PNone ->
  items (CropWithBoundingBox.output_size self) = Ret outs ->
  CropWithBoundingBox.call self s = (s', Ret tt) ->
  exists image bb cmin cmax,
    sample s !! "image" = Some (OArr image) /\
    get_ND_bounding_box image = Ret bb /\
    recorded CropWithBoundingBox.Param s' = Ret (shapeZ image, cmin, cmax) /\
    forall (i : nat) o, outs !! i = Some o ->
      exists a b,
        bb.1 !! S i = Some a /\ bb.2 !! S i = Some b /\
        (o = b - a ->
         cmin !! S i = Some (a + o mod 2) /\ cmax !! S i = Some (b + o mod 2)).
Proof.
  intros Hs Ho (image & bb & cmin & cmax & Himg & Hbb & Hrec & Hax)%(centered_call_axes _ _ _ outs);
    [|done..].
  exists image, bb, cmin, cmax. split_and!; try done.
  intros i o Hoi. destruct (Hax i o Hoi) as (a & b & Ha & Hb & Hab & Hlo & Hhi).
  exists a, b. split_and!; try done.
  intros ->. rewrite Hlo, Hhi. split; f_equal; Z.to_euclidean_division_equations; lia.
Qed.

Lemma centered_crop_of_box_size_is_shifted_for_odd_sizes_witness :
  let self := crop_with PNone (PList [1; 1]) in
  recorded CropWithBoundingBox.Param (CropWithBoundingBox.call self corner_state).1
  = Ret ([1; 3; 10], [0; 2; 10], [1; 3; 11]) /\
  exists image bb cmin cmax,
    sample corner_state !! "image" = Some (OArr image) /\
    get_ND_bounding_box image = Ret bb /\
    recorded CropWithBoundingBox.Param (CropWithBoundingBox.call self corner_state).1
      = Ret (shapeZ image, cmin, cmax) /\
    forall (i : nat) o, [1; 1] !! i = Some o ->
      exists a b,
        bb.1 !! S i = Some a /\ bb.2 !! S i = Some b /\
        (o = b - a ->
         cmin !! S i = Some (a + o mod 2) /\ cmax !! S i = Some (b + o mod 2)).
Proof.
  intros self. split; [vm_compute; reflexivity|].
  apply (centered_crop_of_box_size_is_shifted_for_odd_sizes self corner_state).
  - reflexivity.
  - reflexivity.
  - vm_compute. reflexivity.
Defined.

(** ** Statements that succeed *)

Lemma comprehension_succeeds {A B} (f : A -> outcome B) l :
  Forall (fun x => exists y, f x = Ret y) l -> exists ys, comprehension f l = Ret ys.
Proof.
  induction 1 as [|x r [y Hy] _ [ys IH]]; simpl; [by eexists|].
  rewrite Hy, outcome_ret_bind, IH. by eexists.
Qed.

Lemma comprehension_range_succeeds {B} (f : Z -> outcome B) n :
  (forall i : nat, Z.of_nat i < n -> exists y, f (Z.of_nat i) = Ret y) ->
  exists ys, comprehension f (range n) = Ret ys.
Proof.
  intros H. apply comprehension_succeeds, Forall_forall. intros x Hx.
  apply elem_of_seqZ in Hx. destruct (H (Z.to_nat x) ltac:(lia)) as [y Hy].
  rewrite Z2Nat.id in Hy by lia. eauto.
Qed.

Lemma getitem_nat_ok l (i : nat) x : l !! i = Some x -> getitem l (Z.of_nat i) = Ret x.
Proof. intros H. by rewrite getitem_nat, H. Qed.

Lemma getitem_succ_nat_ok l (i : nat) x :
  l !! S i = Some x -> getitem l (Z.of_nat i + 1) = Ret x.
Proof.
  intros H. replace (Z.of_nat i + 1) with (Z.of_nat (S i)) by lia.
  by apply getitem_nat_ok.
Qed.

Lemma py_getitem_nat_ok p l (i : nat) x :
  items p = Ret l -> l !! i = Some x -> py_getitem p (Z.of_nat i) = Ret x.
Proof. intros Hp H. unfold py_getitem. rewrite Hp. by apply getitem_nat_ok. Qed.

Lemma randint_succeeds a b s :
  a <= b -> exists r g, randint a b s = ({| sample := sample s; rng := g |}, Ret r).
Proof.
  intros H. unfold randint. destruct (b <? a) eqn:E; [apply Z.ltb_lt in E; lia|].
  destruct (next_draw (rng s)) as [d g]. by eexists _, _.
Qed.

Lemma randint_empty_range a b s : b < a -> randint a b s = (s, Raise ValueError).
Proof. intros H. unfold randint. by rewrite (proj2 (Z.ltb_lt b a) H). Qed.

(** the uniform draws of line 138 succeed on margins that are not negative
    and raise on the first negative one *)
Lemma randint_margins_succeed margin s :
  Forall (Z.le 0) margin ->
  exists s1 cmin0, comprehensionM (fun item => randint 0 item) margin s = (s1, Ret cmin0).
Proof.
  intros H. revert s. induction H as [|x r Hx _ IH]; intros s; simpl.
  - by eexists _, _.
  - destruct (randint_succeeds 0 x s Hx) as (y & g & Hy).
    rewrite (bind_ret_eq _ _ _ _ _ Hy).
    destruct (IH {| sample := sample s; rng := g |}) as (s1 & ys & Hys).
    rewrite (bind_ret_eq _ _ _ _ _ Hys). by eexists _, _.
Qed.

Lemma randint_margins_raise margin s :
  Exists (fun x => x < 0) margin ->
  exists s1, comprehensionM (fun item => randint 0 item) margin s = (s1, Raise ValueError)
    /\ sample s1 = sample s.
Proof.
  revert s. induction margin as [|x r IH]; intros s H; [by apply Exists_nil in H|].
  simpl. destruct (Z.lt_ge_cases x 0) as [Hx|Hx].
  - exists s. split; [|done].
    by rewrite (bind_raise_eq _ _ _ _ _ (randint_empty_range 0 x s Hx)).
  - apply Exists_cons in H as [H|H]; [lia|].
    destruct (randint_succeeds 0 x s Hx) as (y & g & Hy).
    rewrite (bind_ret_eq _ _ _ _ _ Hy).
    destruct (IH {| sample := sample s; rng := g |} H) as (s1 & Hr & Hs1).
    exists s1. split; [|done]. by rewrite (bind_raise_eq _ _ _ _ _ Hr).
Qed.

(** the margins of line 136 *)
Lemma crop_margin_succeeds self image outs :
  items (RandomCrop.output_size self) = Ret outs ->
  S (length outs) = length (shape image) ->
  exists margin,
    comprehension (fun i =>
        s ← getitem (shapeZ image) (i + 1);
        o ← py_getitem (RandomCrop.output_size self) i;
        Ret (s - o)) (range (Z.of_nat (length (shapeZ image)) - 1)) = Ret margin /\
    length margin = length outs /\
    forall (i : nat) n o, shape image !! S i = Some n -> outs !! i = Some o ->
      margin !! i = Some (Z.of_nat n - o).
Proof.
  intros Ho Hlen.
  assert (Z.of_nat (length (shapeZ image)) - 1 = Z.of_nat (length outs)) as ->.
  { unfold shapeZ. rewrite length_fmap. lia. }
  assert (forall i : nat, Z.of_nat i < Z.of_nat (length outs) ->
    exists n o, shape image !! S i = Some n /\ outs !! i = Some o /\
      (s ← getitem (shapeZ image) (Z.of_nat i + 1);
       o ← py_getitem (RandomCrop.output_size self) (Z.of_nat i);
       Ret (s - o)) = Ret (Z.of_nat n - o)) as Hel.
  { intros i Hi.
    destruct (lookup_lt_is_Some_2 (shape image) (S i) ltac:(lia)) as [n Hn].
    destruct (lookup_lt_is_Some_2 outs i ltac:(lia)) as [o Hoi].
    exists n, o. split_and!; [done..|].
    rewrite (getitem_succ_nat_ok _ _ (Z.of_nat n)), outcome_ret_bind.
    2:{ unfold shapeZ. by rewrite list_lookup_fmap, Hn. }
    by rewrite (py_getitem_nat_ok _ _ _ _ Ho Hoi). }
  destruct (comprehension_range_succeeds (fun i =>
      s ← getitem (shapeZ image) (i + 1);
      o ← py_getitem (RandomCrop.output_size self) i;
      Ret (s - o)) (Z.of_nat (length outs))) as [margin Hm].
  { intros i Hi. destruct (Hel i Hi) as (n & o & _ & _ & H). eauto. }
  exists margin. split; [done|].
  apply comprehension_range in Hm as [Hl Hm]. split; [lia|].
  intros i n o Hn Hoi. pose proof (lookup_lt_Some _ _ _ Hoi) as Hi.
  destruct (Hm i ltac:(lia)) as (y & Hy & E).
  destruct (Hel i ltac:(lia)) as (n' & o' & Hn' & Ho' & E').
  rewrite E in E'. simplify_eq. done.
Qed.

(** X11.  [RandomCrop] cannot crop more than the image has: when
    [output_size] exceeds the image on some spatial axis, the uniform draw of
    line 138 is asked for a number between 0 and a negative margin, and the
    call raises ValueError before it has written anything to the sample. *)
Theorem random_crop_larger_than_image_raises self s image outs (i : nat) n o :
  sample s !! "image" = Some (OArr image) ->
  items (RandomCrop.output_size self) = Ret outs ->
  S (length outs) = length (shape image) ->
  shape image !! S i = Some n -> outs !! i = Some o -> Z.of_nat n < o ->
  exists s', RandomCrop.call self s = (s', Raise ValueError) /\ sample s' = sample s.
Proof.
  intros Himg Ho Hlen Hn Hoi Hlt. unfold RandomCrop.call.
  rewrite (bind_get_eq _ _ _ _ Himg). simpl as_array.
  erewrite bind_lift_eq; [|reflexivity].
  unfold py_len. rewrite Ho, outcome_ret_bind.
  erewrite bind_lift_eq; [|reflexivity].
  assert ((Z.of_nat (length (shapeZ image)) - 1 =? Z.of_nat (length outs)) = true) as ->.
  { apply Z.eqb_eq. unfold shapeZ. rewrite length_fmap. lia. }
  erewrite bind_lift_eq; [|reflexivity].
  destruct (crop_margin_succeeds self image outs Ho Hlen) as (margin & Hm & _ & Hmi).
  rewrite Hm. erewrite bind_lift_eq; [|reflexivity].
  destruct (randint_margins_raise margin s) as (s1 & Hr & Hs1).
  { apply Exists_exists. exists (Z.of_nat n - o). split; [|lia].
    eapply list_elem_of_lookup_2, Hmi; done. }
  exists s1. split; [|done]. by erewrite bind_raise_eq.
Qed.

Lemma random_crop_larger_than_image_raises_witness :
  exists s', RandomCrop.call (random_with (PList [2; 11]) false PNone) corner_state
             = (s', Raise ValueError) /\ sample s' = sample corner_state.
Proof.
  apply (random_crop_larger_than_image_raises _ _ corner_image [2; 11] 1%nat 10%nat 11).
  - reflexivity.
  - reflexivity.
  - reflexivity.
  - reflexivity.
  - reflexivity.
  - lia.
Defined.

(** ** Foreground focus *)

Lemma random_init_inv p self :
  RandomCrop.init p = Ret self ->
  RandomCrop.output_size self = RandomCrop.randomcrop_output_size p /\
  RandomCrop.fg_focus self = RandomCrop.randomcrop_foreground_focus p /\
  RandomCrop.fg_ratio self = RandomCrop.randomcrop_foreground_ratio p /\
  RandomCrop.mask_label self = RandomCrop.randomcrop_mask_label p /\
  RandomCrop.inverse self = RandomCrop.randomcrop_inverse p /\
  is_list_or_tuple (RandomCrop.output_size self) = true.
Proof.
  unfold RandomCrop.init. intros H. step H as u Hu. step H as u' Hu'.
  injection H as <-. simpl in *. split_and!; try done. by apply py_assert_inv in Hu.
Qed.

(** X12.  [__init__] accepts foreground focus without [mask_label], and
    nothing checks that the sample has a label; but with
    [foreground_focus] set and [foreground_ratio >= 1] the focus branch is
    taken in every call, and it reads [sample['label']] and iterates over
    [mask_label].  Such a transform raises in every call on a sample
    without label, and in every call on every sample when [mask_label] is
    None; the sample is left as it was. *)
Theorem foreground_focus_needs_label_and_mask_label p self s :
  RandomCrop.init p = Ret self ->
  RandomCrop.randomcrop_foreground_focus p = true ->
  (1 <= RandomCrop.randomcrop_foreground_ratio p)%Q ->
  RandomCrop.randomcrop_mask_label p = PNone \/ sample s !! "label" = None ->
  exists s' e, RandomCrop.call self s = (s', Raise e) /\ sample s' = sample s.
Proof.
  intros (Hos & Hfg & Hratio & Hml & _ & _)%random_init_inv Hfocus Hr Hmiss.
  rewrite <-Hfg in Hfocus. rewrite <-Hratio in Hr. rewrite <-Hml in Hmiss.
  set (Q := fun r : state * outcome unit =>
    exists s' e, r = (s', Raise e) /\ sample s' = sample s).
  change (Q (RandomCrop.call self s)).
  assert (forall s1 e, sample s1 = sample s -> Q (s1, Raise e)) as Hraise.
  { intros s1 e Hs1. by exists s1, e. }
  unfold RandomCrop.call.
  apply bind_get_elim; [intros; by apply Hraise|]. intros v Hv.
  apply bind_lift_elim; [intros; by apply Hraise|]. intros image _.
  apply bind_lift_elim; [intros; by apply Hraise|]. intros n _.
  apply bind_lift_elim; [intros; by apply Hraise|]. intros u _.
  apply bind_lift_elim; [intros; by apply Hraise|]. intros margin _.
  apply bind_silent_elim; [solve_touches | intros; by apply Hraise |]. intros s1 cmin0 Hs1 _.
  apply bind_silent_elim; [solve_touches | intros; apply Hraise; congruence |].
  intros s2 focus Hs2 Hf.
  apply focus_decision_inv in Hf as [_ Hf]. rewrite (Hf Hfocus Hr).
  apply bind_silent_elim; [solve_touches | intros; apply Hraise; congruence |].
  intros s3 cmin Hs3 Hfgc. exfalso.
  unfold RandomCrop.fg_crop_min in Hfgc.
  step Hfgc as lv Hlv. step Hfgc as label Hlabel. step Hfgc as labs Hlabs.
  destruct Hmiss as [Hnone|Hnone].
  - by rewrite Hnone in Hlabs.
  - rewrite Hs2, Hs1, Hnone in Hlv. done.
Qed.

Lemma foreground_focus_needs_label_and_mask_label_witness :
  let p := RandomCrop.Params (PList [2; 4]) true 1 PNone true in
  RandomCrop.init p = Ret (random_with (PList [2; 4]) true PNone) /\
  exists s' e, RandomCrop.call (random_with (PList [2; 4]) true PNone) corner_state
               = (s', Raise e) /\ sample s' = sample corner_state.
Proof.
  split; [reflexivity|].
  apply (foreground_focus_needs_label_and_mask_label
           (RandomCrop.Params (PList [2; 4]) true 1 PNone true)).
  - reflexivity.
  - reflexivity.
  - vm_compute. discriminate.
  - left. reflexivity.
Defined.

(** ** When cropping succeeds *)

Lemma bind_has_eq {B} k (f : bool -> M B) s :
  (sample_has k ≫= f) s = f (bool_decide (is_Some (sample s !! k))) s.
Proof. done. Qed.

Lemma crop_succeeds volume lo hi :
  length lo = length (shape volume) -> length hi = length (shape volume) ->
  exists out, crop_ND_volume_with_bounding_box volume lo hi = Ret out.
Proof.
  intros H1 H2. unfold crop_ND_volume_with_bounding_box, same_rank.
  rewrite H1, H2, !Nat.eqb_refl. by eexists.
Qed.

Lemma crop_entry_succeeds k image cmin cmax s :
  length cmin = length (shape image) -> length cmax = length (shape image) ->
  shape image <> [] -> croppable k (sample s) ->
  exists s' cmax', crop_entry k image cmin cmax s = (s', Ret cmax') /\
    length cmax' = length cmax.
Proof.
  intros Hl1 Hl2 Hne [Hk|(arr & Hk & Harr)]; unfold crop_entry; rewrite bind_has_eq, Hk.
  - rewrite bool_decide_eq_false_2 by (by intros [? ?]). by eexists _, _.
  - rewrite bool_decide_eq_true_2 by eauto.
    rewrite (bind_get_eq _ _ _ _ Hk). simpl as_array.
    erewrite bind_lift_eq; [|reflexivity].
    destruct (decide _) as [Heq|_]; [|by eexists _, _].
    assert (length (shape arr) = length (shape image)) as Hrank.
    { destruct (shape arr) as [|ck sp]; [done|].
      destruct (shape image) as [|c sp']; [done|].
      simpl in Heq. rewrite !drop_0 in Heq. by subst. }
    assert (exists ck, getitem (shapeZ arr) 0 = Ret ck) as [ck Hck].
    { change 0 with (Z.of_nat 0). rewrite getitem_nat. unfold shapeZ.
      destruct (shape arr); [done|]. by eexists. }
    rewrite Hck. erewrite bind_lift_eq; [|reflexivity].
    assert (exists cmax', setitem0 cmax ck = Ret cmax' /\ length cmax' = length cmax)
      as (cmax' & Hset & Hlen').
    { destruct cmax as [|h cmax]; [|by eexists].
      destruct (shape image); done. }
    rewrite Hset. erewrite bind_lift_eq; [|reflexivity].
    destruct (crop_succeeds arr cmin cmax') as [arr_t Hcrop]; [congruence..|].
    rewrite Hcrop. erewrite bind_lift_eq; [|reflexivity]. rewrite bind_set_eq.
    by eexists _, _.
Qed.

Lemma store_and_crop_succeeds key image cmin0 cmaxs s :
  key <> "label" -> key <> "weight" ->
  S (length cmin0) = length (shape image) -> length cmaxs = length cmin0 ->
  croppable "label" (sample s) -> croppable "weight" (sample s) ->
  exists s', store_and_crop key image (PList cmin0) cmaxs s = (s', Ret tt).
Proof.
  intros Hk1 Hk2 Hl1 Hl2 Hlab Hw. unfold store_and_crop.
  assert (shape image <> []) as Hne by (by destruct (shape image)).
  assert (length (0 :: cmin0) = length (shape image)) as Hlmin by (simpl; lia).
  assert (length (take 1 (shapeZ image) ++ cmaxs) = length (shape image)) as Hlmax.
  { rewrite length_app, length_take. unfold shapeZ. rewrite length_fmap. lia. }
  change (list_add [0] (PList cmin0)) with (Ret (0 :: cmin0)).
  erewrite bind_lift_eq; [|reflexivity]. rewrite bind_set_eq.
  destruct (crop_succeeds image _ _ Hlmin Hlmax) as [image_t Hcrop].
  rewrite Hcrop. erewrite bind_lift_eq; [|reflexivity]. rewrite bind_set_eq.
  set (s1 := {| sample := _; rng := _ |}).
  destruct (crop_entry_succeeds "label" image (0 :: cmin0)
              (take 1 (shapeZ image) ++ cmaxs) s1) as (s2 & cmax2 & H2 & Hlen2);
    [done..| |].
  { unfold croppable, s1. simpl. rewrite !lookup_insert_ne by done. exact Hlab. }
  rewrite (bind_ret_eq _ _ _ _ _ H2).
  apply crop_entry_inv in H2 as H2'. destruct H2' as (_ & Hf2 & _ & _).
  destruct (crop_entry_succeeds "weight" image (0 :: cmin0) cmax2 s2)
    as (s3 & cmax3 & H3 & _); [done|congruence|done| |].
  { unfold croppable. rewrite Hf2 by done. unfold s1. simpl.
    rewrite !lookup_insert_ne by done. exact Hw. }
  rewrite (bind_ret_eq _ _ _ _ _ H3). by eexists.
Qed.

(** the shape of a box of sizes [outs] that lies inside the array *)
Lemma region_shape_sizes sp lo hi outs :
  length outs = length sp -> Forall (Z.le 0) outs ->
  (forall (i : nat) o, outs !! i = Some o ->
     exists c n, lo !! i = Some c /\ sp !! i = Some n /\
       0 <= c <= Z.of_nat n - o /\ hi !! i = Some (c + o)) ->
  region_shape sp lo hi = Z.to_nat <$> outs.
Proof.
  revert lo hi outs. induction sp as [|n sp IH]; intros lo hi [|o outs] Hl Hpos H;
    try done.
  destruct (H 0%nat o eq_refl) as (c & n' & Hc & Hn & Hb & Hh).
  destruct lo as [|c' lo]; [done|]. destruct hi as [|h' hi]; [done|].
  simpl in *. simplify_eq. apply Forall_cons in Hpos as [Ho Hpos].
  f_equal.
  - unfold slice_len, slice_bound. lia.
  - apply IH; [lia|done|]. intros i o' Hi. apply (H (S i) o' Hi).
Qed.

(** X13.  After a successful [RandomCrop.__call__] with an [output_size]
    of sizes (no negative entry) the image has exactly the shape
    [[C] + output_size], [C] its channel count, and so have the label and
    the weight with their own channel counts when their spatial shape is
    that of the image -- in the uniform and in the foreground branch, for
    every draw.  (The box is read as the half-open box
    [crop_min, crop_max), as everywhere in this development.) *)
Theorem random_crop_output_shape self s s' outs :
  RandomCrop.call self s = (s', Ret tt) ->
  items (RandomCrop.output_size self) = Ret outs ->
  Forall (Z.le 0) outs ->
  exists image,
    sample s !! "image" = Some (OArr image) /\
    forall k arr, k ∈ ["image"; "label"; "weight"] ->
      sample s !! k = Some (OArr arr) ->
      drop 1 (shape arr) = drop 1 (shape image) ->
      exists arr_t, sample s' !! k = Some (OArr arr_t) /\
        shape arr_t = take 1 (shape arr) ++ (Z.to_nat <$> outs).
Proof.
  intros H Ho Hpos. apply (forward_inv (TRandom self)) in H
    as (image & c & cmin & cmax & image_t & Himg & Hc & Hl1 & Hl2 & Hc1 & Hc2
        & _ & Hcrop & Himg' & Hlab & Hw & (outs' & Ho' & Hlen & Hax)).
  simpl in Ho'. rewrite Ho in Ho'. injection Ho' as <-.
  exists image. split; [done|].
  destruct cmin as [|x cmin]; [done|]. destruct cmax as [|y cmax]; [done|].
  destruct (shape image) as [|c' sp] eqn:Hshape; [done|].
  simpl in Hc, Hc1, Hc2, Hl1, Hl2, Hlen, Hax. simplify_eq. rewrite !drop_0 in Hax.
  assert (forall ck, region_shape (ck :: sp) (0 :: cmin) (Z.of_nat ck :: cmax)
                     = ck :: (Z.to_nat <$> outs)) as Hreg.
  { intros ck. simpl. rewrite slice_len_full. f_equal.
    apply region_shape_sizes; [lia|done|]. intros i o Hoi.
    destruct (Hax i o Hoi) as (c0 & n & ? & ? & ? & ?). exists c0, n. done. }
  assert (forall k, k = "label" \/ k = "weight" ->
    entry_cropped k image (0 :: cmin) (Z.of_nat c :: cmax) (sample s) (sample s') ->
    forall arr, sample s !! k = Some (OArr arr) ->
      drop 1 (shape arr) = drop 1 (shape image) ->
      exists arr_t, sample s' !! k = Some (OArr arr_t) /\
        shape arr_t = take 1 (shape arr) ++ (Z.to_nat <$> outs)) as Hentry.
  { intros k _ He arr Hk Hsp. unfold entry_cropped in He. rewrite Hk in He.
    destruct He as (arr' & [= <-] & He). rewrite decide_True in He by done.
    destruct He as (ck & arr_t & Hck & Hcr & Hk').
    exists arr_t. split; [done|].
    apply crop_inv in Hcr as (_ & _ & ->).
    destruct (shape arr) as [|ck' sp'] eqn:Harr; [done|].
    rewrite Hshape in Hsp. simpl in Hsp, Hck. rewrite !drop_0 in Hsp.
    simplify_eq. simpl take. rewrite take_0. apply Hreg. }
  intros k arr Hk Harr Hsp.
  rewrite !elem_of_cons in Hk. destruct Hk as [->|[->|[->|Hk]]].
  - rewrite Himg in Harr. injection Harr as <-. exists image_t. split; [done|].
    apply crop_inv in Hcrop as (_ & _ & ->). rewrite Hshape.
    simpl take. rewrite take_0. apply Hreg.
  - apply (Hentry "label"); auto. by rewrite Hshape.
  - apply (Hentry "weight"); auto. by rewrite Hshape.
  - by apply elem_of_nil in Hk.
Qed.

Lemma random_crop_output_shape_witness :
  exists image,
    sample corner_state !! "image" = Some (OArr image) /\
    forall k arr, k ∈ ["image"; "label"; "weight"] ->
      sample corner_state !! k = Some (OArr arr) ->
      drop 1 (shape arr) = drop 1 (shape image) ->
      exists arr_t,
        sample (RandomCrop.call uniform_crop corner_state).1 !! k = Some (OArr arr_t) /\
        shape arr_t = take 1 (shape arr) ++ (Z.to_nat <$> [2; 4]).
Proof.
  apply (random_crop_output_shape uniform_crop corner_state _ [2; 4]).
  - vm_compute. reflexivity.
  - reflexivity.
  - repeat constructor; lia.
Defined.

(** X14.  The uniform branch of [RandomCrop.__call__] cannot fail on a
    well-formed sample: with foreground focus off, an image with a channel
    axis, an [output_size] with one entry per spatial axis that is not
    larger than the image there, and a label and a weight that are absent or
    arrays with at least one axis, the call returns, whatever the random
    source holds. *)
Theorem uniform_random_crop_succeeds self s image c sp outs :
  sample s !! "image" = Some (OArr image) -> shape image = c :: sp ->
  items (RandomCrop.output_size self) = Ret outs ->
  RandomCrop.fg_focus self = false ->
  Forall2 (fun o n => o <= Z.of_nat n) outs sp ->
  croppable "label" (sample s) -> croppable "weight" (sample s) ->
  exists s', RandomCrop.call self s = (s', Ret tt).
Proof.
  intros Himg Hshape Ho Hfg Hfit Hlab Hw.
  pose proof (Forall2_length _ _ _ Hfit) as Hlen.
  assert (S (length outs) = length (shape image)) as Hlen'.
  { rewrite Hshape. simpl. lia. }
  unfold RandomCrop.call.
  rewrite (bind_get_eq _ _ _ _ Himg). simpl as_array.
  erewrite bind_lift_eq; [|reflexivity].
  unfold py_len. rewrite Ho, outcome_ret_bind.
  erewrite bind_lift_eq; [|reflexivity].
  assert (Z.of_nat (length (shapeZ image)) - 1 = Z.of_nat (length outs)) as Hdim.
  { unfold shapeZ. rewrite length_fmap. lia. }
  rewrite (proj2 (Z.eqb_eq _ _) Hdim).
  erewrite bind_lift_eq; [|reflexivity].
  destruct (crop_margin_succeeds self image outs Ho Hlen') as (margin & Hm & Hlm & Hmi).
  rewrite Hm. erewrite bind_lift_eq; [|reflexivity].
  destruct (randint_margins_succeed margin s) as (s1 & cmin0 & Hc0).
  { apply Forall_lookup. intros i m Hmi'.
    pose proof (lookup_lt_Some _ _ _ Hmi') as Hi.
    destruct (lookup_lt_is_Some_2 outs i ltac:(lia)) as [o Hoi].
    destruct (Forall2_lookup_l _ _ _ _ _ Hfit Hoi) as (n & Hn & Hle).
    rewrite (Hmi i n o) in Hmi'; [|by rewrite Hshape|done].
    injection Hmi' as <-. lia. }
  rewrite (bind_ret_eq _ _ _ _ _ Hc0). rewrite Hfg.
  erewrite bind_ret_eq; [|reflexivity]. erewrite bind_ret_eq; [|reflexivity].
  rewrite Hdim in Hm.
  destruct (margins_nonneg _ _ _ _ _ _ _ Ho Hm Hc0) as (Hs1 & Hl0 & _).
  rewrite Hdim.
  destruct (comprehension_range_succeeds (fun i =>
      c ← getitem cmin0 i;
      o ← py_getitem (RandomCrop.output_size self) i;
      Ret (c + o)) (Z.of_nat (length outs))) as [cmax Hx].
  { intros i Hi.
    destruct (lookup_lt_is_Some_2 cmin0 i ltac:(lia)) as [c0 Hci].
    destruct (lookup_lt_is_Some_2 outs i ltac:(lia)) as [o Hoi].
    rewrite (getitem_nat_ok _ _ _ Hci), outcome_ret_bind.
    rewrite (py_getitem_nat_ok _ _ _ _ Ho Hoi). by eexists. }
  rewrite Hx. erewrite bind_lift_eq; [|reflexivity].
  apply comprehension_range in Hx as [Hlx _]. rewrite Nat2Z.id in Hlx.
  apply store_and_crop_succeeds; try done; try lia; by rewrite Hs1.
Qed.

Lemma uniform_random_crop_succeeds_witness :
  exists s', RandomCrop.call uniform_crop corner_state = (s', Ret tt).
Proof.
  apply (uniform_random_crop_succeeds uniform_crop corner_state
           corner_image 1%nat [3; 10]%nat [2; 4]).
  - reflexivity.
  - reflexivity.
  - reflexivity.
  - reflexivity.
  - repeat constructor; lia.
  - right. eexists. split; [reflexivity|]. simpl. discriminate.
  - right. eexists. split; [reflexivity|]. simpl. discriminate.
Defined.

(** the draws that make line 138 choose the offsets [cs] *)
Lemma randint_margins_reach smp margin : forall cs g,
  Forall2 (fun m c => 0 <= c <= m) margin cs ->
  comprehensionM (fun item => randint 0 item) margin
    {| sample := smp; rng := (Z.to_nat <$> cs) ++ g |}
  = ({| sample := smp; rng := g |}, Ret cs).
Proof.
  induction margin as [|m margin IH]; intros cs g H.
  - apply Forall2_nil_inv_l in H as ->. done.
  - apply Forall2_cons_inv_l in H as (c & cs' & Hc & H & ->).
    rewrite fmap_cons. simpl.
    erewrite bind_ret_eq.
    2:{ unfold randint. simpl.
        destruct (m <? 0) eqn:E; [apply Z.ltb_lt in E; lia|]. reflexivity. }
    rewrite (bind_ret_eq _ _ _ _ _ (IH cs' g H)).
    unfold mret, M_ret. do 3 f_equal.
    rewrite Z2Nat.id by lia. rewrite Z.mod_small; lia.
Qed.

(** X15.  The uniform branch of [RandomCrop.__call__] can place the box at
    every admissible offset, the last one included: on a well-formed sample,
    for every choice of offsets with [0 <= c[i] <= input_shape[i+1] -
    output_size[i]] there is a state of the random source for which the call
    returns and records [crop_min = [0] + c] and
    [crop_max = [C] + [c[i] + output_size[i]]]. *)
Theorem uniform_random_crop_reaches_every_offset self smp image c sp outs cs :
  smp !! "image" = Some (OArr image) -> shape image = c :: sp ->
  items (RandomCrop.output_size self) = Ret outs ->
  RandomCrop.fg_focus self = false ->
  croppable "label" smp -> croppable "weight" smp ->
  length outs = length sp -> length cs = length sp ->
  (forall (i : nat) x o n, cs !! i = Some x -> outs !! i = Some o -> sp !! i = Some n ->
     0 <= x <= Z.of_nat n - o) ->
  exists g s',
    RandomCrop.call self {| sample := smp; rng := g |} = (s', Ret tt) /\
    recorded RandomCrop.Param s'
    = Ret (shapeZ image, 0 :: cs, Z.of_nat c :: zip_with Z.add cs outs).
Proof.
  intros Himg Hshape Ho Hfg Hlab Hw Hlo Hlc Hcs.
  assert (S (length outs) = length (shape image)) as Hlen'.
  { rewrite Hshape. simpl. lia. }
  assert (Z.of_nat (length (shapeZ image)) - 1 = Z.of_nat (length outs)) as Hdim.
  { unfold shapeZ. rewrite length_fmap. lia. }
  destruct (crop_margin_succeeds self image outs Ho Hlen') as (margin & Hm & Hlm & Hmi).
  assert (Forall2 (fun m x => 0 <= x <= m) margin cs) as Hreach.
  { apply Forall2_same_length_lookup. split; [lia|]. intros i m x Hmi' Hx.
    destruct (lookup_lt_is_Some_2 outs i) as [o Hoi].
    { apply lookup_lt_Some in Hx. lia. }
    destruct (lookup_lt_is_Some_2 sp i) as [n Hn].
    { apply lookup_lt_Some in Hx. lia. }
    rewrite (Hmi i n o) in Hmi'; [|by rewrite Hshape|done].
    injection Hmi' as <-. by eapply Hcs. }
  assert (exists cmax,
    comprehension (fun i =>
        x ← getitem cs i; o ← py_getitem (RandomCrop.output_size self) i;
        Ret (x + o)) (range (Z.of_nat (length outs))) = Ret cmax /\
    cmax = zip_with Z.add cs outs) as (cmax & Hx & Hcmax).
  { destruct (comprehension_range_succeeds (fun i =>
        x ← getitem cs i; o ← py_getitem (RandomCrop.output_size self) i;
        Ret (x + o)) (Z.of_nat (length outs))) as [cmax Hx].
    { intros i Hi.
      destruct (lookup_lt_is_Some_2 cs i ltac:(lia)) as [x Hxi].
      destruct (lookup_lt_is_Some_2 outs i ltac:(lia)) as [o Hoi].
      rewrite (getitem_nat_ok _ _ _ Hxi), outcome_ret_bind.
      rewrite (py_getitem_nat_ok _ _ _ _ Ho Hoi). by eexists. }
    exists cmax. split; [done|].
    apply comprehension_range in Hx as [Hlx Hel]. rewrite Nat2Z.id in Hlx.
    apply list_eq. intros i. rewrite lookup_zip_with.
    destruct (decide (i < length outs)%nat) as [Hi|Hi].
    - destruct (Hel i ltac:(lia)) as (y & -> & E).
      step E as x Hxi. step E as o Hoi. injection E as <-.
      apply getitem_nat_inv in Hxi. apply (py_getitem_nat_inv _ _ _ _ Ho) in Hoi.
      by rewrite Hxi, Hoi.
    - rewrite (lookup_ge_None_2 cs) by lia. simpl. apply lookup_ge_None_2. lia. }
  destruct (store_and_crop_succeeds RandomCrop.Param image cs cmax
              {| sample := smp; rng := [] |}) as [s' Hst]; try done.
  { rewrite Hshape. simpl. lia. }
  { rewrite Hcmax, length_zip_with. lia. }
  exists ((Z.to_nat <$> cs) ++ []), s'. split.
  - unfold RandomCrop.call.
    rewrite (bind_get_eq _ _ {| sample := smp; rng := _ |} _ Himg). simpl as_array.
    erewrite bind_lift_eq; [|reflexivity].
    unfold py_len. rewrite Ho, outcome_ret_bind.
    erewrite bind_lift_eq; [|reflexivity].
    rewrite (proj2 (Z.eqb_eq _ _) Hdim).
    erewrite bind_lift_eq; [|reflexivity].
    rewrite Hm. erewrite bind_lift_eq; [|reflexivity].
    rewrite (bind_ret_eq _ _ _ _ _ (randint_margins_reach smp margin cs [] Hreach)).
    rewrite Hfg.
    erewrite bind_ret_eq; [|reflexivity]. erewrite bind_ret_eq; [|reflexivity].
    rewrite Hdim, Hx. erewrite bind_lift_eq; [|reflexivity]. exact Hst.
  - apply store_and_crop_inv in Hst as (cmin0 & image_t & [= <-] & _ & Hkey & _);
      [|done..].
    apply recorded_dumps. rewrite Hkey. unfold shapeZ. rewrite Hshape, Hcmax. done.
Qed.

Lemma uniform_random_crop_reaches_every_offset_witness :
  exists g s',
    RandomCrop.call uniform_crop {| sample := corner_sample; rng := g |} = (s', Ret tt) /\
    recorded RandomCrop.Param s'
    = Ret (shapeZ corner_image, 0 :: [1; 6], 1 :: zip_with Z.add [1; 6] [2; 4]).
Proof.
  apply (uniform_random_crop_reaches_every_offset uniform_crop corner_sample
           corner_image 1%nat [3; 10]%nat [2; 4] [1; 6]).
  - reflexivity.
  - reflexivity.
  - reflexivity.
  - reflexivity.
  - right. eexists. split; [reflexivity|]. simpl. discriminate.
  - right. eexists. split; [reflexivity|]. simpl. discriminate.
  - reflexivity.
  - reflexivity.
  - intros [|[|i]] x o n Hx Ho Hn; simpl in *; simplify_eq; lia.
Defined.

(** ** The inverse, on what the forward pass recorded *)

(** [reinsert] reads the stored lists only from their second entry on *)
Lemma reinsert_from_second shp1 lo1 hi1 shp2 lo2 hi2 p :
  drop 1 shp1 = drop 1 shp2 -> drop 1 lo1 = drop 1 lo2 -> drop 1 hi1 = drop 1 hi2 ->
  reinsert (JArr (JInt <$> shp1)) (JArr (JInt <$> lo1)) (JArr (JInt <$> hi1)) p
  = reinsert (JArr (JInt <$> shp2)) (JArr (JInt <$> lo2)) (JArr (JInt <$> hi2)) p.
Proof.
  intros H1 H2 H3. unfold reinsert, json_from1.
  by rewrite <-!fmap_drop, H1, H2, H3.
Qed.

(** the last statements of the inverse methods, run on two samples with
    the same prediction *)
Lemma rebuild_and_store_same {A} (f1 f2 : pyobj -> outcome A) (g : A -> pyobj) s1 s2 :
  (forall p, f1 p = f2 p) ->
  sample s1 !! "predict" = sample s2 !! "predict" ->
  let run f := predict ← sample_get "predict"; r ← lift (f predict);
               _ ← sample_set "predict" (g r); mret tt in
  (run f1 s1).2 = (run f2 s2).2 /\
  sample (run f1 s1).1 !! "predict" = sample (run f2 s2).1 !! "predict".
Proof.
  intros Hf Hp. cbv zeta. unfold mbind, M_bind, sample_get. rewrite Hp.
  destruct (sample s2 !! "predict") as [predict|] eqn:E; simpl; [|by rewrite Hp].
  unfold lift. rewrite Hf. destruct (f2 predict) as [r|e]; simpl.
  - by rewrite !lookup_insert_eq.
  - by rewrite Hp, E.
Qed.

(** X16.  The inverse of either transform does not read the channel entries
    of the recorded geometry: [origin_shape[0]], [crop_min[0]] and
    [crop_max[0]] are dropped and replaced by the batch and channel counts of
    the prediction (lines 90-93 and 98-101).  Two recorded geometries that
    agree from the second entry on give the same outcome and the same
    ['predict']. *)
Theorem inverse_ignores_recorded_channel_entries
    tr smp g v1 v2 shp1 lo1 hi1 shp2 lo2 hi2 :
  let s1 := {| sample := <[param_key tr := v1]> smp; rng := g |} in
  let s2 := {| sample := <[param_key tr := v2]> smp; rng := g |} in
  recorded (param_key tr) s1 = Ret (shp1, lo1, hi1) ->
  recorded (param_key tr) s2 = Ret (shp2, lo2, hi2) ->
  drop 1 shp1 = drop 1 shp2 -> drop 1 lo1 = drop 1 lo2 -> drop 1 hi1 = drop 1 hi2 ->
  (backward tr s1).2 = (backward tr s2).2 /\
  sample (backward tr s1).1 !! "predict" = sample (backward tr s2).1 !! "predict".
Proof.
  intros s1 s2 (v1' & Hv1 & Hl1)%recorded_inv (v2' & Hv2 & Hl2)%recorded_inv H1 H2 H3.
  assert (sample s1 !! "predict" = sample s2 !! "predict") as Hp.
  { unfold s1, s2. simpl. rewrite !lookup_insert_ne; [done|by destruct tr..]. }
  pose proof (fun p => reinsert_from_second _ _ _ _ _ _ p H1 H2 H3) as Hre.
  assert (forall l,
    CropWithBoundingBox.reinsert_all (JArr (JInt <$> shp1)) (JArr (JInt <$> lo1))
      (JArr (JInt <$> hi1)) l
    = CropWithBoundingBox.reinsert_all (JArr (JInt <$> shp2)) (JArr (JInt <$> lo2))
        (JArr (JInt <$> hi2)) l) as Hall.
  { intros [|p l]; [done|]. simpl. by rewrite Hre. }
  destruct tr as [self|self]; simpl backward; simpl param_key in *;
    unfold CropWithBoundingBox.inverse_transform_for_prediction,
      RandomCrop.inverse_transform_for_prediction;
    rewrite (bind_get_eq _ _ _ _ Hv1), (bind_get_eq _ _ _ _ Hv2), Hl1, Hl2;
    (erewrite !bind_lift_eq; [|reflexivity..]); cbv iota beta.
  - apply (rebuild_and_store_same
      (fun predict => match predict with
                      | OList l | OTuple l =>
                          outs ← CropWithBoundingBox.reinsert_all _ _ _ l; Ret (OList outs)
                      | _ => r ← reinsert _ _ _ predict; Ret (OArr r.2)
                      end)
      (fun predict => match predict with
                      | OList l | OTuple l =>
                          outs ← CropWithBoundingBox.reinsert_all _ _ _ l; Ret (OList outs)
                      | _ => r ← reinsert _ _ _ predict; Ret (OArr r.2)
                      end) (fun x => x)); [|done].
    intros p. rewrite Hre. by destruct p; rewrite ?Hall.
  - apply (rebuild_and_store_same (reinsert _ _ _) (reinsert _ _ _)
             (fun r => OArr r.2)); done.
Qed.

Lemma inverse_ignores_recorded_channel_entries_witness :
  let smp : gmap string pyobj := {[ "predict" := OArr (full_array [1; 2; 1; 2]%nat 7) ]} in
  let v1 := OStr (json_dumps_triple [1; 3; 10] [0; 2; 8] [1; 3; 12]) in
  let v2 := OStr (json_dumps_triple [7; 3; 10] [5; 2; 8] [9; 3; 12]) in
  let s1 := {| sample := <[CropWithBoundingBox.Param := v1]> smp; rng := [] |} in
  let s2 := {| sample := <[CropWithBoundingBox.Param := v2]> smp; rng := [] |} in
  (backward (TCrop centered_crop) s1).2 = Ret tt /\
  (backward (TCrop centered_crop) s1).2 = (backward (TCrop centered_crop) s2).2 /\
  sample (backward (TCrop centered_crop) s1).1 !! "predict"
  = sample (backward (TCrop centered_crop) s2).1 !! "predict".
Proof.
  split; [vm_compute; reflexivity|].
  apply (inverse_ignores_recorded_channel_entries (TCrop centered_crop) _ _ _ _
           [1; 3; 10] [0; 2; 8] [1; 3; 12] [7; 3; 10] [5; 2; 8] [9; 3; 12]).
  - vm_compute. reflexivity.
  - vm_compute. reflexivity.
  - reflexivity.
  - reflexivity.
  - reflexivity.
Defined.

(** ** Lists of predictions *)

Lemma as_ints_app_JInt (a : list Z) l zs :
  as_ints ((JInt <$> a) ++ l) = Ret zs ->
  exists t, as_ints l = Ret t /\ zs = a ++ t.
Proof.
  intros H%as_ints_inv.
  assert (Inj (=) (=) JInt) as Hinj by (by intros x y [= ->]).
  assert (l = JInt <$> drop (length a) zs) as ->.
  { apply (f_equal (drop (length a))) in H.
    rewrite drop_app_length' in H by (by rewrite length_fmap).
    by rewrite H, fmap_drop. }
  exists (drop (length a) zs). split; [apply as_ints_JInt|].
  apply (f_equal (take (length a))) in H.
  rewrite take_app_length' in H by (by rewrite length_fmap).
  rewrite <-fmap_take in H. apply (inj (fmap JInt)) in H.
  transitivity (take (length a) zs ++ drop (length a) zs);
    [by rewrite take_drop | by rewrite <-H].
Qed.

(** what one round of [reinsert] returns for the next one, and the shape of
    the array it builds *)
Lemma reinsert_shape o cmin cmax v o' cmin' cmax' out origin :
  json_ints o = Ret origin ->
  reinsert o cmin cmax v = Ret (o', cmin', cmax', out) ->
  exists p shp,
    v = OArr p /\ json_ints o' = Ret shp /\
    shape out = Z.to_nat <$> shp /\
    shape out = take 2 (shape p) ++ (Z.to_nat <$> drop 1 origin).
Proof.
  intros ->%json_ints_inv H. unfold reinsert in H.
  step H as p ->%as_array_inv. step H as t [= <-].
  step H as shp Hshp. step H as zeros Hz. step H as t1 Ht1. step H as bb_min Hmin.
  step H as t2 Ht2. step H as bb_max Hmax. step H as out' Hset.
  injection H as <- <- <- <-.
  unfold np_zeros in Hz. destruct (forallb _ _); [|done]. injection Hz as <-.
  unfold set_ND_volume_roi_with_bounding_box_range in Hset.
  destruct (same_rank _ _ _); [|done]. destruct (decide _); [|done].
  injection Hset as <-. simpl shape.
  apply as_ints_app_JInt in Hshp as Hshp'. destruct Hshp' as (t' & Ht' & ->).
  rewrite <-fmap_drop, as_ints_JInt in Ht'. injection Ht' as <-.
  exists p, (take 2 (shapeZ p) ++ drop 1 origin). split_and!; try done.
  rewrite fmap_app. f_equal. unfold shapeZ. rewrite <-fmap_take, <-list_fmap_compose.
  rewrite <-(list_fmap_id (take 2 (shape p))) at 2. apply list_fmap_ext.
  intros ? x _. simpl. lia.
Qed.

Lemma reinsert_all_shapes l : forall o cmin cmax outs origin,
  json_ints o = Ret origin ->
  CropWithBoundingBox.reinsert_all o cmin cmax l = Ret outs ->
  exists arrs, outs = OArr <$> arrs /\ length arrs = length l /\
    forall (i : nat) out, arrs !! i = Some out ->
      exists p, l !! i = Some (OArr p) /\
        shape out = take 2 (shape p) ++
          drop 1 (match i with
                  | O => Z.to_nat <$> origin
                  | S j => default [] (shape <$> arrs !! j)
                  end).
Proof.
  induction l as [|v l IH]; intros o cmin cmax outs origin Ho H; simpl in H.
  - injection H as <-. exists []. split_and!; try done.
  - step H as r Hr. destruct r as [[[o' cmin'] cmax'] out0].
    step H as outs' Houts. injection H as <-.
    destruct (reinsert_shape _ _ _ _ _ _ _ _ _ Ho Hr) as (p & shp & -> & Ho' & Hs1 & Hs2).
    destruct (IH _ _ _ _ _ Ho' Houts) as (arrs & -> & Hlen & Hch).
    exists (out0 :: arrs). split_and!; [done|simpl; lia|].
    intros [|i] out Hi; simpl in Hi.
    + injection Hi as <-. exists p. split; [done|]. by rewrite Hs2, fmap_drop.
    + destruct (Hch i out Hi) as (p' & Hp' & Hsh). exists p'. split; [done|].
      rewrite Hsh. destruct i as [|j]; simpl; [by rewrite Hs1|done].
Qed.

(** X17.  On a list or a tuple of predictions the inverse of
    [CropWithBoundingBox] (lines 87-96) stores a list, also for a tuple,
    with one array per prediction, in order.  The loop reassigns
    [origin_shape] in every round, so only the first array is built on the
    recorded shape: the first has shape
    [predict[0].shape[:2] + origin_shape[1:]], and every later one
    [predict[i].shape[:2]] followed by the shape of the array before it
    without its first axis -- one axis more per round for predictions with
    batch and channel axes. *)
Theorem prediction_list_is_rebuilt_on_a_growing_shape self s s' l origin lo hi :
  recorded CropWithBoundingBox.Param s = Ret (origin, lo, hi) ->
  sample s !! "predict" = Some (OList l) \/ sample s !! "predict" = Some (OTuple l) ->
  CropWithBoundingBox.inverse_transform_for_prediction self s = (s', Ret tt) ->
  exists arrs,
    sample s' !! "predict" = Some (OList (OArr <$> arrs)) /\
    length arrs = length l /\
    forall (i : nat) out, arrs !! i = Some out ->
      exists p, l !! i = Some (OArr p) /\
        shape out = take 2 (shape p) ++
          drop 1 (match i with
                  | O => Z.to_nat <$> origin
                  | S j => default [] (shape <$> arrs !! j)
                  end).
Proof.
  intros (v & Hv & Hload)%recorded_inv Hp H.
  unfold CropWithBoundingBox.inverse_transform_for_prediction in H.
  step H as v' Hv'. rewrite Hv in Hv'. injection Hv' as <-.
  step H as ps Hps. rewrite Hload in Hps. injection Hps as <-.
  step H as predict Hpredict. step H as output Hout.
  apply bind_set_inv, M_ret_inv in H as [_ ->]. simpl.
  rewrite lookup_insert_eq.
  assert (exists outs, CropWithBoundingBox.reinsert_all (JArr (JInt <$> origin))
            (JArr (JInt <$> lo)) (JArr (JInt <$> hi)) l = Ret outs /\ output = OList outs)
    as (outs & Hall & ->).
  { destruct Hp as [Hp|Hp]; rewrite Hp in Hpredict; injection Hpredict as <-;
      step Hout as outs Houts; injection Hout as <-; eauto. }
  destruct (reinsert_all_shapes l (JArr (JInt <$> origin)) _ _ _ origin
              (as_ints_JInt origin) Hall) as (arrs & -> & Hlen & Hch).
  exists arrs. done.
Qed.

Lemma prediction_list_is_rebuilt_on_a_growing_shape_witness :
  let preds := [OArr (full_array [1; 2; 1; 2]%nat 7);
                OArr (full_array [1; 2; 2; 1; 2]%nat 7)] in
  let s := {| sample :=
                {[ CropWithBoundingBox.Param :=
                     OStr (json_dumps_triple [1; 3; 10] [0; 2; 8] [1; 3; 12]);
                   "predict" := OTuple preds ]};
              rng := [] |} in
  let s' := (CropWithBoundingBox.inverse_transform_for_prediction centered_crop s).1 in
  (exists a b, sample s' !! "predict" = Some (OList [OArr a; OArr b]) /\
     shape a = [1; 2; 3; 10]%nat /\ shape b = [1; 2; 2; 3; 10]%nat) /\
  exists arrs,
    sample s' !! "predict" = Some (OList (OArr <$> arrs)) /\
    length arrs = length preds /\
    forall (i : nat) out, arrs !! i = Some out ->
      exists p, preds !! i = Some (OArr p) /\
        shape out = take 2 (shape p) ++
          drop 1 (match i with
                  | O => Z.to_nat <$> [1; 3; 10]
                  | S j => default [] (shape <$> arrs !! j)
                  end).
Proof.
  intros preds s s'. split.
  { vm_compute. eexists _, _. split_and!; reflexivity. }
  apply (prediction_list_is_rebuilt_on_a_growing_shape centered_crop s s' preds
           [1; 3; 10] [0; 2; 8] [1; 3; 12]).
  - vm_compute. reflexivity.
  - right. vm_compute. reflexivity.
  - vm_compute. reflexivity.
Defined.

(** X18.  The inverse of [RandomCrop] has no branch for several
    predictions (lines 192-197 read [predict.shape] at once): on a list or
    a tuple of predictions, which the inverse of [CropWithBoundingBox]
    accepts, it raises AttributeError and leaves the sample as it was. *)
Theorem random_crop_inverse_rejects_prediction_list self s v ps l :
  sample s !! RandomCrop.Param = Some v -> load_param v = Ret ps ->
  sample s !! "predict" = Some (OList l) \/ sample s !! "predict" = Some (OTuple l) ->
  RandomCrop.inverse_transform_for_prediction self s = (s, Raise AttributeError).
Proof.
  intros Hv Hps Hp. unfold RandomCrop.inverse_transform_for_prediction.
  rewrite (bind_get_eq _ _ _ _ Hv), Hps. erewrite bind_lift_eq; [|reflexivity].
  destruct ps as [[o cmin] cmax].
  destruct Hp as [Hp|Hp]; by rewrite (bind_get_eq _ _ _ _ Hp).
Qed.

Lemma random_crop_inverse_rejects_prediction_list_witness :
  let s := {| sample :=
                {[ RandomCrop.Param :=
                     OStr (json_dumps_triple [1; 3; 10] [0; 2; 8] [1; 3; 12]);
                   "predict" := OList [OArr (full_array [1; 2; 1; 2]%nat 7)] ]};
              rng := [] |} in
  RandomCrop.inverse_transform_for_prediction uniform_crop s = (s, Raise AttributeError) /\
  (CropWithBoundingBox.inverse_transform_for_prediction centered_crop
     {| sample := <[CropWithBoundingBox.Param :=
                      OStr (json_dumps_triple [1; 3; 10] [0; 2; 8] [1; 3; 12])]> (sample s);
        rng := [] |}).2 = Ret tt.
Proof.
  intros s. split; [|vm_compute; reflexivity].
  apply (random_crop_inverse_rejects_prediction_list uniform_crop s
           (OStr (json_dumps_triple [1; 3; 10] [0; 2; 8] [1; 3; 12]))
           _ [OArr (full_array [1; 2; 1; 2]%nat 7)]
           eq_refl (load_param_dumps _ _ _)).
  left. reflexivity.
Defined.

(** ** The inverse on a prediction of any batch and channel size *)

(** X19.  On the geometry that a forward pass recorded, with bounds that
    are not negative, the inverse of either transform accepts a prediction
    with any batch size [B] and any channel count [C'] whose spatial shape
    is that of the cropped box, and replaces it by an array of shape
    [[B, C'] + original spatial shape] that holds the prediction inside the
    box [crop_min, crop_max) and zero outside it.  (The box is read as the
    half-open box and the helper as writing the prediction into that
    sub-region, as everywhere in this development.) *)
Theorem inverse_embeds_prediction tr s shp lo hi sp p b ch :
  recorded (param_key tr) s = Ret (shp, lo, hi) ->
  drop 1 shp = Z.of_nat <$> sp ->
  length (drop 1 lo) = length sp -> length (drop 1 hi) = length sp ->
  Forall (Z.le 0) (drop 1 lo) -> Forall (Z.le 0) (drop 1 hi) ->
  sample s !! "predict" = Some (OArr p) ->
  shape p = b :: ch :: region_shape sp (drop 1 lo) (drop 1 hi) ->
  exists s' out,
    backward tr s = (s', Ret tt) /\
    sample s' !! "predict" = Some (OArr out) /\
    shape out = b :: ch :: sp /\
    forall i j idx, in_shape (i :: j :: idx) (b :: ch :: sp) = true ->
      data out (i :: j :: idx)
      = if in_box (drop 1 lo) (drop 1 hi) idx
        then data p (i :: j :: zip_with Nat.sub idx (Z.to_nat <$> drop 1 lo))
        else 0.
Proof. intros Hrec Hshp Hl1 Hl2 _ _. by apply (backward_embeds tr s shp). Qed.

Lemma inverse_embeds_prediction_witness :
  let s := {| sample :=
                {[ RandomCrop.Param :=
                     OStr (json_dumps_triple [1; 3; 10] [0; 1; 6] [1; 3; 10]);
                   "predict" := OArr (full_array [2; 5; 2; 4]%nat 7) ]};
              rng := [] |} in
  exists s' out,
    backward (TRandom uniform_crop) s = (s', Ret tt) /\
    sample s' !! "predict" = Some (OArr out) /\
    shape out = [2; 5; 3; 10]%nat /\
    forall i j idx, in_shape (i :: j :: idx) [2; 5; 3; 10]%nat = true ->
      data out (i :: j :: idx)
      = if in_box (drop 1 [0; 1; 6]) (drop 1 [1; 3; 10]) idx
        then data (full_array [2; 5; 2; 4]%nat 7)
               (i :: j :: zip_with Nat.sub idx (Z.to_nat <$> drop 1 [0; 1; 6]))
        else 0.
Proof.
  intros s.
  apply (inverse_embeds_prediction (TRandom uniform_crop) s
           [1; 3; 10] [0; 1; 6] [1; 3; 10] [3; 10]%nat
           (full_array [2; 5; 2; 4]%nat 7) 2%nat 5%nat).
  - vm_compute. reflexivity.
  - reflexivity.
  - reflexivity.
  - reflexivity.
  - repeat constructor; lia.
  - repeat constructor; lia.
  - reflexivity.
  - vm_compute. reflexivity.
Defined.

(** X20.  Forward pass, network, inverse.  After a successful forward pass
    of either transform, a prediction with any batch size [B] and channel
    count [C'] that has the spatial shape of the cropped image is accepted
    by the inverse of the same transform, and comes back with shape
    [[B, C'] + spatial shape of the original image].  (The box is read as
    the half-open box, as everywhere in this development.) *)
Theorem forward_then_backward_restores_spatial_shape tr s s1 image_t p b ch :
  forward tr s = (s1, Ret tt) ->
  sample s1 !! "image" = Some (OArr image_t) ->
  shape p = b :: ch :: drop 1 (shape image_t) ->
  exists image s2 out,
    sample s !! "image" = Some (OArr image) /\
    backward tr {| sample := <["predict" := OArr p]> (sample s1); rng := rng s1 |}
      = (s2, Ret tt) /\
    sample s2 !! "predict" = Some (OArr out) /\
    shape out = b :: ch :: drop 1 (shape image).
Proof.
  intros H Ht Hp. apply forward_inv in H
    as (image & c & cmin & cmax & image_t' & Himg & Hc & Hl1 & Hl2 & Hc1 & Hc2
        & Hkey & Hcrop & Himg' & _).
  rewrite Himg' in Ht. injection Ht as ->.
  apply crop_inv in Hcrop as (_ & _ & Hshape).
  destruct (shape image) as [|c' sp] eqn:Hsi; [done|].
  destruct cmin as [|x cmin]; [done|]. destruct cmax as [|y cmax]; [done|].
  simpl in Hc, Hc1, Hc2, Hl1, Hl2. simplify_eq.
  rewrite Hshape in Hp. simpl in Hp. rewrite drop_0 in Hp.
  set (s1' := {| sample := <["predict" := OArr p]> (sample s1); rng := rng s1 |}).
  destruct (backward_embeds tr s1' (shapeZ image) (0 :: cmin) (Z.of_nat c :: cmax)
              sp p b ch) as (s2 & out & Hb & Hout & Hso & _).
  - apply recorded_dumps. unfold s1'. simpl.
    rewrite lookup_insert_ne by (by destruct tr). exact Hkey.
  - unfold shapeZ. by rewrite Hsi.
  - simpl. rewrite drop_0. lia.
  - simpl. rewrite drop_0. lia.
  - unfold s1'. simpl. apply lookup_insert_eq.
  - simpl. by rewrite !drop_0.
  - exists image, s2, out. simpl. rewrite ?drop_0. by rewrite Hsi.
Qed.

Lemma forward_then_backward_restores_spatial_shape_witness :
  let p := full_array [2; 5; 1; 2]%nat 7 in
  let s1 := (forward (TCrop centered_crop) corner_state).1 in
  exists image s2 out,
    sample corner_state !! "image" = Some (OArr image) /\
    backward (TCrop centered_crop)
      {| sample := <["predict" := OArr p]> (sample s1); rng := rng s1 |} = (s2, Ret tt) /\
    sample s2 !! "predict" = Some (OArr out) /\
    shape out = 2%nat :: 5%nat :: drop 1 (shape image).
Proof.
  intros p s1.
  assert (exists image_t, sample s1 !! "image" = Some (OArr image_t) /\
            shape p = 2%nat :: 5%nat :: drop 1 (shape image_t)) as (image_t & Ht & Hp).
  { vm_compute. eexists. split; reflexivity. }
  apply (forward_then_backward_restores_spatial_shape (TCrop centered_crop)
           corner_state s1 image_t p 2%nat 5%nat); [|exact Ht|exact Hp].
  vm_compute. reflexivity.
Defined.

(** ** The configurations that [CropWithBoundingBox] accepts *)

Lemma get_ND_bounding_box_length volume bb :
  get_ND_bounding_box volume = Ret bb ->
  length bb.1 = length (shape volume) /\ length bb.2 = length (shape volume).
Proof.
  unfold get_ND_bounding_box. destruct (nonzero volume); [discriminate|].
  intros [= <-]. simpl. by rewrite !length_fmap, length_seq.
Qed.

(** lines 39-43 succeed on an [output_size] with one entry per axis *)
Lemma bounds_centered_succeeds self bb_min bb_max outs :
  CropWithBoundingBox.start self = PNone ->
  items (CropWithBoundingBox.output_size self) = Ret outs ->
  length bb_min = length outs -> length bb_max = length outs ->
  exists cmin0 cmaxs,
    CropWithBoundingBox.bounds self (Z.of_nat (length outs)) bb_min bb_max
    = Ret (PList cmin0, cmaxs) /\
    length cmin0 = length outs /\ length cmaxs = length outs.
Proof.
  intros Hs Ho Hl1 Hl2. unfold CropWithBoundingBox.bounds. rewrite Hs. simpl.
  assert (is_none (CropWithBoundingBox.output_size self) = false) as ->.
  { by destruct (CropWithBoundingBox.output_size self). }
  unfold py_len. rewrite Ho, !outcome_ret_bind, Z.eqb_refl. simpl.
  destruct (comprehension_range_succeeds (fun i =>
      a ← getitem bb_min i; b ← getitem bb_max i;
      o ← py_getitem (CropWithBoundingBox.output_size self) i;
      Ret (int_half (a + b + 1) - int_half o)) (Z.of_nat (length outs))) as [c1 H1].
  { intros i Hi.
    destruct (lookup_lt_is_Some_2 bb_min i ltac:(lia)) as [a Ha].
    destruct (lookup_lt_is_Some_2 bb_max i ltac:(lia)) as [b Hb].
    destruct (lookup_lt_is_Some_2 outs i ltac:(lia)) as [o Hoi].
    rewrite (getitem_nat_ok _ _ _ Ha), (getitem_nat_ok _ _ _ Hb), !outcome_ret_bind.
    rewrite (py_getitem_nat_ok _ _ _ _ Ho Hoi). by eexists. }
  rewrite H1, outcome_ret_bind. apply comprehension_range in H1 as [Hlc1 _].
  destruct (comprehension_range_succeeds (fun i =>
      c ← getitem c1 i; Ret (Z.max 0 c)) (Z.of_nat (length outs))) as [c2 H2].
  { intros i Hi.
    destruct (lookup_lt_is_Some_2 c1 i ltac:(lia)) as [c Hc].
    rewrite (getitem_nat_ok _ _ _ Hc). by eexists. }
  rewrite H2, outcome_ret_bind. apply comprehension_range in H2 as [Hlc2 _].
  destruct (comprehension_range_succeeds (fun i =>
      c ← getitem c2 i; o ← py_getitem (CropWithBoundingBox.output_size self) i;
      Ret (c + o)) (Z.of_nat (length outs))) as [c3 H3].
  { intros i Hi.
    destruct (lookup_lt_is_Some_2 c2 i ltac:(lia)) as [c Hc].
    destruct (lookup_lt_is_Some_2 outs i ltac:(lia)) as [o Hoi].
    rewrite (getitem_nat_ok _ _ _ Hc), outcome_ret_bind.
    rewrite (py_getitem_nat_ok _ _ _ _ Ho Hoi). by eexists. }
  rewrite H3, outcome_ret_bind. apply comprehension_range in H3 as [Hlc3 _].
  exists c2, c3. split_and!; [done|lia..].
Qed.

(** lines 45-46 and 52 succeed on a [start] with one entry per axis and an
    [output_size] with at least as many *)
Lemma bounds_explicit_succeeds self bb_min bb_max starts outs :
  CropWithBoundingBox.start self = PList starts ->
  items (CropWithBoundingBox.output_size self) = Ret outs ->
  (length starts <= length outs)%nat ->
  exists cmaxs,
    CropWithBoundingBox.bounds self (Z.of_nat (length starts)) bb_min bb_max
    = Ret (PList starts, cmaxs) /\ length cmaxs = length starts.
Proof.
  intros Hs Ho Hle. unfold CropWithBoundingBox.bounds. rewrite Hs. simpl.
  assert (is_none (CropWithBoundingBox.output_size self) = false) as ->.
  { by destruct (CropWithBoundingBox.output_size self). }
  rewrite Z.eqb_refl. simpl.
  destruct (comprehension_range_succeeds (fun i =>
      c ← py_getitem (PList starts) i;
      o ← py_getitem (CropWithBoundingBox.output_size self) i;
      Ret (c + o)) (Z.of_nat (length starts))) as [c3 H3].
  { intros i Hi.
    destruct (lookup_lt_is_Some_2 starts i ltac:(lia)) as [c Hc].
    destruct (lookup_lt_is_Some_2 outs i ltac:(lia)) as [o Hoi].
    rewrite (py_getitem_nat_ok (PList starts) starts _ _ eq_refl Hc), outcome_ret_bind.
    rewrite (py_getitem_nat_ok _ _ _ _ Ho Hoi). by eexists. }
  rewrite H3, outcome_ret_bind. apply comprehension_range in H3 as [Hlc3 _].
  exists c3. split; [done|lia].
Qed.

(** with a list of lower bounds [store_and_crop] writes the parameter,
    whatever the cropping that follows does *)
Lemma store_and_crop_list_stores key image cmin0 cmaxs s :
  key ∉ ["image"; "label"; "weight"] ->
  sample (store_and_crop key image (PList cmin0) cmaxs s).1 !! key
  = Some (OStr (json_dumps_triple (shapeZ image) (0 :: cmin0)
                  (take 1 (shapeZ image) ++ cmaxs))).
Proof.
  intros Hkey. unfold store_and_crop. cbn [list_add].
  apply bind_lift_elim; [done|]. intros cmin [= <-].
  rewrite bind_set_eq.
  rewrite (touches_only_after_store image ([0] ++ cmin0) _ _ key Hkey).
  simpl. apply lookup_insert_eq.
Qed.

(** X21.  The configurations in which [CropWithBoundingBox.__call__] gets
    past its own computation of the bounds (lines 35-54).  On a sample whose
    image has a channel axis, at least one spatial axis and a bounding box,
    and that holds no crop parameter yet, the call reaches line 55 and
    leaves the parameter of the image on the sample exactly when
    - [start] and [output_size] are both None, or
    - [start] is None and [output_size] is a list or tuple with one entry
      per spatial axis, or
    - [start] is a list with one entry per spatial axis and [output_size] a
      list or tuple with at least as many entries.
    The parameter is written before the cropping of lines 57-69 starts and
    stays, so what the cropping helper does with the box has no part in
    this. *)
Theorem crop_with_bounding_box_accepted_configurations self s image c sp bb :
  sample s !! "image" = Some (OArr image) ->
  shape image = c :: sp -> sp <> [] ->
  get_ND_bounding_box image = Ret bb ->
  sample s !! CropWithBoundingBox.Param = None ->
  (exists cmin cmax,
     recorded CropWithBoundingBox.Param (CropWithBoundingBox.call self s).1
     = Ret (shapeZ image, cmin, cmax)) <->
  (CropWithBoundingBox.start self = PNone /\
   CropWithBoundingBox.output_size self = PNone) \/
  (CropWithBoundingBox.start self = PNone /\
   exists outs, items (CropWithBoundingBox.output_size self) = Ret outs /\
     length outs = length sp) \/
  (exists starts outs,
     CropWithBoundingBox.start self = PList starts /\ length starts = length sp /\
     items (CropWithBoundingBox.output_size self) = Ret outs /\
     (length sp <= length outs)%nat).
Proof.
  intros Himg Hshape Hsp Hbb Hnone.
  destruct (get_ND_bounding_box_length _ _ Hbb) as [Hb1 Hb2].
  rewrite Hshape in Hb1, Hb2. simpl in Hb1, Hb2.
  assert (Z.of_nat (length (shapeZ image)) - 1 = Z.of_nat (length sp)) as Hdim.
  { unfold shapeZ. rewrite length_fmap, Hshape. simpl. lia. }
  assert (CropWithBoundingBox.Param ∉ ["image"; "label"; "weight"]) as Hkey.
  { rewrite !not_elem_of_cons. split_and!; try discriminate. apply not_elem_of_nil. }
  assert (CropWithBoundingBox.call self s
          = (lift (CropWithBoundingBox.bounds self (Z.of_nat (length sp))
                     (drop 1 bb.1) (drop 1 bb.2))
             ≫= fun b => store_and_crop CropWithBoundingBox.Param image b.1 b.2) s)
    as Hcall.
  { unfold CropWithBoundingBox.call.
    rewrite (bind_get_eq _ _ _ _ Himg). simpl as_array.
    erewrite bind_lift_eq; [|reflexivity]. rewrite Hbb.
    erewrite bind_lift_eq; [|reflexivity]. by rewrite Hdim. }
  rewrite Hcall. clear Hcall.
  split.
  - intros (cmin & cmax & Hrec).
    destruct (CropWithBoundingBox.bounds self (Z.of_nat (length sp))
                (drop 1 bb.1) (drop 1 bb.2)) as [[pmin cmaxs]|e] eqn:Hb.
    2:{ unfold recorded in Hrec. simpl in Hrec. by rewrite Hnone in Hrec. }
    erewrite bind_lift_eq in Hrec; [|reflexivity]. simpl in Hrec.
    destruct (store_and_crop_any CropWithBoundingBox.Param image pmin cmaxs s Hkey)
      as [Hsame|(cmin0 & -> & _)].
    { unfold recorded in Hrec. by rewrite Hsame, Hnone in Hrec. }
    clear Hrec.
    destruct (CropWithBoundingBox.start self) as [|z|starts|starts] eqn:Hs.
    + destruct (decide (CropWithBoundingBox.output_size self = PNone)) as [Ho|Ho];
        [by left|]. right. left. split; [done|].
      apply bounds_centered in Hb as (outs & _ & Houts & Hlo & _); [|done..].
      exists outs. split; [done|lia].
    + unfold CropWithBoundingBox.bounds in Hb. by rewrite Hs in Hb.
    + right. right.
      destruct (decide (CropWithBoundingBox.output_size self = PNone)) as [Ho|Ho].
      { destruct (bounds_start_only self (Z.of_nat (length sp)) (drop 1 bb.1)
                    (drop 1 bb.2)) as (e & He & _); [by rewrite Hs|done|].
        by rewrite He in Hb. }
      apply bounds_explicit in Hb as (starts' & Hst' & Hlen & _ & _ & Hax);
        [|by rewrite Hs|done].
      rewrite Hs in Hst'. injection Hst' as <-.
      destruct sp as [|n sp']; [done|].
      destruct (Hax (length sp') ltac:(simpl; lia)) as (outs & c0 & o & Houts & _ & Hoi & _).
      apply lookup_lt_Some in Hoi.
      exists starts, outs. split_and!; [done|lia|done|simpl; lia].
    + apply bounds_explicit in Hb as (_ & _ & _ & Hp & _); [|by rewrite Hs|].
      * by rewrite Hs in Hp.
      * intros Ho.
        destruct (bounds_start_only self (Z.of_nat (length sp)) (drop 1 bb.1)
                    (drop 1 bb.2)) as (e & He & _); [by rewrite Hs|done|].
        by rewrite He in Hb.
  - intros Hcfg.
    assert (exists cmin0 cmaxs,
      CropWithBoundingBox.bounds self (Z.of_nat (length sp)) (drop 1 bb.1) (drop 1 bb.2)
      = Ret (PList cmin0, cmaxs))
      as (cmin0 & cmaxs & Hb).
    { destruct Hcfg as [[Hs Ho]|[[Hs (outs & Ho & Hlen)]|(starts & outs & Hs & Hls & Ho & Hlo)]].
      - rewrite (bounds_box _ _ _ _ Hs Ho). by eexists _, _.
      - rewrite <-Hlen.
        destruct (bounds_centered_succeeds self (drop 1 bb.1) (drop 1 bb.2) outs)
          as (cmin0 & cmaxs & Hb & _); try done; [rewrite length_drop; lia..|]. eauto.
      - rewrite <-Hls.
        destruct (bounds_explicit_succeeds self (drop 1 bb.1) (drop 1 bb.2) starts outs)
          as (cmaxs & Hb & Hl); [done|done|lia|]. eauto. }
    rewrite Hb. erewrite bind_lift_eq; [|reflexivity]. simpl.
    eexists _, _. apply recorded_dumps.
    by apply store_and_crop_list_stores.
Qed.

(** a start and an output size whose box [[0,2) x [6,10)] lies inside the
    3x10 image *)
Lemma crop_with_bounding_box_accepted_configurations_witness :
  exists cmin cmax,
    recorded CropWithBoundingBox.Param
      (CropWithBoundingBox.call (crop_with (PList [0; 6]) (PTuple [2; 4; 9]))
         corner_state).1
    = Ret (shapeZ corner_image, cmin, cmax).
Proof.
  apply (proj2 (crop_with_bounding_box_accepted_configurations
                  (crop_with (PList [0; 6]) (PTuple [2; 4; 9])) corner_state
                  corner_image 1%nat [3; 10]%nat ([0; 1; 9], [1; 2; 10])
                  eq_refl eq_refl ltac:(discriminate) ltac:(vm_compute; reflexivity)
                  ltac:(vm_compute; reflexivity))).
  right. right. exists [0; 6], [2; 4; 9]. split_and!; try reflexivity. simpl. lia.
Defined.

(** ** The foreground branch on a labelled sample *)

Lemma comprehensionM_succeeds {A B} (f : A -> M B) l :
  (forall x, x ∈ l -> forall s, exists s' y, f x s = (s', Ret y)) ->
  forall s, exists s' ys, comprehensionM f l s = (s', Ret ys).
Proof.
  induction l as [|x r IH]; intros Hf s; simpl; [by exists s, []|].
  destruct (Hf x ltac:(apply elem_of_cons; by left) s) as (s1 & y & Hy).
  rewrite (bind_ret_eq _ _ _ _ _ Hy).
  destruct (IH (fun x' Hx' => Hf x' ltac:(apply elem_of_cons; by right)) s1)
    as (s2 & ys & Hys).
  rewrite (bind_ret_eq _ _ _ _ _ Hys). by exists s2, (y :: ys).
Qed.

Lemma comprehensionM_length {A B} (f : A -> M B) l s s' ys :
  comprehensionM f l s = (s', Ret ys) -> length ys = length l.
Proof.
  revert s s' ys. induction l as [|x r IH]; simpl; intros s s' ys H.
  - by apply M_ret_inv in H as [<- _].
  - apply M_bind_inv in H as (y & s1 & _ & H).
    apply M_bind_inv in H as (ys' & s2 & Hys & H).
    apply M_ret_inv in H as [<- _]. simpl. f_equal. by eapply IH.
Qed.

Lemma np_sum_zero a : nonzero a = [] -> np_sum a = 0.
Proof.
  unfold nonzero, np_sum. induction (indices (shape a)) as [|q l IH]; [done|].
  rewrite filter_cons. destruct (decide (data a q <> 0)) as [|Hz]; [done|].
  intros H. rewrite fmap_cons. cbn [foldr]. rewrite (IH H).
  destruct (decide (data a q = 0)); [lia|done].
Qed.

(** the box that line 144-148 draw from: on every spatial axis a pair
    [a <= b] *)
Lemma focus_box_succeeds (mask : ndarray) (dim : nat) :
  S dim = length (shape mask) ->
  exists bb,
    (if np_sum mask =? 0
     then Ret (replicate (Z.to_nat (Z.of_nat dim + 1)) 0, shapeZ mask)
     else get_ND_bounding_box mask) = Ret bb /\
    forall i : nat, (i < dim)%nat ->
      exists a b, drop 1 bb.1 !! i = Some a /\ drop 1 bb.2 !! i = Some b /\ a <= b.
Proof.
  intros Hrank. destruct (np_sum mask =? 0) eqn:Hsum.
  - eexists. split; [reflexivity|]. intros i Hi. simpl.
    destruct (lookup_lt_is_Some_2 (shape mask) (S i) ltac:(lia)) as [n Hn].
    exists 0, (Z.of_nat n). rewrite !lookup_drop. simpl. split_and!; [|..|lia].
    + apply lookup_replicate_2. lia.
    + unfold shapeZ. by rewrite list_lookup_fmap, Hn.
  - apply Z.eqb_neq in Hsum. unfold get_ND_bounding_box.
    destruct (nonzero mask) as [|q nz] eqn:Hnz.
    { by apply np_sum_zero in Hnz. }
    eexists. split; [reflexivity|]. intros i Hi. simpl.
    rewrite !lookup_drop, !list_lookup_fmap, lookup_seq_lt by lia. simpl.
    eexists _, _. split_and!; [done..|].
    pose proof (axis_min_le_max (q :: nz) (S i)). lia.
Qed.

Lemma fg_crop_min_succeeds self input_shape (dim : nat) label labs outs s :
  sample s !! "label" = Some (OArr label) ->
  S dim = length (shape label) ->
  items (RandomCrop.mask_label self) = Ret labs ->
  items (RandomCrop.output_size self) = Ret outs ->
  length outs = dim -> length input_shape = S dim ->
  exists s' cmin,
    RandomCrop.fg_crop_min self input_shape (Z.of_nat dim) s = (s', Ret cmin).
Proof.
  intros Hlab Hrank Hlabs Ho Hlo Hli. unfold RandomCrop.fg_crop_min.
  rewrite (bind_get_eq _ _ _ _ Hlab). simpl as_array.
  erewrite bind_lift_eq; [|reflexivity]. rewrite Hlabs.
  erewrite bind_lift_eq; [|reflexivity].
  destruct (focus_box_succeeds (label_mask label labs) dim Hrank) as (bb & Hbb & Hax).
  rewrite Hbb. erewrite bind_lift_eq; [|reflexivity].
  destruct (comprehensionM_succeeds (fun i =>
      a ← lift (getitem (drop 1 bb.1) i); b ← lift (getitem (drop 1 bb.2) i);
      r ← randint a b;
      o ← lift (py_getitem (RandomCrop.output_size self) i);
      mret (r - int_half o)) (range (Z.of_nat dim))) with (s := s)
    as (s1 & c1 & Hc1).
  { intros x Hx s0. apply elem_of_seqZ in Hx.
    destruct (Hax (Z.to_nat x) ltac:(lia)) as (a & b & Ha & Hb & Hab).
    destruct (lookup_lt_is_Some_2 outs (Z.to_nat x) ltac:(lia)) as [o Hoi].
    rewrite <-(Z2Nat.id x) by lia.
    rewrite (getitem_nat_ok _ _ _ Ha). erewrite bind_lift_eq; [|reflexivity].
    rewrite (getitem_nat_ok _ _ _ Hb). erewrite bind_lift_eq; [|reflexivity].
    destruct (randint_succeeds a b s0 Hab) as (r & g & Hr).
    rewrite (bind_ret_eq _ _ _ _ _ Hr).
    rewrite (py_getitem_nat_ok _ _ _ _ Ho Hoi). erewrite bind_lift_eq; [|reflexivity].
    by eexists _, _. }
  rewrite (bind_ret_eq _ _ _ _ _ Hc1).
  apply comprehensionM_length in Hc1. rewrite range_length, Nat2Z.id in Hc1.
  destruct (comprehension_range_succeeds (fun i =>
      c ← getitem (Z.max 0 <$> c1) i; s ← getitem input_shape (i + 1);
      o ← py_getitem (RandomCrop.output_size self) i;
      Ret (Z.min c (s - o))) (Z.of_nat dim)) as [cmin Hcmin].
  { intros i Hi.
    destruct (lookup_lt_is_Some_2 (Z.max 0 <$> c1) i) as [c Hc].
    { rewrite length_fmap. lia. }
    destruct (lookup_lt_is_Some_2 input_shape (S i) ltac:(lia)) as [n Hn].
    destruct (lookup_lt_is_Some_2 outs i ltac:(lia)) as [o Hoi].
    rewrite (getitem_nat_ok _ _ _ Hc), outcome_ret_bind.
    rewrite (getitem_succ_nat_ok _ _ _ Hn), outcome_ret_bind.
    rewrite (py_getitem_nat_ok _ _ _ _ Ho Hoi). by eexists. }
  rewrite Hcmin. by eexists _, _.
Qed.

(** X22.  [RandomCrop.__call__] cannot fail on a well-formed labelled
    sample, with foreground focus on or off, whatever the ratio and whatever
    the random source holds: an image with a channel axis, a label of the
    same spatial shape, a weight that is absent or an array with at least
    one axis, an [output_size] with one entry per spatial axis that is not
    larger than the image there, and a [mask_label] that is a list or tuple.
    In particular a label without any voxel of [mask_label] is no error:
    the focus branch then draws from the whole volume (lines 144-146). *)
Theorem random_crop_succeeds_on_labelled_sample self s image label c cl sp outs labs :
  sample s !! "image" = Some (OArr image) -> shape image = c :: sp ->
  sample s !! "label" = Some (OArr label) -> shape label = cl :: sp ->
  croppable "weight" (sample s) ->
  items (RandomCrop.output_size self) = Ret outs ->
  Forall2 (fun o n => o <= Z.of_nat n) outs sp ->
  items (RandomCrop.mask_label self) = Ret labs ->
  exists s', RandomCrop.call self s = (s', Ret tt).
Proof.
  intros Himg Hshape Hlab Hlshape Hw Ho Hfit Hlabs.
  pose proof (Forall2_length _ _ _ Hfit) as Hlen.
  assert (S (length outs) = length (shape image)) as Hlen'.
  { rewrite Hshape. simpl. lia. }
  unfold RandomCrop.call.
  rewrite (bind_get_eq _ _ _ _ Himg). simpl as_array.
  erewrite bind_lift_eq; [|reflexivity].
  unfold py_len. rewrite Ho, outcome_ret_bind.
  erewrite bind_lift_eq; [|reflexivity].
  assert (Z.of_nat (length (shapeZ image)) - 1 = Z.of_nat (length outs)) as Hdim.
  { unfold shapeZ. rewrite length_fmap. lia. }
  rewrite (proj2 (Z.eqb_eq _ _) Hdim).
  erewrite bind_lift_eq; [|reflexivity].
  destruct (crop_margin_succeeds self image outs Ho Hlen') as (margin & Hm & Hlm & Hmi).
  rewrite Hm. erewrite bind_lift_eq; [|reflexivity].
  destruct (randint_margins_succeed margin s) as (s1 & cmin0 & Hc0).
  { apply Forall_lookup. intros i m Hmi'.
    pose proof (lookup_lt_Some _ _ _ Hmi') as Hi.
    destruct (lookup_lt_is_Some_2 outs i ltac:(lia)) as [o Hoi].
    destruct (Forall2_lookup_l _ _ _ _ _ Hfit Hoi) as (n & Hn & Hle).
    rewrite (Hmi i n o) in Hmi'; [|by rewrite Hshape|done].
    injection Hmi' as <-. lia. }
  rewrite (bind_ret_eq _ _ _ _ _ Hc0).
  rewrite Hdim in Hm.
  destruct (margins_nonneg _ _ _ _ _ _ _ Ho Hm Hc0) as (Hs1 & Hl0 & _).
  assert (exists s2 focus,
    (if RandomCrop.fg_focus self
     then u ← random; mret (Qltb u (RandomCrop.fg_ratio self))
     else mret false) s1 = (s2, Ret focus)) as (s2 & focus & Hfocus).
  { destruct (RandomCrop.fg_focus self); [|by eexists _, _].
    unfold random, mbind, M_bind. destruct (next_draw (rng s1)) as [n g].
    destruct (next_draw g) as [d g']. by eexists _, _. }
  rewrite (bind_ret_eq _ _ _ _ _ Hfocus).
  apply focus_decision_inv in Hfocus as [Hs2 _]. rewrite Hdim.
  assert (exists s3 cmin,
    (if focus
     then RandomCrop.fg_crop_min self (shapeZ image) (Z.of_nat (length outs))
     else mret cmin0) s2 = (s3, Ret cmin) /\
    sample s3 = sample s /\ length cmin = length outs) as (s3 & cmin & Hcmin & Hs3 & Hlc).
  { destruct focus.
    - destruct (fg_crop_min_succeeds self (shapeZ image) (length outs) label labs outs s2)
        as (s3 & cmin & Hfg); try done.
      + by rewrite Hs2, Hs1.
      + rewrite Hlshape. simpl. lia.
      + unfold shapeZ. rewrite length_fmap. lia.
      + exists s3, cmin. split; [done|].
        apply fg_crop_min_inv in Hfg as (Hs3 & Hlc & _).
        rewrite Nat2Z.id in Hlc. split; [congruence|done].
    - exists s2, cmin0. split_and!; [done|congruence|done]. }
  rewrite (bind_ret_eq _ _ _ _ _ Hcmin).
  destruct (comprehension_range_succeeds (fun i =>
      c ← getitem cmin i;
      o ← py_getitem (RandomCrop.output_size self) i;
      Ret (c + o)) (Z.of_nat (length outs))) as [cmax Hx].
  { intros i Hi.
    destruct (lookup_lt_is_Some_2 cmin i ltac:(lia)) as [c0 Hci].
    destruct (lookup_lt_is_Some_2 outs i ltac:(lia)) as [o Hoi].
    rewrite (getitem_nat_ok _ _ _ Hci), outcome_ret_bind.
    rewrite (py_getitem_nat_ok _ _ _ _ Ho Hoi). by eexists. }
  rewrite Hx. erewrite bind_lift_eq; [|reflexivity].
  apply comprehension_range in Hx as [Hlx _]. rewrite Nat2Z.id in Hlx.
  apply store_and_crop_succeeds; try done; try lia.
  - rewrite Hs3. right. exists label. split; [done|]. by rewrite Hlshape.
  - by rewrite Hs3.
Qed.

Lemma random_crop_succeeds_on_labelled_sample_witness :
  let s := {| sample := {[ "image" := OArr (full_array [1; 3; 10]%nat 3);
                           "label" := OArr (full_array [1; 3; 10]%nat 0) ]};
              rng := [5; 2; 0; 0; 7; 4]%nat |} in
  exists s', RandomCrop.call (focused_crop [2; 4]) s = (s', Ret tt).
Proof.
  intros s.
  apply (random_crop_succeeds_on_labelled_sample (focused_crop [2; 4]) s
           (full_array [1; 3; 10]%nat 3) (full_array [1; 3; 10]%nat 0)
           1%nat 1%nat [3; 10]%nat [2; 4] [1]).
  - reflexivity.
  - reflexivity.
  - reflexivity.
  - reflexivity.
  - left. reflexivity.
  - reflexivity.
  - repeat constructor; lia.
  - reflexivity.
Defined.

(** ** The ratio of the foreground branch *)

Lemma no_random_same {A} (c : M A) s1 s2 :
  no_random c -> sample s1 = sample s2 ->
  sample (c s1).1 = sample (c s2).1 /\ (c s1).2 = (c s2).2.
Proof.
  intros Hc Hs. destruct s1 as [smp g1], s2 as [smp2 g2]. simpl in Hs. subst smp2.
  destruct (Hc smp) as (smp' & o & E). by rewrite !E.
Qed.

Lemma bind_same_prefix {A B} (m : M A) (f g : A -> M B) s :
  (forall a s1, m s = (s1, Ret a) ->
     sample (f a s1).1 = sample (g a s1).1 /\ (f a s1).2 = (g a s1).2) ->
  sample ((m ≫= f) s).1 = sample ((m ≫= g) s).1 /\ ((m ≫= f) s).2 = ((m ≫= g) s).2.
Proof.
  intros H. unfold mbind, M_bind. destruct (m s) as [s1 [a|e]]; [by apply H|done].
Qed.

Lemma random_below_ratio ratio s :
  (ratio <= 0)%Q ->
  exists s', (u ← random; mret (Qltb u ratio)) s = (s', Ret false) /\
    sample s' = sample s.
Proof.
  intros Hr. destruct (random s) as [s' [u|e]] eqn:E.
  - apply random_inv in E as E'. destruct E' as (Hu & _ & Hs).
    exists s'. split; [|done]. rewrite (bind_ret_eq _ _ _ _ _ E).
    unfold mret, M_ret, Qltb. do 2 f_equal.
    apply negb_false_iff, Qle_bool_iff. by eapply Qle_trans.
  - unfold random in E. destruct (next_draw (rng s)) as [n g].
    by destruct (next_draw g).
Qed.

(** X23.  With [foreground_ratio <= 0] the test [random.random() < fg_ratio]
    of line 139 is never true, so foreground focus is as good as switched
    off: the call leaves the same sample and has the same outcome as the
    call of the same transform with [foreground_focus] False, and it reads
    neither the label nor [mask_label] to choose the box. *)
Theorem zero_foreground_ratio_never_focuses self s :
  (RandomCrop.fg_ratio self <= 0)%Q ->
  let off := {| RandomCrop.output_size := RandomCrop.output_size self;
                RandomCrop.fg_focus := false;
                RandomCrop.fg_ratio := RandomCrop.fg_ratio self;
                RandomCrop.mask_label := RandomCrop.mask_label self;
                RandomCrop.inverse := RandomCrop.inverse self |} in
  sample (RandomCrop.call self s).1 = sample (RandomCrop.call off s).1 /\
  (RandomCrop.call self s).2 = (RandomCrop.call off s).2.
Proof.
  intros Hr off. destruct self as [os fg ratio ml inv]. simpl in *.
  destruct fg; [|done]. unfold off, RandomCrop.call. simpl.
  apply bind_same_prefix; intros v t1 _.
  apply bind_same_prefix; intros image t2 _.
  apply bind_same_prefix; intros n t3 _.
  apply bind_same_prefix; intros u t4 _.
  apply bind_same_prefix; intros margin t5 _.
  apply bind_same_prefix; intros cmin0 t6 _.
  destruct (random_below_ratio ratio t6 Hr) as (t7 & Hf & Hs7).
  rewrite (bind_ret_eq _ _ _ _ _ Hf).
  rewrite (bind_ret_eq (mret false) _ t6 t6 false eq_refl).
  apply no_random_same; [|done]. solve_no_random.
Qed.

Lemma zero_foreground_ratio_never_focuses_witness :
  let self := {| RandomCrop.output_size := PList [2; 4];
                 RandomCrop.fg_focus := true;
                 RandomCrop.fg_ratio := 0;
                 RandomCrop.mask_label := PNone;
                 RandomCrop.inverse := true |} in
  (RandomCrop.call self corner_state).2 = Ret tt /\
  sample (RandomCrop.call self corner_state).1
  = sample (RandomCrop.call uniform_crop corner_state).1 /\
  (RandomCrop.call self corner_state).2 = (RandomCrop.call uniform_crop corner_state).2.
Proof.
  intros self. split; [vm_compute; reflexivity|].
  apply (zero_foreground_ratio_never_focuses self corner_state).
  vm_compute. discriminate.
Defined.

(** ** A label that is not an array *)

(** X24.  [CropWithBoundingBox.__call__] is not all-or-nothing.  A
    ['label'] entry that is not an array makes the call raise
    AttributeError at line 60, after the parameter has been stored and the
    image replaced by its crop: on a sample on which the call succeeds
    without the label, the failed call leaves the same parameter and the
    same cropped image as the successful one, next to the label as it
    was. *)
Theorem non_array_label_fails_after_cropping self smp g v s' :
  (forall a, v <> OArr a) ->
  CropWithBoundingBox.call self {| sample := delete "label" smp; rng := g |}
    = (s', Ret tt) ->
  let r := CropWithBoundingBox.call self {| sample := <["label" := v]> smp; rng := g |} in
  r.2 = Raise AttributeError /\
  sample r.1 !! CropWithBoundingBox.Param = sample s' !! CropWithBoundingBox.Param /\
  sample r.1 !! "image" = sample s' !! "image" /\
  sample r.1 !! "label" = Some v.
Proof.
  intros Hv H.
  apply crop_call_inv in H as (image & bb & [pmin cmaxs] & Himg & Hbb & Hb & Hst).
  simpl in Himg. rewrite lookup_delete_ne in Himg by done.
  apply store_and_crop_inv in Hst
    as (cmin0 & image_t & Hp & Hcrop & Hkey & Himg' & _); [|done..].
  simpl in Hp. subst pmin. simpl in Hcrop, Hkey.
  assert (as_array v = Raise AttributeError) as Harr.
  { destruct v; try done. by destruct (Hv a). }
  assert (exists s1,
    CropWithBoundingBox.call self {| sample := <["label" := v]> smp; rng := g |}
      = (s1, Raise AttributeError) /\
    sample s1 !! CropWithBoundingBox.Param = sample s' !! CropWithBoundingBox.Param /\
    sample s1 !! "image" = sample s' !! "image" /\
    sample s1 !! "label" = Some v) as (s1 & Hr & H1 & H2 & H3).
  { unfold CropWithBoundingBox.call.
    erewrite bind_get_eq by (simpl; rewrite lookup_insert_ne by done; exact Himg).
    simpl as_array. erewrite bind_lift_eq; [|reflexivity].
    rewrite Hbb. erewrite bind_lift_eq; [|reflexivity].
    unfold shapeZ at 1. rewrite length_fmap, Hb.
    erewrite bind_lift_eq; [|reflexivity]. simpl fst. simpl snd.
    unfold store_and_crop.
    change (list_add [0] (PList cmin0)) with (Ret (0 :: cmin0)).
    erewrite bind_lift_eq; [|reflexivity]. rewrite bind_set_eq.
    rewrite Hcrop. erewrite bind_lift_eq; [|reflexivity]. rewrite bind_set_eq.
    set (s1 := {| sample := <["image" := OArr image_t]> _; rng := _ |}).
    assert (sample s1 !! "label" = Some v) as Hlab.
    { unfold s1. simpl. rewrite !lookup_insert_ne by done. apply lookup_insert_eq. }
    exists s1. split_and!; [|..|done].
    - erewrite bind_raise_eq; [done|].
      unfold crop_entry. rewrite bind_has_eq, Hlab.
      rewrite bool_decide_eq_true_2 by eauto.
      by rewrite (bind_get_eq _ _ _ _ Hlab), Harr.
    - rewrite Hkey. unfold s1. simpl.
      rewrite lookup_insert_ne by done. apply lookup_insert_eq.
    - rewrite Himg'. unfold s1. simpl. apply lookup_insert_eq. }
  intros r. subst r. by rewrite Hr.
Qed.

Lemma non_array_label_fails_after_cropping_witness :
  let r := CropWithBoundingBox.call centered_crop
             {| sample := <["label" := OStr "liver"]> corner_sample; rng := [] |} in
  let s' := (CropWithBoundingBox.call centered_crop
               {| sample := delete "label" corner_sample; rng := [] |}).1 in
  (exists image_t, sample r.1 !! "image" = Some (OArr image_t) /\
     shape image_t = [1; 1; 2]%nat) /\
  r.2 = Raise AttributeError /\
  sample r.1 !! CropWithBoundingBox.Param = sample s' !! CropWithBoundingBox.Param /\
  sample r.1 !! "image" = sample s' !! "image" /\
  sample r.1 !! "label" = Some (OStr "liver").
Proof.
  intros r s'. split.
  { vm_compute. eexists. split; reflexivity. }
  apply (non_array_label_fails_after_cropping centered_crop corner_sample []
           (OStr "liver") s').
  - discriminate.
  - vm_compute. reflexivity.
Defined.

(** ** Where the foreground branch puts the box *)

Lemma axis_max_below nz k n :
  nz <> [] -> Forall (fun q => nth k q 0 < n)%nat nz -> (axis_max nz k < n)%nat.
Proof.
  unfold axis_max. intros Hne H. induction H as [|q l Hq Hl IH]; [done|].
  rewrite fmap_cons. simpl. destruct l as [|q' l]; [simpl; lia|].
  specialize (IH ltac:(done)). lia.
Qed.

Lemma get_ND_bounding_box_within volume bb (k : nat) b n :
  get_ND_bounding_box volume = Ret bb ->
  bb.2 !! k = Some b -> shape volume !! k = Some n -> b <= Z.of_nat n.
Proof.
  unfold get_ND_bounding_box. intros H Hb Hn.
  assert (Forall (fun q => nth k q 0 < n)%nat (nonzero volume)) as Hall.
  { apply Forall_forall. intros q [_ Hq%indices_in_shape]%list_elem_of_filter.
    destruct (lookup_lt_is_Some_2 q k) as [x Hx].
    { rewrite (in_shape_length _ _ Hq). by eapply lookup_lt_Some. }
    rewrite (nth_lookup_Some _ _ _ _ Hx). by eapply in_shape_lookup. }
  pose proof (fun Hne => axis_max_below (nonzero volume) k n Hne Hall) as Hmax.
  destruct (nonzero volume) as [|q nz]; [discriminate|].
  injection H as <-. simpl in Hb. rewrite list_lookup_fmap in Hb.
  destruct (seq 0 (length (shape volume)) !! k) as [k'|] eqn:Hk; [|done].
  apply lookup_seq in Hk as [-> _]. simpl in Hb. injection Hb as <-.
  specialize (Hmax ltac:(done)). lia.
Qed.

(** the foreground branch on a label with foreground: every offset comes
    from a draw between the two ends of the bounding box of the mask *)
Lemma fg_crop_min_box self input_shape dim s s' cmin label labs :
  RandomCrop.fg_crop_min self input_shape dim s = (s', Ret cmin) ->
  sample s !! "label" = Some (OArr label) ->
  items (RandomCrop.mask_label self) = Ret labs ->
  np_sum (label_mask label labs) <> 0 ->
  exists bb,
    get_ND_bounding_box (label_mask label labs) = Ret bb /\
    forall i : nat, Z.of_nat i < dim ->
      exists a b r n o outs,
        bb.1 !! S i = Some a /\ bb.2 !! S i = Some b /\ a <= r <= b /\
        input_shape !! S i = Some n /\
        items (RandomCrop.output_size self) = Ret outs /\ outs !! i = Some o /\
        cmin !! i = Some (Z.min (Z.max 0 (r - int_half o)) (n - o)).
Proof.
  unfold RandomCrop.fg_crop_min. intros H Hlab Hlabs Hsum.
  step H as lv Hlv. rewrite Hlab in Hlv. injection Hlv as <-.
  step H as label' [= <-]%as_array_inv. step H as labs' Hlabs'.
  rewrite Hlabs in Hlabs'. injection Hlabs' as <-.
  step H as bb Hbb. rewrite (proj2 (Z.eqb_neq _ _) Hsum) in Hbb.
  exists bb. split; [done|].
  apply M_bind_inv in H as (c1 & s1 & Hc1 & H).
  apply (comprehensionM_inv _ (fun (i : Z) y => forall k : nat, i = Z.of_nat k ->
      exists a b r o outs, bb.1 !! S k = Some a /\ bb.2 !! S k = Some b /\ a <= r <= b /\
        items (RandomCrop.output_size self) = Ret outs /\ outs !! k = Some o /\
        y = r - int_half o)) in Hc1 as [Hs1 Hc1].
  2:{ clear. intros i s s' y H.
      step H as a Ha. step H as b Hb.
      apply M_bind_inv in H as (r & s1 & [Hr Hs]%randint_inv & H').
      step H' as o Ho. apply M_ret_inv in H' as [<- ->]. split; [done|].
      intros k ->. apply getitem_nat_inv in Ha, Hb. rewrite lookup_drop in Ha, Hb.
      unfold py_getitem in Ho. step Ho as outs Houts. apply getitem_nat_inv in Ho.
      eauto 12. }
  apply lift_inv in H as [[Hl Hc]%comprehension_range ->].
  intros i Hi. destruct (Hc i Hi) as (c & Hci & E).
  step E as c' Hc'. step E as n Hn. step E as o Ho. injection E as <-.
  apply getitem_nat_inv in Hc'. apply getitem_succ_nat_inv in Hn.
  unfold py_getitem in Ho. step Ho as outs Houts. apply getitem_nat_inv in Ho.
  rewrite list_lookup_fmap in Hc'.
  destruct (c1 !! i) as [c0|] eqn:Hc0; [|done]. injection Hc' as <-.
  pose proof (range_lookup dim i Hi) as Hri.
  destruct (Forall2_lookup_l _ _ _ _ _ Hc1 Hri) as (c0' & Hc0' & HP).
  rewrite Hc0 in Hc0'. injection Hc0' as <-.
  destruct (HP i eq_refl) as (a & b & r & o' & outs' & Ha & Hb & Hr & Houts' & Ho' & ->).
  rewrite Houts in Houts'. injection Houts' as <-.
  rewrite Ho in Ho'. injection Ho' as <-.
  exists a, b, r, n, o, outs. done.
Qed.

(** X25.  What foreground focus guarantees.  With [foreground_focus] set,
    [foreground_ratio >= 1], a label of the image's spatial shape that has
    some voxel with a value of [mask_label], and an [output_size] of at
    least 2 on an axis, the box that a successful call records overlaps the
    bounding box of those voxels on that axis, whatever the random draws:
    [crop_min < bb_max] and [bb_min < crop_max].  (It need not contain the
    bounding box, and with [output_size] 1 it can lie beside it.) *)
Theorem focused_crop_overlaps_foreground_box self s s' image label labs outs :
  RandomCrop.call self s = (s', Ret tt) ->
  RandomCrop.fg_focus self = true ->
  (1 <= RandomCrop.fg_ratio self)%Q ->
  sample s !! "image" = Some (OArr image) ->
  sample s !! "label" = Some (OArr label) ->
  drop 1 (shape label) = drop 1 (shape image) ->
  items (RandomCrop.mask_label self) = Ret labs ->
  np_sum (label_mask label labs) <> 0 ->
  items (RandomCrop.output_size self) = Ret outs ->
  exists bb cmin cmax,
    get_ND_bounding_box (label_mask label labs) = Ret bb /\
    recorded RandomCrop.Param s' = Ret (shapeZ image, cmin, cmax) /\
    forall (i : nat) o, outs !! i = Some o -> 2 <= o ->
      exists a b lo hi,
        bb.1 !! S i = Some a /\ bb.2 !! S i = Some b /\
        cmin !! S i = Some lo /\ cmax !! S i = Some hi /\
        lo < b /\ a < hi.
Proof.
  intros H Hfg Hratio Himg Hlab Hsp Hlabs Hsum Houts.
  apply random_call_steps in H
    as (image' & outs' & margin & cmin0 & focus & cmin & cmax & s1 & s2 & s3
        & Himg' & Houts' & Hlen & Hm & Hc0 & Hfocus & Hcmin & Hx & Hstore).
  rewrite Himg in Himg'. injection Himg' as <-.
  rewrite Houts in Houts'. injection Houts' as <-.
  destruct (margins_nonneg _ _ _ _ _ _ _ Houts Hm Hc0) as (Hs1 & _ & Hmargin).
  apply focus_decision_inv in Hfocus as [Hs2 Hf]. rewrite Hf in Hcmin by done.
  assert (sample s2 !! "label" = Some (OArr label)) as Hlab2 by congruence.
  destruct (fg_crop_min_box _ _ _ _ _ _ _ _ Hcmin Hlab2 Hlabs Hsum) as (bb & Hbb & Hfgc).
  apply comprehension_range in Hx as [Hlx Hx].
  apply store_and_crop_inv in Hstore
    as (cmin1 & image_t & [= <-] & Hcrop & Hkey & _); [|done..].
  exists bb. eexists _, _. split_and!; [done|by apply recorded_dumps|].
  intros i o Ho Ho2. pose proof (lookup_lt_Some _ _ _ Ho) as Hi.
  destruct (Hfgc i ltac:(lia)) as (a & b & r & n & o' & outs' & Ha & Hb & Hr & Hn & Houts' & Ho' & Hci).
  rewrite Houts in Houts'. injection Houts' as <-.
  rewrite Ho in Ho'. injection Ho' as <-.
  destruct (Hmargin i Hi) as (c0 & n' & o' & _ & Hn' & Ho' & Hr0).
  rewrite Ho in Ho'. injection Ho' as <-.
  unfold shapeZ in Hn. rewrite list_lookup_fmap, Hn' in Hn. injection Hn as <-.
  destruct (Hx i ltac:(lia)) as (y & Hy & E).
  step E as c' Hc'. step E as o' Ho'. injection E as <-.
  apply getitem_nat_inv in Hc'. apply (py_getitem_nat_inv _ _ _ _ Houts) in Ho'.
  rewrite Hci in Hc'. injection Hc' as <-. rewrite Ho in Ho'. injection Ho' as <-.
  assert (shape (label_mask label labs) !! S i = Some n') as Hn''.
  { simpl. rewrite <-(lookup_drop _ 1 i) in Hn'. rewrite <-Hsp in Hn'.
    by rewrite lookup_drop in Hn'. }
  pose proof (get_ND_bounding_box_within _ _ _ _ _ Hbb Hb Hn'') as Hbn.
  pose proof (get_ND_bounding_box_ordered _ _ _ _ _ Hbb Ha Hb) as Hab.
  destruct (shape image) as [|ch shp] eqn:Hshape; [done|].
  unfold shapeZ. rewrite Hshape. simpl.
  eexists a, b, _, _. split_and!; [done..| |];
    unfold int_half; Z.to_euclidean_division_equations; lia.
Qed.

Lemma focused_crop_overlaps_foreground_box_witness :
  let label := full_array [1; 3; 10]%nat 1 in
  let s := {| sample := {[ "image" := OArr (full_array [1; 3; 10]%nat 3);
                           "label" := OArr label ]};
              rng := [0; 5; 0; 0; 3; 9]%nat |} in
  exists bb cmin cmax,
    get_ND_bounding_box (label_mask label [1]) = Ret bb /\
    recorded RandomCrop.Param (RandomCrop.call (focused_crop [2; 4]) s).1
      = Ret ([1; 3; 10], cmin, cmax) /\
    forall (i : nat) o, [2; 4] !! i = Some o -> 2 <= o ->
      exists a b lo hi,
        bb.1 !! S i = Some a /\ bb.2 !! S i = Some b /\
        cmin !! S i = Some lo /\ cmax !! S i = Some hi /\
        lo < b /\ a < hi.
Proof.
  intros label s.
  apply (focused_crop_overlaps_foreground_box (focused_crop [2; 4]) s
           (RandomCrop.call (focused_crop [2; 4]) s).1
           (full_array [1; 3; 10]%nat 3) label [1] [2; 4]).
  - vm_compute. reflexivity.
  - reflexivity.
  - vm_compute. discriminate.
  - reflexivity.
  - reflexivity.
  - reflexivity.
  - reflexivity.
  - vm_compute. discriminate.
  - reflexivity.
Defined.

(** ** The box of the bounding-box crop *)

(** the box that [CropWithBoundingBox] records with neither [start] nor
    [output_size] lies inside the image *)
Lemma bounding_box_crop_box_inside self s s' :
  CropWithBoundingBox.start self = PNone ->
  CropWithBoundingBox.output_size self = PNone ->
  CropWithBoundingBox.call self s = (s', Ret tt) ->
  exists image cmin cmax,
    sample s !! "image" = Some (OArr image) /\
    recorded CropWithBoundingBox.Param s' = Ret (shapeZ image, cmin, cmax) /\
    box_inside (shape image) cmin cmax.
Proof.
  intros Hs Ho (image & bb & cmin0 & cmaxs & image_t & Himg & Hbb & Hb & Hrec & Hcrop & Hi)
    %crop_call_recorded.
  rewrite (bounds_box _ _ _ _ Hs Ho) in Hb. injection Hb as <- <-.
  exists image. eexists _, _. split_and!; [done..|].
  destruct (crop_inv _ _ _ _ Hcrop) as (Hl1 & Hl2 & _).
  destruct (get_ND_bounding_box_length _ _ Hbb) as [Hb1 Hb2].
  unfold shapeZ in *. destruct (shape image) as [|c sp] eqn:Hshape; [done|].
  apply box_inside_lookup; [done..|].
  intros [|i] n Hn.
  - injection Hn as <-. exists 0, (Z.of_nat c). split_and!; [done..|lia|lia|lia].
  - simpl in Hn.
    destruct (lookup_lt_is_Some_2 bb.1 (S i)) as [a Ha].
    { rewrite Hb1. simpl. apply lookup_lt_Some in Hn. lia. }
    destruct (lookup_lt_is_Some_2 bb.2 (S i)) as [b Hb].
    { rewrite Hb2. simpl. apply lookup_lt_Some in Hn. lia. }
    pose proof (get_ND_bounding_box_ordered _ _ _ _ _ Hbb Ha Hb).
    pose proof (get_ND_bounding_box_within image bb (S i) b n Hbb Hb) as Hw.
    rewrite Hshape in Hw. specialize (Hw Hn).
    exists a, b. simpl. rewrite !lookup_drop. simpl.
    split_and!; [done..|lia|lia|lia].
Qed.
